(** * Comment-automation backend: error handling, rate limiting, dedup storage

    A shallow embedding of
      - server/services/error-handler.service.js  (the error classes and
        ErrorHandler; the constructor, [authenticate], [_checkRateLimit],
        [replyToComment] and [logout] of InstagramService),
      - server/models/ProcessedComment.js         (the dedup collection),
      - server/models/ActivityLog.js              (the activity log),
      - server/models/User.js                     (the automation settings),
      - server/services/storage.service.js        (StorageService),
    followed by the properties established about them.

    Conventions of the embedding.
      - A JavaScript string is a [string] of code units below 256; the
        functions below give [toLowerCase], [includes], the whitespace
        class, [parseInt] and the printing of a number on that range.
      - A JavaScript number is an IEEE 754 binary64 value: every
        arithmetic operation is the exact operation on rationals followed
        by the rounding [Js.fl] (to nearest, ties to even, 53 bits).
        The delays are computed in that arithmetic; counters, limits and
        timestamps are integers far below 2^53, on which it is exact, and
        are kept in [Z].
      - A document is checked by the validators of its schema before it
        is written: [create] of a collection throws the ValidationError
        of the library for a document they reject.
      - [Math.random()], [Date.now()] and the outcome of the wrapped
        operation are inputs of the functions that consult them.
      - A function that may throw returns a [Completion]. *)

From Stdlib Require Import ZArith QArith Qround Qpower Qabs Lia Lqa.
From Stdlib Require Import Ascii String DecimalString DecimalPos.
From stdpp Require Import base option list gmap strings.

Local Open Scope Z_scope.

(** ** Completions: normal return or throw *)

Inductive Completion (A E : Type) : Type :=
  | Return (a : A)
  | Throw (e : E).
Arguments Return {A E} a.
Arguments Throw {A E} e.

(** ** The fragment of JavaScript the services rely on *)

Module Js.

(** Numbers.  A JavaScript number is an IEEE 754 binary64 value.  [Num]
    holds the ones that the code stores and prints, which are integers,
    infinities or NaN; [Double] holds the intermediate results of
    [calculateBackoff] and of a division, which need not be integers.  The
    sign of a zero, which nothing here observes, is not kept. *)
Inductive Num : Type :=
  | NaN
  | Int (z : Z)
  | Inf (negative : bool).

Inductive Double : Type :=
  | DNaN
  | DInf (negative : bool)
  | DFin (q : Q).

(** [2^e] for every integer [e]. *)
Definition pow2 (e : Z) : Q :=
  if 0 <=? e then inject_Z (2 ^ e) else 1 # Z.to_pos (2 ^ (- e)).

(** The exponent of a rational [q ≠ 0]: [2^(ilog2 q) ≤ |q| < 2^(ilog2 q + 1)]. *)
Definition ilog2 (q : Q) : Z :=
  let k := Z.log2 (Z.abs (Qnum q)) - Z.log2 (Zpos (Qden q)) in
  if Qle_bool (pow2 k) (Qabs q) then k else k - 1.

(** The nearest integer, a tie going to the even one. *)
Definition roundHalfEven (q : Q) : Z :=
  let f := Qfloor q in
  match Qcompare (q - inject_Z f)%Q (1 # 2) with
  | Lt => f
  | Gt => f + 1
  | Eq => if Z.even f then f else f + 1
  end.

(** Rounding of a real to binary64, to nearest with ties to even: 53
    significant bits, exponents from -1022 (below which the spacing stays
    [2^-1074]) to 1023 (above which the result is an infinity). *)
Definition fl (q : Q) : Double :=
  if Qeq_bool q 0 then DFin 0
  else
    let e := Z.max (ilog2 q) (-1022) in
    let m := roundHalfEven (q * pow2 (52 - e))%Q in
    let v := (inject_Z m * pow2 (e - 52))%Q in
    if Qle_bool (pow2 1024) (Qabs v) then DInf (Qnum q <? 0)
    else DFin (Qred v).

Definition negativeQ (q : Q) : bool := Qnum q <? 0.

(** [a * b], [a + b] and [a - b] on doubles. *)
Definition mulD (a b : Double) : Double :=
  match a, b with
  | DNaN, _ | _, DNaN => DNaN
  | DInf s, DInf t => DInf (xorb s t)
  | DInf s, DFin q | DFin q, DInf s =>
      if Qeq_bool q 0 then DNaN else DInf (xorb s (negativeQ q))
  | DFin p, DFin q => fl (p * q)
  end.

Definition addD (a b : Double) : Double :=
  match a, b with
  | DNaN, _ | _, DNaN => DNaN
  | DInf s, DInf t => if Bool.eqb s t then DInf s else DNaN
  | DInf s, DFin _ | DFin _, DInf s => DInf s
  | DFin p, DFin q => fl (p + q)
  end.

Definition oppD (a : Double) : Double :=
  match a with
  | DNaN => DNaN
  | DInf s => DInf (negb s)
  | DFin q => DFin (- q)
  end.

Definition subD (a b : Double) : Double := addD a (oppD b).

(** [a / b] for a finite [b ≠ 0]. *)
Definition divD (a : Double) (b : Q) : Double :=
  match a with
  | DNaN => DNaN
  | DInf s => DInf (xorb s (negativeQ b))
  | DFin p => fl (p / b)
  end.

(** [a <= b] on doubles that are not NaN. *)
Definition leD (a b : Double) : bool :=
  match a, b with
  | DNaN, _ | _, DNaN => false
  | DInf true, _ => true
  | _, DInf false => true
  | DInf false, _ => false
  | _, DInf true => false
  | DFin p, DFin q => Qle_bool p q
  end.

(** [Math.min(a, b)] *)
Definition minD (a b : Double) : Double :=
  match a, b with
  | DNaN, _ | _, DNaN => DNaN
  | _, _ => if leD a b then a else b
  end.

(** [Math.floor(a)] and [Math.ceil(a)] *)
Definition floorD (a : Double) : Num :=
  match a with
  | DNaN => NaN
  | DInf s => Inf s
  | DFin q => Int (Qfloor q)
  end.

Definition ceilD (a : Double) : Num :=
  match a with
  | DNaN => NaN
  | DInf s => Inf s
  | DFin q => Int (Qceiling q)
  end.

Definition toDouble (n : Num) : Double :=
  match n with
  | NaN => DNaN
  | Inf s => DInf s
  | Int z => DFin (inject_Z z)
  end.

(** The number nearest to an integer: itself up to [2^53]. *)
Definition roundZ (z : Z) : Num := floorD (fl (inject_Z z)).

(** [Math.pow(2, k)] for an integer [k]. *)
Definition powOfTwo (k : Z) : Double := fl (pow2 k).

(** ToBoolean on numbers: 0 and NaN are falsy. *)
Definition truthyNum (n : Num) : bool :=
  match n with
  | NaN => false
  | Int z => negb (z =? 0)
  | Inf _ => true
  end.

(** A number above zero. *)
Definition positiveNum (n : Num) : Prop :=
  match n with
  | Int z => 1 ≤ z
  | Inf false => True
  | _ => False
  end.

(** ToBoolean on strings: only the empty string is falsy. *)
Definition truthyStr (s : string) : bool :=
  match s with
  | EmptyString => false
  | String _ _ => true
  end.

Definition truthyOptStr (s : option string) : bool :=
  match s with
  | None => false
  | Some s => truthyStr s
  end.

(** [a * b] where [b] is an integer constant. *)
Definition mul (a : Num) (b : Z) : Num :=
  floorD (mulD (toDouble a) (DFin (inject_Z b))).

(** [x || d] where [x] is a possibly absent number. *)
Definition orNum (x : option Num) (d : Num) : Num :=
  match x with
  | Some n => if truthyNum n then n else d
  | None => d
  end.

(** [x || null] and [x || d] on possibly absent strings. *)
Definition orNull (x : option string) : option string :=
  if truthyOptStr x then x else None.

Definition orStr (x : option string) (d : string) : string :=
  match x with
  | Some s => if truthyStr s then s else d
  | None => d
  end.

Definition between (lo hi n : N) : bool := ((lo <=? n) && (n <=? hi))%N.

(** Lower-casing of one code unit: A-Z, and the Latin-1 capitals
    U+00C0..U+00DE except the multiplication sign U+00D7. *)
Definition lowerChar (c : ascii) : ascii :=
  let n := N_of_ascii c in
  if between 65 90 n || (between 192 222 n && negb (n =? 215)%N)
  then ascii_of_N (n + 32)
  else c.

Fixpoint toLowerCase (s : string) : string :=
  match s with
  | EmptyString => EmptyString
  | String c s' => String (lowerChar c) (toLowerCase s')
  end.

(** [s.startsWith(p)] *)
Definition startsWith (s p : string) : bool := String.prefix p s.

(** [s.includes(sub)] *)
Fixpoint includes (s sub : string) : bool :=
  startsWith s sub ||
  match s with
  | EmptyString => false
  | String _ s' => includes s' sub
  end.

(** The class [\d]. *)
Definition isDigit (c : ascii) : bool := between 48 57 (N_of_ascii c).

(** The class [\s] (also the white space [parseInt] skips): TAB, LF, VT,
    FF, CR, SP and NBSP. *)
Definition isSpace (c : ascii) : bool :=
  let n := N_of_ascii c in between 9 13 n || (n =? 32)%N || (n =? 160)%N.

(** Longest prefix whose code units satisfy [p], and the rest. *)
Fixpoint span (p : ascii -> bool) (s : string) : string * string :=
  match s with
  | EmptyString => (EmptyString, EmptyString)
  | String c s' =>
      if p c then let '(a, b) := span p s' in (String c a, b)
      else (EmptyString, s)
  end.

(** Value of a digit in radix 16 (which covers radix 10). *)
Definition hexValue (c : ascii) : option Z :=
  let n := N_of_ascii c in
  if between 48 57 n then Some (Z.of_N n - 48)
  else if between 97 102 n then Some (Z.of_N n - 87)
  else if between 65 70 n then Some (Z.of_N n - 55)
  else None.

Definition digitValue (radix : Z) (c : ascii) : option Z :=
  match hexValue c with
  | Some v => if v <? radix then Some v else None
  | None => None
  end.

(** Reads the longest run of radix-[radix] digits; [acc] is the value of
    the digits read so far, [seen] tells whether there was one. *)
Fixpoint readDigits (radix : Z) (s : string) (acc : Z) (seen : bool)
  : option Z :=
  match s with
  | EmptyString => if seen then Some acc else None
  | String c s' =>
      match digitValue radix c with
      | Some v => readDigits radix s' (acc * radix + v) true
      | None => if seen then Some acc else None
      end
  end.

(** [parseInt(s)] without a radix argument: leading white space, an
    optional sign, an optional [0x]/[0X] prefix, then digits; the result is
    the number nearest to the integer the digits denote. *)
Definition parseInt (s : string) : Num :=
  let s1 := snd (span isSpace s) in
  let '(sign, s2) :=
    match s1 with
    | String "-" r => (-1, r)
    | String "+" r => (1, r)
    | _ => (1, s1)
    end in
  let '(radix, s3) :=
    match s2 with
    | String "0" (String "x" r) => (16, r)
    | String "0" (String "X" r) => (16, r)
    | _ => (10, s2)
    end in
  match readDigits radix s3 0 false with
  | Some v => roundZ (sign * v)
  | None => NaN
  end.

(** Decimal text of an integer, as a template literal prints it when the
    integer is below [2^53] in magnitude. *)
Definition showZ (z : Z) : string := NilZero.string_of_int (Z.to_int z).

(** Number::toString for an integer [a >= 2^53] that is a number: the
    fewest digits [s] (there are [k] of them) such that [s * 10^(n-k)]
    rounds to [a], the closest such [s], then [n - k] zeros, or the
    exponent form from [10^21] on. *)
Definition roundsTo (a v : Z) : bool :=
  match roundZ v with
  | Int z => z =? a
  | _ => false
  end.

Definition digitCount (a : Z) : Z := Z.of_nat (String.length (showZ a)).

(** The [k]-digit candidate for an [n]-digit [a], if there is one. *)
Definition shortestAt (a n k : Z) : option Z :=
  let p := 10 ^ (n - k) in
  let s0 := a / p in
  let ok s := (10 ^ (k - 1) <=? s) && (s <? 10 ^ k) && roundsTo a (s * p) in
  match ok s0, ok (s0 + 1) with
  | true, true =>
      let d0 := a - s0 * p in
      let d1 := (s0 + 1) * p - a in
      if d0 <? d1 then Some s0
      else if d1 <? d0 then Some (s0 + 1)
      else if Z.even s0 then Some s0 else Some (s0 + 1)
  | true, false => Some s0
  | false, true => Some (s0 + 1)
  | false, false => None
  end.

Fixpoint shortestFrom (a n k : Z) (fuel : nat) : Z * Z :=
  match fuel with
  | O => (a, n)
  | S fuel' =>
      if n <=? k then (a, n)
      else
        match shortestAt a n k with
        | Some s => (s, k)
        | None => shortestFrom a n (k + 1) fuel'
        end
  end.

Definition zeros (n : Z) : string :=
  string_of_list_ascii (repeat "0"%char (Z.to_nat n)).

Definition showBig (a : Z) : string :=
  let n0 := digitCount a in
  let '(s, k, n) :=
    if roundsTo a (10 ^ n0) then (1, 1, n0 + 1)
    else let '(s, k) := shortestFrom a n0 1 17 in (s, k, n0) in
  if n <=? 21 then showZ s +:+ zeros (n - k)
  else
    match showZ s with
    | String d EmptyString => String d ("e+" +:+ showZ (n - 1))
    | String d rest => String d ("." +:+ rest +:+ "e+" +:+ showZ (n - 1))
    | EmptyString => EmptyString
    end.

(** The text of a number in a template literal. *)
Definition numberToString (x : Num) : string :=
  match x with
  | NaN => "NaN"
  | Inf false => "Infinity"
  | Inf true => "-Infinity"
  | Int z =>
      if Z.abs z <? 2 ^ 53 then showZ z
      else if z <? 0 then "-" +:+ showBig (- z)
      else showBig z
  end.

(** [Math.ceil(z / d)] for a positive divisor. *)
Definition ceilDiv (z d : Z) : Z := - ((- z) / d).

(** [s.trim()]: the white space of [isSpace] removed at both ends. *)
Definition trimStart (s : string) : string := snd (span isSpace s).

Fixpoint trimEnd (s : string) : string :=
  match s with
  | EmptyString => EmptyString
  | String c s' =>
      match trimEnd s' with
      | EmptyString => if isSpace c then EmptyString else String c EmptyString
      | t => String c t
      end
  end.

Definition trim (s : string) : string := trimEnd (trimStart s).

(** Some position of [p] starts an occurrence of [k] that lies in [p] or
    runs over its end: what has to be excluded for [k] not to be found in
    a text because of its leading part [p]. *)
Fixpoint overlaps (p k : string) : bool :=
  match p with
  | EmptyString => false
  | String _ p' => String.prefix p k || String.prefix k p || overlaps p' k
  end.


(** No code unit of [p] is a digit. *)
Fixpoint noDigits (p : string) : bool :=
  match p with
  | EmptyString => true
  | String c p' => negb (isDigit c) && noDigits p'
  end.

End Js.

(** ** Generic JavaScript errors

    An [Error] that is not one of the automation classes: what a driver,
    an HTTP client or [new Error(msg)] throws.  [code] is the numeric code
    a database driver attaches, [statusCode] and [response] what an HTTP
    client attaches. *)

Module Error.

Record Response : Type := mkResponse {
  headers : option (gmap string string)
}.

Record t : Type := mk {
  name : string;
  message : string;
  code : option Z;
  statusCode : option Z;
  response : option Response
}.

(** [new Error(msg)] *)
Definition new (msg : string) : t :=
  {| name := "Error"; message := msg; code := None; statusCode := None;
     response := None |}.

End Error.

(** ** The database: collections and the operations the models call

    Every operation takes a [Fault]: [Some e] when the driver or the
    server fails that operation with [e] before anything is written
    (connection loss, a time-out), [None] when it goes through.  The
    validators of processedCommentSchema and activityLogSchema, which
    [Model.create] runs before anything is sent, are part of [create].
    A user id is an ObjectId; it is named by a string that the model never
    inspects. *)

Module Mongo.

Definition Fault : Type := option Error.t.

(** A document of the ProcessedComment collection (processedCommentSchema).
    The date fields, [error] and the expiry of documents after 30 days
    play no part in what follows and are left out. *)
Record ProcessedCommentDoc : Type := mkDoc {
  userId : string;
  commentId : string;
  postId : string;
  username : string;
  commentText : string;
  replyText : option string;
  replyId : option string;
  status : string
}.

(** [automationSettings] of a User document (userSchema). *)
Record AutomationSettings : Type := mkSettings {
  replyTone : string;
  pollIntervalSeconds : Z;
  maxCommentsPerCheck : Z;
  selectedPosts : list string;
  isActive : bool
}.

(** A User document, reduced to its key and the automation settings. *)
Record User : Type := mkUser {
  email : string;
  automationSettings : AutomationSettings
}.

Record Db : Type := mkDb {
  processedComments : list ProcessedCommentDoc;
  users : gmap string User
}.

(** The key of the unique compound index [{ userId: 1, commentId: 1 }]. *)
Definition indexKey (d : ProcessedCommentDoc) : string * string :=
  (userId d, commentId d).

(** The unique index holds in [db]: no two documents share a key. *)
Definition uniqueIndex (db : Db) : Prop :=
  NoDup (indexKey <$> processedComments db).

(** The error the server raises on a unique-index violation. *)
Definition duplicateKeyError : Error.t :=
  {| Error.name := "MongoServerError";
     Error.message := "E11000 duplicate key error collection";
     Error.code := Some 11000;
     Error.statusCode := None;
     Error.response := None |}.

(** [Model.countDocuments({ userId, commentId })] *)
Definition countDocuments (fault : Fault) (db : Db) (u c : string)
  : Completion nat Error.t :=
  match fault with
  | Some e => Throw e
  | None =>
      Return (length (filter (λ d, indexKey d = (u, c)) (processedComments db)))
  end.

(** What the library reports for a path that fails its [required]
    validator (a string path fails it when empty) and for one that fails
    its [enum] validator. *)
Definition requiredMessage (path : string) : string :=
  path +:+ ": Path `" +:+ path +:+ "` is required.".

Definition enumMessage (path value : string) : string :=
  path +:+ ": `" +:+ value +:+ "` is not a valid enum value for path `" +:+
  path +:+ "`.".

Definition checkRequired (path value : string) : list string :=
  if Js.truthyStr value then [] else [requiredMessage path].

Definition checkEnum (path value : string) (values : list string)
  : list string :=
  if bool_decide (value ∈ values) then [] else [enumMessage path value].

Fixpoint joinComma (l : list string) : string :=
  match l with
  | [] => EmptyString
  | [x] => x
  | x :: r => x +:+ ", " +:+ joinComma r
  end.

(** The ValidationError of the library for the rejected paths of a
    document of [model]; it carries no [code]. *)
Definition validationError (model : string) (failures : list string)
  : Error.t :=
  {| Error.name := "ValidationError";
     Error.message := model +:+ " validation failed: " +:+ joinComma failures;
     Error.code := None;
     Error.statusCode := None;
     Error.response := None |}.

(** The enum of [status] in processedCommentSchema. *)
Definition statusValues : list string :=
  ["detected"; "reply_generated"; "reply_posted"; "failed"; "skipped"].

(** The paths of a ProcessedComment document that its schema rejects:
    [commentId], [postId], [username] and [commentText] are required,
    [status] is an enum. *)
Definition rejectedPaths (d : ProcessedCommentDoc) : list string :=
  checkRequired "commentId" (commentId d) ++
  checkRequired "postId" (postId d) ++
  checkRequired "username" (username d) ++
  checkRequired "commentText" (commentText d) ++
  checkEnum "status" (status d) statusValues.

(** The schema accepts the document. *)
Definition accepts (d : ProcessedCommentDoc) : bool :=
  Js.truthyStr (commentId d) && Js.truthyStr (postId d) &&
  Js.truthyStr (username d) && Js.truthyStr (commentText d) &&
  bool_decide (status d ∈ statusValues).

(** [Model.create(doc)]: a document the schema rejects throws a
    ValidationError before the server is asked; otherwise the insertion
    is rejected with [duplicateKeyError] when a document with the same
    index key is stored, and appended if not. *)
Definition create (fault : Fault) (db : Db) (d : ProcessedCommentDoc)
  : Completion unit Error.t * Db :=
  if negb (accepts d)
  then (Throw (validationError "ProcessedComment" (rejectedPaths d)), db)
  else
    match fault with
    | Some e => (Throw e, db)
    | None =>
        if bool_decide (indexKey d ∈ indexKey <$> processedComments db)
        then (Throw duplicateKeyError, db)
        else (Return tt,
              {| processedComments := processedComments db ++ [d];
                 users := users db |})
    end.

(** [User.findById(id)] : the document or [null]. *)
Definition findById (fault : Fault) (db : Db) (id : string)
  : Completion (option User) Error.t :=
  match fault with
  | Some e => Throw e
  | None => Return (users db !! id)
  end.

(** [user.save()] for the document found under [id]. *)
Definition save (fault : Fault) (db : Db) (id : string) (u : User)
  : Completion unit Error.t * Db :=
  match fault with
  | Some e => (Throw e, db)
  | None =>
      (Return tt,
       {| processedComments := processedComments db;
          users := <[id := u]> (users db) |})
  end.

(** The validators of [automationSettings] in the User schema, which
    [user.save()] runs on the paths that were assigned: the enum of
    [replyTone] and the bounds of the two numbers.  A value they reject
    makes [save] fail. *)
Definition validReplyTone (s : string) : bool :=
  bool_decide (s ∈ ["friendly"; "formal"; "professional"]).

Definition validPollIntervalSeconds (n : Z) : bool :=
  (10 <=? n) && (n <=? 3600).

Definition validMaxCommentsPerCheck (n : Z) : bool :=
  (1 <=? n) && (n <=? 50).

End Mongo.

(** ** server/models/ProcessedComment.js : the statics of the model *)

Module ProcessedComment.

(** The [commentData] argument of [markProcessed]. *)
Record CommentData : Type := mkCommentData {
  id : string;
  postId : string;
  username : string;
  text : string;
  reply : option string;
  replyId : option string;
  status : option string
}.

(** The schema accepts the document that [markProcessed] builds from
    [commentData]: the comment id, the post id, the user name and the text
    are not empty and the status, when given, is one of the enum. *)
Definition schemaAccepts (commentData : CommentData) : bool :=
  Js.truthyStr (id commentData) && Js.truthyStr (postId commentData) &&
  Js.truthyStr (username commentData) && Js.truthyStr (text commentData) &&
  bool_decide (Js.orStr (status commentData) "detected" ∈ Mongo.statusValues).

(** [isProcessed(userId, commentId)] *)
Definition isProcessed (fault : Mongo.Fault) (db : Mongo.Db)
    (userId commentId : string) : Completion bool Error.t :=
  match Mongo.countDocuments fault db userId commentId with
  | Return count => Return (bool_decide (0 < count)%nat)
  | Throw e => Throw e
  end.

(** [markProcessed(userId, commentData)]: [true] after an insertion,
    [false] when the insertion fails with code 11000, any other failure
    is thrown again. *)
Definition markProcessed (fault : Mongo.Fault) (db : Mongo.Db)
    (userId : string) (commentData : CommentData)
  : Completion bool Error.t * Mongo.Db :=
  let doc :=
    {| Mongo.userId := userId;
       Mongo.commentId := id commentData;
       Mongo.postId := postId commentData;
       Mongo.username := username commentData;
       Mongo.commentText := text commentData;
       Mongo.replyText := Js.orNull (reply commentData);
       Mongo.replyId := Js.orNull (replyId commentData);
       Mongo.status := Js.orStr (status commentData) "detected" |} in
  match Mongo.create fault db doc with
  | (Return _, db') => (Return true, db')
  | (Throw error, db') =>
      if bool_decide (Error.code error = Some 11000)
      then (Return false, db')
      else (Throw error, db')
  end.

(** One call of [markProcessed]: the fault of its insertion, the user and
    the comment. *)
Record MarkCall : Type := mkMarkCall {
  callFault : Mongo.Fault;
  callUser : string;
  callData : CommentData
}.

(** A sequence of [markProcessed] calls, whatever each of them answers. *)
Fixpoint markAll (calls : list MarkCall) (db : Mongo.Db) : Mongo.Db :=
  match calls with
  | [] => db
  | c :: rest =>
      markAll rest (markProcessed (callFault c) db (callUser c) (callData c)).2
  end.

End ProcessedComment.

(** ** server/models/ActivityLog.js : the [log] static

    The collection is a list of documents, oldest first.  [details], the
    request fields (always [null] for the callers modelled here, which pass
    no request) and the time stamp are left out. *)

Module ActivityLog.

Record Doc : Type := mkDoc {
  userId : string;
  type : string;
  action : string;
  message : option string
}.

(** The enum of [type] in activityLogSchema. *)
Definition typeValues : list string :=
  ["auth"; "config"; "automation"; "comment_detected"; "reply_generated";
   "reply_posted"; "error"; "info"; "warning"].

(** The paths of an entry that activityLogSchema rejects: [type], [action]
    and [message] are required, [type] is an enum (a path reports its
    first failing validator). *)
Definition rejectedPaths (d : Doc) : list string :=
  (if Js.truthyStr (type d)
   then Mongo.checkEnum "type" (type d) typeValues
   else [Mongo.requiredMessage "type"]) ++
  Mongo.checkRequired "action" (action d) ++
  Mongo.checkRequired "message" (default EmptyString (message d)).

(** The schema accepts the entry. *)
Definition accepts (d : Doc) : bool :=
  bool_decide (type d ∈ typeValues) && Js.truthyStr (action d) &&
  Js.truthyOptStr (message d).

(** [Model.create(logEntry)]: an entry the schema rejects throws a
    ValidationError before the server is asked; the collection has no
    unique index. *)
Definition create (fault : Mongo.Fault) (logs : list Doc) (d : Doc)
  : Completion unit Error.t * list Doc :=
  if negb (accepts d)
  then (Throw (Mongo.validationError "ActivityLog" (rejectedPaths d)), logs)
  else
    match fault with
    | Some e => (Throw e, logs)
    | None => (Return tt, logs ++ [d])
    end.

(** [log(userId, type, action, message, details)]: a failure of [create]
    is caught and only written to the console. *)
Definition log (fault : Mongo.Fault) (logs : list Doc)
    (userId type action : string) (message : option string)
  : Completion unit Error.t * list Doc :=
  match create fault logs
          {| userId := userId; type := type; action := action;
             message := message |} with
  | (Return _, logs') => (Return tt, logs')
  | (Throw _, logs') => (Return tt, logs')
  end.

End ActivityLog.

(** ** server/services/storage.service.js

    The console output of the [catch] blocks is not modelled; what they
    return or throw again is. *)

Module StorageService.

(** The instance: [this.userId], [null] until set. *)
Record t : Type := mk {
  userId : option string
}.

(** The [stats] object of a run state. *)
Record Stats : Type := mkStats {
  commentsDetected : Z;
  repliesGenerated : Z;
  repliesPosted : Z;
  errorCount : Z
}.

(** The automation state object handed to [saveAutomationState] and
    returned by [loadAutomationState]; an absent property is [None]. *)
Record AutomationState : Type := mkState {
  isActive : bool;
  lastCheckTime : option Z;
  stats : option Stats;
  processedComments : option (list string)
}.

(** The [commentData] argument of [markCommentProcessed] (default [{}]). *)
Record CommentInfo : Type := mkInfo {
  postId : option string;
  username : option string;
  text : option string;
  reply : option string;
  replyId : option string;
  status : option string
}.

(** [isCommentProcessed(commentId)] *)
Definition isCommentProcessed (fault : Mongo.Fault) (db : Mongo.Db)
    (this : t) (commentId : string) : Completion bool Error.t :=
  if negb (Js.truthyOptStr (userId this)) then Return false
  else
    match userId this with
    | None => Return false
    | Some uid =>
        match ProcessedComment.isProcessed fault db uid commentId with
        | Return b => Return b
        | Throw _ => Return false
        end
    end.

(** [markCommentProcessed(commentId, commentData)] *)
Definition markCommentProcessed (fault : Mongo.Fault) (db : Mongo.Db)
    (this : t) (commentId : string) (commentData : CommentInfo)
  : Completion unit Error.t * Mongo.Db :=
  if negb (Js.truthyOptStr (userId this)) then (Return tt, db)
  else
    match userId this with
    | None => (Return tt, db)
    | Some uid =>
        let data :=
          {| ProcessedComment.id := commentId;
             ProcessedComment.postId := Js.orStr (postId commentData) "unknown";
             ProcessedComment.username := Js.orStr (username commentData) "unknown";
             ProcessedComment.text := Js.orStr (text commentData) "";
             ProcessedComment.reply := Js.orNull (reply commentData);
             ProcessedComment.replyId := Js.orNull (replyId commentData);
             ProcessedComment.status :=
               Some (Js.orStr (status commentData) "reply_posted") |} in
        match ProcessedComment.markProcessed fault db uid data with
        | (Return _, db') => (Return tt, db')
        | (Throw error, db') => (Throw error, db')
        end
    end.

(** [saveAutomationState(state)]: only [isActive] reaches the user
    document.  [f1] is the fault of [findById], [f2] that of [save]. *)
Definition saveAutomationState (f1 f2 : Mongo.Fault) (db : Mongo.Db)
    (this : t) (state : AutomationState)
  : Completion unit Error.t * Mongo.Db :=
  if negb (Js.truthyOptStr (userId this))
  then (Throw (Error.new "No userId set for storage service"), db)
  else
    match userId this with
    | None => (Throw (Error.new "No userId set for storage service"), db)
    | Some uid =>
        match Mongo.findById f1 db uid with
        | Throw error => (Throw error, db)
        | Return None => (Throw (Error.new "User not found"), db)
        | Return (Some user) =>
            let s := Mongo.automationSettings user in
            let user' :=
              {| Mongo.email := Mongo.email user;
                 Mongo.automationSettings :=
                   {| Mongo.replyTone := Mongo.replyTone s;
                      Mongo.pollIntervalSeconds := Mongo.pollIntervalSeconds s;
                      Mongo.maxCommentsPerCheck := Mongo.maxCommentsPerCheck s;
                      Mongo.selectedPosts := Mongo.selectedPosts s;
                      Mongo.isActive := isActive state || false |} |} in
            Mongo.save f2 db uid user'
        end
    end.

(** [loadAutomationState()]: [null] without a user id, without a user
    document or on a failure; otherwise an object with [isActive],
    [lastCheckTime: null] and [processedComments: []], and no [stats]. *)
Definition loadAutomationState (fault : Mongo.Fault) (db : Mongo.Db)
    (this : t) : option AutomationState :=
  if negb (Js.truthyOptStr (userId this)) then None
  else
    match userId this with
    | None => None
    | Some uid =>
        match Mongo.findById fault db uid with
        | Throw _ => None
        | Return None => None
        | Return (Some user) =>
            Some {| isActive :=
                      Mongo.isActive (Mongo.automationSettings user) || false;
                    lastCheckTime := None;
                    stats := None;
                    processedComments := Some [] |}
        end
    end.

(** The [logData] argument of [appendLog]; an absent property is [None]. *)
Record LogData : Type := mkLogData {
  logType : option string;
  logAction : option string;
  logMessage : option string
}.

(** [appendLog(logData)] *)
Definition appendLog (fault : Mongo.Fault) (logs : list ActivityLog.Doc)
    (this : t) (logData : LogData)
  : Completion unit Error.t * list ActivityLog.Doc :=
  if negb (Js.truthyOptStr (userId this)) then (Return tt, logs)
  else
    match userId this with
    | None => (Return tt, logs)
    | Some uid =>
        match ActivityLog.log fault logs uid
                (Js.orStr (logType logData) "info")
                (Js.orStr (logAction logData) "automation")
                (logMessage logData) with
        | (Return _, logs') => (Return tt, logs')
        | (Throw error, logs') => (Throw error, logs')
        end
    end.

(** [x || d] on numbers that are integers. *)
Definition orZ (x d : Z) : Z := if x =? 0 then d else x.

(** The object [getConfig] returns; [configIsActive] is its
    [automation.isActive]. *)
Record Config : Type := mkConfig {
  configReplyTone : string;
  configPollIntervalSeconds : Z;
  configMaxCommentsPerCheck : Z;
  configIsActive : bool
}.

(** The [config] argument of [saveConfig]: its [replyTone],
    [pollIntervalSeconds] and [maxCommentsPerCheck], [None] when absent. *)
Record ConfigInput : Type := mkConfigInput {
  newReplyTone : option string;
  newPollIntervalSeconds : option Z;
  newMaxCommentsPerCheck : option Z
}.

(** ToBoolean of a possibly absent integer. *)
Definition truthyOptZ (x : option Z) : bool :=
  match x with
  | Some z => negb (z =? 0)
  | None => false
  end.

(** [getConfig()]: [null] without a user id, without a user document or on
    a failure. *)
Definition getConfig (fault : Mongo.Fault) (db : Mongo.Db) (this : t)
  : option Config :=
  if negb (Js.truthyOptStr (userId this)) then None
  else
    match userId this with
    | None => None
    | Some uid =>
        match Mongo.findById fault db uid with
        | Throw _ => None
        | Return None => None
        | Return (Some user) =>
            let s := Mongo.automationSettings user in
            Some {| configReplyTone := Js.orStr (Some (Mongo.replyTone s)) "friendly";
                    configPollIntervalSeconds := orZ (Mongo.pollIntervalSeconds s) 30;
                    configMaxCommentsPerCheck := orZ (Mongo.maxCommentsPerCheck s) 10;
                    configIsActive := Mongo.isActive s || false |}
        end
    end.

(** [saveConfig(config)]: each of the three settings is written when the
    given value is truthy.  [f1] is the fault of [findById], [f2] that of
    [save]. *)
Definition saveConfig (f1 f2 : Mongo.Fault) (db : Mongo.Db) (this : t)
    (config : ConfigInput) : Completion unit Error.t * Mongo.Db :=
  if negb (Js.truthyOptStr (userId this))
  then (Throw (Error.new "No userId set for storage service"), db)
  else
    match userId this with
    | None => (Throw (Error.new "No userId set for storage service"), db)
    | Some uid =>
        match Mongo.findById f1 db uid with
        | Throw error => (Throw error, db)
        | Return None => (Throw (Error.new "User not found"), db)
        | Return (Some user) =>
            let s := Mongo.automationSettings user in
            let user' :=
              {| Mongo.email := Mongo.email user;
                 Mongo.automationSettings :=
                   {| Mongo.replyTone :=
                        if Js.truthyOptStr (newReplyTone config)
                        then default (Mongo.replyTone s) (newReplyTone config)
                        else Mongo.replyTone s;
                      Mongo.pollIntervalSeconds :=
                        if truthyOptZ (newPollIntervalSeconds config)
                        then default (Mongo.pollIntervalSeconds s)
                                     (newPollIntervalSeconds config)
                        else Mongo.pollIntervalSeconds s;
                      Mongo.maxCommentsPerCheck :=
                        if truthyOptZ (newMaxCommentsPerCheck config)
                        then default (Mongo.maxCommentsPerCheck s)
                                     (newMaxCommentsPerCheck config)
                        else Mongo.maxCommentsPerCheck s;
                      Mongo.selectedPosts := Mongo.selectedPosts s;
                      Mongo.isActive := Mongo.isActive s |} |} in
            Mongo.save f2 db uid user'
        end
    end.

(** The values [saveConfig] assigns pass the validators of the schema. *)
Definition schemaAccepts (config : ConfigInput) : bool :=
  match newReplyTone config with
  | Some s => negb (Js.truthyStr s) || Mongo.validReplyTone s
  | None => true
  end &&
  match newPollIntervalSeconds config with
  | Some n => (n =? 0) || Mongo.validPollIntervalSeconds n
  | None => true
  end &&
  match newMaxCommentsPerCheck config with
  | Some n => (n =? 0) || Mongo.validMaxCommentsPerCheck n
  | None => true
  end.

End StorageService.

(** ** server/services/error-handler.service.js : error classes *)

Module ErrorHandlerService.

(** The classes of the hierarchy; [AutomationErrorBase] is a direct
    instance of the base class [AutomationError]. *)
Inductive ErrorClass : Type :=
  | AutomationErrorBase
  | AuthenticationError
  | RateLimitError
  | NetworkError
  | APIError
  | ValidationError.

Global Instance ErrorClass_eq_dec : EqDecision ErrorClass.
Proof. solve_decision. Defined.

(** An instance of [AutomationError] or of one of its subclasses.  The
    properties a subclass does not define are [None]. *)
Record AutomationError : Type := mkAutomationError {
  ctor : ErrorClass;                (* this.constructor *)
  message : string;
  code : string;
  recoverable : bool;
  timestamp : Z;
  retryAfter : option Js.Num;       (* RateLimitError, milliseconds *)
  statusCode : option Z;            (* APIError *)
  field : option string;            (* ValidationError *)
  details : option string           (* details.originalError *)
}.

(** [this.name = this.constructor.name] *)
Definition name (e : AutomationError) : string :=
  match ctor e with
  | AutomationErrorBase => "AutomationError"
  | AuthenticationError => "AuthenticationError"
  | RateLimitError => "RateLimitError"
  | NetworkError => "NetworkError"
  | APIError => "APIError"
  | ValidationError => "ValidationError"
  end.

(** [e instanceof C] *)
Definition instanceOf (e : AutomationError) (C : ErrorClass) : bool :=
  match C with
  | AutomationErrorBase => true
  | _ => bool_decide (ctor e = C)
  end.

(** The constructors; [now] is the clock read by [new Date()]. *)
Definition newAuthenticationError (now : Z) (msg : string)
    (det : option string) : AutomationError :=
  {| ctor := AuthenticationError; message := msg; code := "AUTH_ERROR";
     recoverable := false; timestamp := now; retryAfter := None;
     statusCode := None; field := None; details := det |}.

Definition newRateLimitError (now : Z) (msg : string)
    (after : option Js.Num) (det : option string) : AutomationError :=
  {| ctor := RateLimitError; message := msg; code := "RATE_LIMIT_ERROR";
     recoverable := true; timestamp := now; retryAfter := after;
     statusCode := None; field := None; details := det |}.

Definition newNetworkError (now : Z) (msg : string)
    (det : option string) : AutomationError :=
  {| ctor := NetworkError; message := msg; code := "NETWORK_ERROR";
     recoverable := true; timestamp := now; retryAfter := None;
     statusCode := None; field := None; details := det |}.

Definition newAPIError (now : Z) (msg : string) (status : option Z)
    (det : option string) : AutomationError :=
  {| ctor := APIError; message := msg; code := "API_ERROR";
     recoverable := true; timestamp := now; retryAfter := None;
     statusCode := status; field := None; details := det |}.

Definition newValidationError (now : Z) (msg : string)
    (fld : option string) (det : option string) : AutomationError :=
  {| ctor := ValidationError; message := msg; code := "VALIDATION_ERROR";
     recoverable := false; timestamp := now; retryAfter := None;
     statusCode := None; field := fld; details := det |}.

(** What an operation can throw: a generic error or an automation error. *)
Inductive Thrown : Type :=
  | Generic (e : Error.t)
  | Automation (e : AutomationError).

Inductive ErrorAction : Type :=
  | STOP_AUTOMATION
  | RETRY_WITH_BACKOFF
  | SKIP_AND_CONTINUE
  | WAIT_AND_RETRY
  | LOG_AND_CONTINUE.

Global Instance ErrorAction_eq_dec : EqDecision ErrorAction.
Proof. solve_decision. Defined.

(** The instance: [storageService], [maxRetries], [baseBackoffMs],
    [maxBackoffMs]. *)
Record ErrorHandler : Type := mkErrorHandler {
  storageService : option StorageService.t;
  maxRetries : Z;
  baseBackoffMs : Z;
  maxBackoffMs : Z
}.

(** [new ErrorHandler(storageService)] *)
Definition new (storage : option StorageService.t) : ErrorHandler :=
  {| storageService := storage; maxRetries := 3; baseBackoffMs := 1000;
     maxBackoffMs := 60000 |}.

(** The [context] object: the property the handler reads, and the
    operation name callers put there. *)
Record Context : Type := mkContext {
  attemptNumber : option Z;
  operation : option string
}.

(** ** extractRetryAfter *)

(** One attempt of [/(\d+)\s*(minute|second|hour)/i] at the start of [s]:
    the digits and the unit as written.  Both quantifiers are greedy and
    giving characters back cannot help: after a shorter run of digits
    comes a digit, after a shorter run of white space comes white space,
    and no unit starts with either. *)
Definition matchAt (s : string) : option (string * string) :=
  let '(digits, r1) := Js.span Js.isDigit s in
  if negb (Js.truthyStr digits) then None
  else
    let '(_, r2) := Js.span Js.isSpace r1 in
    let low := Js.toLowerCase r2 in
    if Js.startsWith low "minute" then Some (digits, String.substring 0 6 r2)
    else if Js.startsWith low "second" then Some (digits, String.substring 0 6 r2)
    else if Js.startsWith low "hour" then Some (digits, String.substring 0 4 r2)
    else None.

(** [message.match(...)]: the leftmost position where the pattern matches. *)
Fixpoint regexMatch (s : string) : option (string * string) :=
  match matchAt s with
  | Some m => Some m
  | None =>
      match s with
      | EmptyString => None
      | String _ s' => regexMatch s'
      end
  end.

(** [extractRetryAfter(error)] in milliseconds, [None] for [null]. *)
Definition extractRetryAfter (error : Error.t) : option Js.Num :=
  let fromHeader :=
    match Error.response error with
    | Some resp =>
        match Error.headers resp with
        | Some hs =>
            match hs !! "retry-after" with
            | Some retryAfter =>
                if Js.truthyStr retryAfter
                then Some (Js.mul (Js.parseInt retryAfter) 1000)
                else None
            | None => None
            end
        | None => None
        end
    | None => None
    end in
  match fromHeader with
  | Some n => Some n
  | None =>
      match regexMatch (Error.message error) with
      | Some (digits, unitText) =>
          let value := Js.parseInt digits in
          let unit := Js.toLowerCase unitText in
          if Js.startsWith unit "hour"
          then Some (Js.mul (Js.mul (Js.mul value 60) 60) 1000)
          else if Js.startsWith unit "minute"
          then Some (Js.mul (Js.mul value 60) 1000)
          else if Js.startsWith unit "second" then Some (Js.mul value 1000)
          else None
      | None => None
      end
  end.


(** ** classifyError *)

Definition isAuthMessage (m : string) : bool :=
  Js.includes m "authentication" || Js.includes m "login" ||
  Js.includes m "invalid credentials" || Js.includes m "challenge_required" ||
  Js.includes m "checkpoint_required" || Js.includes m "not authenticated".

Definition isRateLimitMessage (m : string) : bool :=
  Js.includes m "rate limit" || Js.includes m "too many requests" ||
  Js.includes m "429".

Definition isNetworkMessage (m : string) : bool :=
  Js.includes m "network" || Js.includes m "timeout" ||
  Js.includes m "econnrefused" || Js.includes m "enotfound" ||
  Js.includes m "connection" || Js.includes m "dns".

Definition isApiMessage (m : string) : bool :=
  Js.includes m "api" || Js.includes m "gemini" || Js.includes m "instagram".

Definition isValidationMessage (m : string) : bool :=
  Js.includes m "validation" || Js.includes m "invalid" ||
  Js.includes m "required" || Js.includes m "must be".

(** ToBoolean of [error.statusCode]. *)
Definition truthyStatus (s : option Z) : bool :=
  match s with
  | Some z => negb (z =? 0)
  | None => false
  end.

(** [classifyError(error)]; [now] is the clock read when a new error
    object is built. *)
Definition classifyError (now : Z) (error : Thrown) : AutomationError :=
  match error with
  | Automation e => e
  | Generic error =>
      let message := Js.toLowerCase (Error.message error) in
      let det := Some (Error.name error) in
      if isAuthMessage message then
        newAuthenticationError now (Error.message error) det
      else if isRateLimitMessage message then
        let retryAfter := Js.orNum (extractRetryAfter error) (Js.Int 60000) in
        newRateLimitError now (Error.message error) (Some retryAfter) det
      else if isNetworkMessage message then
        newNetworkError now (Error.message error) det
      else if isApiMessage message || truthyStatus (Error.statusCode error) then
        newAPIError now (Error.message error) (Error.statusCode error) det
      else if isValidationMessage message then
        newValidationError now (Error.message error) None det
      else
        newAPIError now (Error.message error) None det
  end.

(** ** determineAction *)

(** [context.attemptNumber || 1] *)
Definition attemptOf (context : Context) : Z :=
  match attemptNumber context with
  | Some n => if n =? 0 then 1 else n
  | None => 1
  end.

Definition determineAction (this : ErrorHandler) (error : AutomationError)
    (context : Context) : ErrorAction :=
  let attemptNumber := attemptOf context in
  if instanceOf error AuthenticationError then STOP_AUTOMATION
  else if instanceOf error RateLimitError then WAIT_AND_RETRY
  else if instanceOf error NetworkError then
    if attemptNumber >=? maxRetries this then SKIP_AND_CONTINUE
    else RETRY_WITH_BACKOFF
  else if instanceOf error APIError then
    if attemptNumber >=? maxRetries this then SKIP_AND_CONTINUE
    else RETRY_WITH_BACKOFF
  else if instanceOf error ValidationError then SKIP_AND_CONTINUE
  else LOG_AND_CONTINUE.

(** ** calculateBackoff *)

(** [calculateBackoff(attemptNumber)], computed in binary64 as the source
    does; [random] is the value returned by [Math.random()], a number in
    [0, 1), and [0.2] is the number nearest to 2/10. *)
Definition calculateBackoff (this : ErrorHandler) (attemptNumber : Z)
    (random : Q) : Js.Num :=
  let backoff :=
    Js.minD
      (Js.mulD (Js.toDouble (Js.Int (baseBackoffMs this)))
               (Js.powOfTwo (attemptNumber - 1)))
      (Js.toDouble (Js.Int (maxBackoffMs this))) in
  let jitter :=
    Js.mulD (Js.mulD backoff (Js.fl (2 # 10)))
            (Js.subD (Js.mulD (Js.DFin random) (Js.DFin 2)) (Js.DFin 1)) in
  Js.floorD (Js.addD backoff jitter).

(** ** Messages and log entries *)

(** [getUserFriendlyMessage(error)] *)
Definition getUserFriendlyMessage (error : AutomationError) : string :=
  if instanceOf error AuthenticationError then
    "Authentication failed. Please check your Instagram credentials and try again."
  else if instanceOf error RateLimitError then
    let minutes :=
      Js.ceilD (Js.divD (Js.toDouble (Js.orNum (retryAfter error)
                                               (Js.Int 60000))) 60000) in
    "Rate limit reached. Automation will resume in approximately " +:+
    Js.numberToString minutes +:+ " minute(s)."
  else if instanceOf error NetworkError then
    "Network connection issue. Retrying automatically..."
  else if instanceOf error APIError then
    "API error occurred. Retrying automatically..."
  else if instanceOf error ValidationError then
    "Validation error: " +:+ message error
  else "An error occurred: " +:+ message error.

(** An entry handed to [storageService.appendLog]. *)
Record LogEntry : Type := mkLogEntry {
  logType : string;
  logMessage : string;
  errorType : string;
  logRecoverable : bool;
  logAction : option ErrorAction
}.

(** What an execution does that can be observed from outside. *)
Inductive Event : Type :=
  | Invoked                      (* the wrapped operation was called *)
  | AppendLog (entry : LogEntry) (* storageService.appendLog(entry) *)
  | Slept (ms : Js.Num).         (* sleep(ms) ran to completion *)

(** The running state of an execution: how often the operation has been
    called, how many values [Math.random()] has handed out, and the
    events so far, oldest first. *)
Record World : Type := mkWorld {
  invocations : nat;
  draws : nat;
  trace : list Event
}.

Definition emit (ev : Event) (w : World) : World :=
  {| invocations := invocations w; draws := draws w;
     trace := trace w ++ [ev] |}.

(** [logError(error, context)]: a failure of [appendLog] is caught. *)
Definition logError (this : ErrorHandler) (error : AutomationError)
    (w : World) : World :=
  match storageService this with
  | Some _ =>
      emit (AppendLog {| logType := "error"; logMessage := message error;
                         errorType := name error;
                         logRecoverable := recoverable error;
                         logAction := None |}) w
  | None => w
  end.

(** [notifyFrontend(error, context)] *)
Definition notifyFrontend (this : ErrorHandler) (error : AutomationError)
    (context : Context) (w : World) : World :=
  match storageService this with
  | Some _ =>
      emit (AppendLog {| logType := "error";
                         logMessage := getUserFriendlyMessage error;
                         errorType := name error;
                         logRecoverable := recoverable error;
                         logAction := Some (determineAction this error context) |}) w
  | None => w
  end.

(** ** handleError *)

Record HandleResult : Type := mkHandleResult {
  action : ErrorAction;
  error : AutomationError;
  resultRetryAfter : Js.Num;
  shouldStop : bool
}.

(** [handleError(error, context)]; [random] is the sequence of values
    [Math.random()] returns, consulted only when the classified error
    carries no usable [retryAfter]. *)
Definition handleError (this : ErrorHandler) (now : Z) (random : nat -> Q)
    (err : Thrown) (context : Context) (w : World) : HandleResult * World :=
  let classifiedError := classifyError now err in
  let w1 := logError this classifiedError w in
  let action := determineAction this classifiedError context in
  let w2 := notifyFrontend this classifiedError context w1 in
  let '(after, w3) :=
    match retryAfter classifiedError with
    | Some n =>
        if Js.truthyNum n then (n, w2)
        else (calculateBackoff this (attemptOf context) (random (draws w2)),
              {| invocations := invocations w2; draws := S (draws w2);
                 trace := trace w2 |})
    | None =>
        (calculateBackoff this (attemptOf context) (random (draws w2)),
         {| invocations := invocations w2; draws := S (draws w2);
            trace := trace w2 |})
    end in
  ({| action := action; error := classifiedError; resultRetryAfter := after;
      shouldStop := bool_decide (action = STOP_AUTOMATION) |}, w3).

(** ** executeWithRetry *)

Section ExecuteWithRetry.

(** The type of what the wrapped operation returns. *)
Variable Value : Type.

(** What the execution reads from outside: the outcome of the k-th call
    of the operation, the k-th value of [Math.random()], and the clock
    at the time the k-th failure is handled (k from 0). *)
Record Env : Type := mkEnv {
  fn : nat -> Completion Value Thrown;
  random : nat -> Q;
  clock : nat -> Z
}.

(** The [for] loop.  It runs for attempt = 1, ..., maxAttempts, so
    [iters] starts as the number of iterations left, max(0, maxAttempts).
    The thrown value is [None] for [undefined], which is what
    [lastError] holds when the loop body never ran. *)
Fixpoint retryLoop (this : ErrorHandler) (env : Env) (context : Context)
    (maxAttempts : Z) (iters : nat) (attempt : Z)
    (lastError : option Thrown) (w : World)
  : Completion Value (option Thrown) * World :=
  match iters with
  | O => (Throw lastError, w)
  | S iters' =>
      let k := invocations w in
      let w0 := emit Invoked
                  {| invocations := S k; draws := draws w; trace := trace w |} in
      match fn env k with
      | Return v => (Return v, w0)
      | Throw err =>
          let errorContext :=
            {| attemptNumber := Some attempt;
               operation := operation context |} in
          let '(result, w1) :=
            handleError this (clock env k) (random env) err errorContext w0 in
          if shouldStop result then (Throw (Some err), w1)
          else if attempt >=? maxAttempts then (Throw (Some err), w1)
          else
            let w2 :=
              if bool_decide (action result = RETRY_WITH_BACKOFF) ||
                 bool_decide (action result = WAIT_AND_RETRY)
              then emit (Slept (resultRetryAfter result)) w1
              else w1 in
            retryLoop this env context maxAttempts iters' (attempt + 1)
                      (Some err) w2
      end
  end.

Definition initialWorld : World :=
  {| invocations := 0; draws := 0; trace := [] |}.

(** [executeWithRetry(fn, context, maxAttempts)]; [maxAttempts] is
    [None] when the argument is left out and defaults to [maxRetries]. *)
Definition executeWithRetry (this : ErrorHandler) (env : Env)
    (context : Context) (maxAttempts : option Z)
  : Completion Value (option Thrown) * World :=
  let maxAttempts := default (maxRetries this) maxAttempts in
  retryLoop this env context maxAttempts (Z.to_nat maxAttempts) 1 None
            initialWorld.

End ExecuteWithRetry.

Arguments fn {Value} _ _.
Arguments random {Value} _ _.
Arguments clock {Value} _ _.
Arguments mkEnv {Value} _ _ _.
Arguments retryLoop {Value} _ _ _ _ _ _ _ _.
Arguments executeWithRetry {Value} _ _ _ _.

(** The observations the properties talk about. *)
Definition sleeps (t : list Event) : list Js.Num :=
  omap (λ ev, match ev with Slept ms => Some ms | _ => None end) t.

Definition invokeCount (t : list Event) : nat :=
  length (omap (λ ev, match ev with Invoked => Some tt | _ => None end) t).

(** The [i]-th call of the operation fails, and not with an error that is
    classified as an authentication error. *)
Definition failsWithoutStop {Value : Type} (env : Env Value) (i : nat) : Prop :=
  ∃ err, fn env i = Throw err ∧
         ctor (classifyError (clock env i) err) ≠ AuthenticationError.

(** The [i]-th call fails with an error classified as a network or API
    error that carries no [retryAfter] of its own. *)
Definition failsTransiently {Value : Type} (env : Env Value) (i : nat) : Prop :=
  ∃ err, fn env i = Throw err ∧
         (ctor (classifyError (clock env i) err) = NetworkError ∨
          ctor (classifyError (clock env i) err) = APIError) ∧
         retryAfter (classifyError (clock env i) err) = None.

End ErrorHandlerService.

(** ** The request budget of InstagramService
    (constructor and [_checkRateLimit]) *)

Module InstagramService.

Record t : Type := mk {
  isAuthenticated : bool;
  requestCount : Z;
  requestWindowStart : Z;
  maxRequestsPerHour : Z;
  requestWindow : Z
}.

(** [new InstagramService()]; [now] is [Date.now()]. *)
Definition new (now : Z) : t :=
  {| isAuthenticated := false;
     requestCount := 0;
     requestWindowStart := now;
     maxRequestsPerHour := 200;
     requestWindow := 60 * 60 * 1000 |}.

(** [_checkRateLimit()]; [now] is [Date.now()].  Returns [true] and counts
    the request, or throws and leaves the counter as it is. *)
Definition _checkRateLimit (now : Z) (this : t)
  : Completion bool Error.t * t :=
  let this1 :=
    if now - requestWindowStart this >? requestWindow this
    then {| isAuthenticated := isAuthenticated this;
            requestCount := 0;
            requestWindowStart := now;
            maxRequestsPerHour := maxRequestsPerHour this;
            requestWindow := requestWindow this |}
    else this in
  if requestCount this1 >=? maxRequestsPerHour this1 then
    let timeUntilReset :=
      requestWindow this1 - (now - requestWindowStart this1) in
    let minutesUntilReset := Js.ceilDiv timeUntilReset 60000 in
    (Throw (Error.new ("Instagram rate limit reached. Please wait " +:+
                       Js.showZ minutesUntilReset +:+ " minutes.")),
     this1)
  else
    (Return true,
     {| isAuthenticated := isAuthenticated this1;
        requestCount := requestCount this1 + 1;
        requestWindowStart := requestWindowStart this1;
        maxRequestsPerHour := maxRequestsPerHour this1;
        requestWindow := requestWindow this1 |}).

(** The budget is respected in state [s]. *)
Definition withinBudget (s : t) : Prop :=
  requestCount s ≤ maxRequestsPerHour s.

(** A sequence of calls, one at each of the given clock readings; the
    results are listed in call order. *)
Fixpoint calls (times : list Z) (this : t)
  : list (Completion bool Error.t) * t :=
  match times with
  | [] => ([], this)
  | now :: rest =>
      let '(r, this1) := _checkRateLimit now this in
      let '(rs, this2) := calls rest this1 in
      (r :: rs, this2)
  end.

(** Whether a call was let through. *)
Definition accepted (r : Completion bool Error.t) : bool :=
  match r with
  | Return b => b
  | Throw _ => false
  end.

(** Calls that all fall inside the current window: none of them resets it. *)
Definition insideWindow (s : t) (times : list Z) : Prop :=
  Forall (λ now, now - requestWindowStart s ≤ requestWindow s) times.

(** [_ensureAuthenticated()] *)
Definition _ensureAuthenticated (this : t) : Completion unit Error.t :=
  if negb (isAuthenticated this)
  then Throw (Error.new
                "Not authenticated with Instagram. Please authenticate first.")
  else Return tt.

(** The identity the service keeps beside its budget: [this.username] and
    [this.userId], [null] until a login succeeds. *)
Record Account : Type := mkAccount {
  username : option string;
  userId : option Z
}.

Definition withAuthenticated (b : bool) (this : t) : t :=
  {| isAuthenticated := b;
     requestCount := requestCount this;
     requestWindowStart := requestWindowStart this;
     maxRequestsPerHour := maxRequestsPerHour this;
     requestWindow := requestWindow this |}.

(** The error [authenticate] throws in place of a login failure with
    message [m]. *)
Definition loginFailure (m : string) : Error.t :=
  if Js.includes m "challenge_required" then
    Error.new "Instagram requires additional verification (2FA or challenge). Please verify your account manually first."
  else if Js.includes m "invalid_user" || Js.includes m "invalid_password" then
    Error.new "Invalid Instagram username or password."
  else if Js.includes m "checkpoint_required" then
    Error.new "Instagram checkpoint required. Please log in via the app or website first."
  else if Js.includes m "rate_limit" then
    Error.new "Instagram rate limit exceeded. Please try again later."
  else
    Error.new ("Instagram authentication failed: " +:+ m).

(** [authenticate(username, password)].  [saved] is the outcome of
    [loadSession]: the account key of a saved session of this user that is
    still valid, or [None] (no file, another user, a rejected session);
    [login] is the outcome of [generateDevice] followed by
    [client.account.login].  A failure of [saveSession] is caught there
    and changes nothing. *)
Definition authenticate (saved : option Z) (login : Completion Z Error.t)
    (this : t) (acct : Account) (user : string)
  : Completion bool Error.t * (t * Account) :=
  match saved with
  | Some pk =>
      (Return true,
       (withAuthenticated true this,
        {| username := Some user; userId := Some pk |}))
  | None =>
      match login with
      | Return pk =>
          (Return true,
           (withAuthenticated true this,
            {| username := Some user; userId := Some pk |}))
      | Throw error =>
          (Throw (loginFailure (Error.message error)),
           (withAuthenticated false this,
            {| username := None; userId := None |}))
      end
  end.

(** [logout()]: whatever the client answers, the service ends up logged
    out with its request counter at zero; the window start stays. *)
Definition logout (this : t) (acct : Account) : t * Account :=
  ({| isAuthenticated := false;
      requestCount := 0;
      requestWindowStart := requestWindowStart this;
      maxRequestsPerHour := maxRequestsPerHour this;
      requestWindow := requestWindow this |},
   {| username := None; userId := None |}).

(** The error [replyToComment] throws in place of a failure with message
    [m] of its [try] block. *)
Definition replyFailure (m : string) : Error.t :=
  if Js.includes m "feedback_required" then
    Error.new "Instagram has temporarily blocked commenting. This usually resolves within 24 hours."
  else if Js.includes m "spam" then
    Error.new "Comment flagged as spam by Instagram. Try different text."
  else
    Error.new ("Failed to post reply: " +:+ m).

(** [replyToComment(mediaId, commentId, text)].  [post] is
    [client.media.comment] as a function of the text it is given; the
    third component of the result is that text when the client was
    called. *)
Definition replyToComment (now : Z) (post : string -> Completion unit Error.t)
    (this : t) (mediaId commentId text : string)
  : Completion bool Error.t * t * option string :=
  match _ensureAuthenticated this with
  | Throw e => (Throw e, this, None)
  | Return _ =>
      match _checkRateLimit now this with
      | (Throw e, this1) => (Throw e, this1, None)
      | (Return _, this1) =>
          let '(outcome, sent) :=
            if negb (Js.truthyStr text) ||
               (String.length (Js.trim text) =? 0)%nat
            then (Throw (Error.new "Reply text cannot be empty"), None)
            else if (2200 <? String.length text)%nat
            then (Throw (Error.new
                           "Reply text exceeds Instagram character limit (2200)"),
                  None)
            else (post (Js.trim text), Some (Js.trim text)) in
          match outcome with
          | Return _ => (Return true, this1, sent)
          | Throw error => (Throw (replyFailure (Error.message error)), this1, sent)
          end
      end
  end.

End InstagramService.


(** * Properties *)

(** ** Binary64 arithmetic *)

Section Doubles.

Import Js.

Local Open Scope Q_scope.

Lemma pow2_Qpower e : pow2 e == 2 ^ e.
Proof.
  unfold pow2. destruct (0 <=? e)%Z eqn:E.
  - apply Z.leb_le in E. apply (Zpower_Qpower 2 e E).
  - apply Z.leb_gt in E. destruct e as [|p|p]; try lia.
    change (Z.neg p) with (- Z.pos p)%Z. rewrite Z.opp_involutive.
    rewrite Qpower_opp.
    rewrite <- (Zpower_Qpower 2 (Z.pos p)) by lia.
    assert (H : (0 < 2 ^ Z.pos p)%Z) by (apply Z.pow_pos_nonneg; lia).
    destruct (2 ^ Z.pos p)%Z as [|n|n] eqn:Hp; try lia.
    reflexivity.
Qed.

Lemma pow2_pos e : 0 < pow2 e.
Proof. rewrite pow2_Qpower. apply Qpower_0_lt. reflexivity. Qed.

Lemma pow2_add a b : pow2 a * pow2 b == pow2 (a + b).
Proof. rewrite !pow2_Qpower. symmetry. apply Qpower_plus. discriminate. Qed.

Lemma pow2_nonneg e : (0 ≤ e)%Z → pow2 e = inject_Z (2 ^ e).
Proof. intros H. unfold pow2. apply Z.leb_le in H. by rewrite H. Qed.

Lemma pow2_le a b : (a ≤ b)%Z → pow2 a <= pow2 b.
Proof.
  intros H. replace b with (a + (b - a))%Z by lia.
  rewrite <- pow2_add. rewrite <- (Qmult_1_r (pow2 a)) at 1.
  apply Qmult_le_l; [apply pow2_pos|].
  rewrite pow2_nonneg by lia.
  assert (1 ≤ 2 ^ (b - a))%Z by (apply (Z.pow_le_mono_r 2 0); lia).
  change 1 with (inject_Z 1). by rewrite <- Zle_Qle.
Qed.

Lemma ilog2_le q : ¬ q == 0 → pow2 (ilog2 q) <= Qabs q.
Proof.
  intros Hq. unfold ilog2.
  set (a := Z.log2 (Z.abs (Qnum q))). set (b := Z.log2 (Z.pos (Qden q))).
  destruct (Qle_bool (pow2 (a - b)) (Qabs q)) eqn:E;
    [by apply Qle_bool_iff in E|].
  assert (Hn : (0 < Z.abs (Qnum q))%Z).
  { destruct q as [[|n|n] d]; simpl; try lia. destruct Hq. reflexivity. }
  assert (Ha : (2 ^ a ≤ Z.abs (Qnum q))%Z) by (apply Z.log2_spec; lia).
  assert (Hb : (Z.pos (Qden q) < 2 ^ (b + 1))%Z).
  { replace (b + 1)%Z with (Z.succ b) by lia. apply Z.log2_spec. lia. }
  assert (H0a : (0 ≤ a)%Z) by apply Z.log2_nonneg.
  assert (H0b : (0 ≤ b)%Z) by apply Z.log2_nonneg.
  assert (Hx : pow2 (a - b - 1) * inject_Z (2 ^ (b + 1)) == inject_Z (2 ^ a)).
  { rewrite <- !pow2_nonneg by lia. rewrite pow2_add.
    replace (a - b - 1 + (b + 1))%Z with a by lia. reflexivity. }
  assert (Hp : 0 < inject_Z (2 ^ (b + 1))).
  { rewrite <- pow2_nonneg by lia. apply pow2_pos. }
  apply (Qmult_le_r _ _ _ Hp). rewrite Hx.
  apply Qle_trans with (Qabs q * inject_Z (Z.pos (Qden q))).
  - assert (Hq' : Qabs q * inject_Z (Z.pos (Qden q)) == inject_Z (Z.abs (Qnum q))).
    { destruct q as [n d]. unfold Qabs, Qeq. simpl. lia. }
    rewrite Hq'. by rewrite <- Zle_Qle.
  - rewrite !(Qmult_comm (Qabs q)).
    apply Qmult_le_compat_r; [rewrite <- Zle_Qle; lia|apply Qabs_nonneg].
Qed.

Lemma roundHalfEven_ge (c : Z) q : inject_Z c <= q → (c ≤ roundHalfEven q)%Z.
Proof.
  intros H. apply Qfloor_resp_le in H. rewrite Qfloor_Z in H.
  unfold roundHalfEven. destruct (_ ?= _); try destruct (Z.even _); lia.
Qed.

Lemma roundHalfEven_le (c : Z) q : q <= inject_Z c → (roundHalfEven q ≤ c)%Z.
Proof.
  intros H. pose proof (Qfloor_resp_le _ _ H) as Hf. rewrite Qfloor_Z in Hf.
  unfold roundHalfEven.
  destruct (decide (Qfloor q = c)) as [Heq|Hne].
  - assert (Hlt : (q - inject_Z (Qfloor q) ?= 1 # 2) = Lt).
    { apply Qlt_alt. rewrite Heq.
      apply Qle_lt_trans with (inject_Z c + - inject_Z c);
        [by apply Qplus_le_l|]. by rewrite Qplus_opp_r. }
    rewrite Hlt. lia.
  - destruct (_ ?= _); try destruct (Z.even _); lia.
Qed.

(** A rounded value stays on the same side of every integer below [2^53]
    as the real it rounds. *)
Lemma fl_bounds (lo hi : Z) q :
  (- 2 ^ 53 < lo)%Z → (hi < 2 ^ 53)%Z →
  inject_Z lo <= q → q <= inject_Z hi →
  ∃ q', fl q = DFin q' ∧ inject_Z lo <= q' ∧ q' <= inject_Z hi.
Proof.
  intros Hlo Hhi Hl Hh. unfold fl.
  destruct (Qeq_bool q 0) eqn:E0.
  { apply Qeq_bool_iff in E0. exists 0. rewrite E0 in Hl, Hh. done. }
  assert (Hq : ¬ q == 0).
  { intros H. apply Qeq_bool_iff in H. congruence. }
  pose proof (ilog2_le q Hq) as Hi.
  assert (Habs : Qabs q < inject_Z (2 ^ 53)).
  { apply Qabs_case; intros _.
    - apply Qle_lt_trans with (inject_Z hi); [done|]. by rewrite <- Zlt_Qlt.
    - apply Qle_lt_trans with (inject_Z (- lo)).
      + rewrite inject_Z_opp. lra.
      + rewrite <- Zlt_Qlt. lia. }
  assert (He : (ilog2 q < 53)%Z).
  { destruct (Z.lt_ge_cases (ilog2 q) 53) as [|Hge]; [done|].
    pose proof (pow2_le 53 (ilog2 q) Hge) as Hp.
    rewrite (pow2_nonneg 53) in Hp by lia. lra. }
  set (e := Z.max (ilog2 q) (-1022)).
  assert (Hk : (0 ≤ 52 - e)%Z) by (unfold e; lia).
  set (m := roundHalfEven (q * pow2 (52 - e))).
  assert (Hpp : 0 < pow2 (52 - e)) by apply pow2_pos.
  assert (Hm1 : (lo * 2 ^ (52 - e) ≤ m)%Z).
  { apply roundHalfEven_ge. rewrite inject_Z_mult, <- pow2_nonneg by lia.
    apply Qmult_le_r; done. }
  assert (Hm2 : (m ≤ hi * 2 ^ (52 - e))%Z).
  { apply roundHalfEven_le. rewrite inject_Z_mult, <- pow2_nonneg by lia.
    apply Qmult_le_r; done. }
  set (v := inject_Z m * pow2 (e - 52)).
  assert (Hinv : pow2 (52 - e) * pow2 (e - 52) == 1).
  { rewrite pow2_add. replace (52 - e + (e - 52))%Z with 0%Z by lia.
    reflexivity. }
  assert (Hpe : 0 < pow2 (e - 52)) by apply pow2_pos.
  assert (Hv1 : inject_Z lo <= v).
  { unfold v. rewrite Zle_Qle in Hm1.
    rewrite inject_Z_mult, <- pow2_nonneg in Hm1 by lia.
    apply (Qmult_le_r _ _ _ Hpe) in Hm1.
    rewrite <- Qmult_assoc, Hinv, Qmult_1_r in Hm1. done. }
  assert (Hv2 : v <= inject_Z hi).
  { unfold v. rewrite Zle_Qle in Hm2.
    rewrite inject_Z_mult, <- pow2_nonneg in Hm2 by lia.
    apply (Qmult_le_r _ _ _ Hpe) in Hm2.
    rewrite <- Qmult_assoc, Hinv, Qmult_1_r in Hm2. done. }
  assert (Hov : Qle_bool (pow2 1024) (Qabs v) = false).
  { destruct (Qle_bool (pow2 1024) (Qabs v)) eqn:E; [|done].
    apply Qle_bool_iff in E.
    assert (Qabs v < inject_Z (2 ^ 53)).
    { apply Qabs_case; intros _.
      - apply Qle_lt_trans with (inject_Z hi); [done|]. by rewrite <- Zlt_Qlt.
      - apply Qle_lt_trans with (inject_Z (- lo)).
        + rewrite inject_Z_opp. lra.
        + rewrite <- Zlt_Qlt. lia. }
    pose proof (pow2_le 53 1024 ltac:(lia)) as Hp.
    rewrite (pow2_nonneg 53) in Hp by lia. lra. }
  rewrite Hov. exists (Qred v). split; [done|]. by rewrite Qred_correct.
Qed.

Lemma roundHalfEven_error q :
  inject_Z (roundHalfEven q) - q <= 1 # 2 ∧
  q - inject_Z (roundHalfEven q) <= 1 # 2.
Proof.
  pose proof (Qfloor_le q) as Hlo. pose proof (Qlt_floor q) as Hhi.
  rewrite inject_Z_plus in Hhi. change (inject_Z 1) with 1 in Hhi.
  unfold roundHalfEven.
  destruct (q - inject_Z (Qfloor q) ?= 1 # 2) eqn:E.
  - apply Qeq_alt in E.
    destruct (Z.even (Qfloor q));
      rewrite ?inject_Z_plus; change (inject_Z 1) with 1; split; lra.
  - apply Qlt_alt in E. split; lra.
  - apply Qgt_alt in E. rewrite inject_Z_plus. change (inject_Z 1) with 1.
    split; lra.
Qed.

(** The error of a rounding below [2^53]: half the spacing at most. *)
Lemma fl_error (E : Z) q :
  (-1022 ≤ E ≤ 52)%Z → Qabs q < pow2 (E + 1) →
  ∃ q', fl q = DFin q' ∧
        q' - q <= pow2 (E - 53) ∧ q - q' <= pow2 (E - 53).
Proof.
  intros HE Hq. unfold fl.
  pose proof (pow2_pos (E - 53)) as Hsmall.
  destruct (Qeq_bool q 0) eqn:E0.
  { apply Qeq_bool_iff in E0. exists 0. rewrite E0. split; [done|].
    split; lra. }
  assert (Hq0 : ¬ q == 0).
  { intros H. apply Qeq_bool_iff in H. congruence. }
  pose proof (ilog2_le q Hq0) as Hi.
  assert (He : (ilog2 q ≤ E)%Z).
  { destruct (Z.le_gt_cases (ilog2 q) E) as [|Hgt]; [done|].
    pose proof (pow2_le (E + 1) (ilog2 q) ltac:(lia)). lra. }
  set (e := Z.max (ilog2 q) (-1022)).
  assert (HeE : (e ≤ E)%Z) by (unfold e; lia).
  set (t := q * pow2 (52 - e)).
  destruct (roundHalfEven_error t) as [R1 R2].
  set (m := roundHalfEven t) in *.
  set (v := inject_Z m * pow2 (e - 52)).
  assert (Hinv : pow2 (52 - e) * pow2 (e - 52) == 1).
  { rewrite pow2_add. replace (52 - e + (e - 52))%Z with 0%Z by lia.
    reflexivity. }
  assert (Hpe : 0 < pow2 (e - 52)) by apply pow2_pos.
  assert (Hhalf : (1 # 2) * pow2 (e - 52) == pow2 (e - 53)).
  { change (1 # 2) with (pow2 (-1)). rewrite pow2_add.
    replace (-1 + (e - 52))%Z with (e - 53)%Z by lia. reflexivity. }
  assert (Hle : pow2 (e - 53) <= pow2 (E - 53)) by (apply pow2_le; lia).
  assert (Hqv : q == t * pow2 (e - 52)).
  { unfold t. rewrite <- Qmult_assoc, Hinv. ring. }
  assert (Hv1 : v - q <= pow2 (E - 53)).
  { apply Qle_trans with (pow2 (e - 53)); [|done]. rewrite <- Hhalf.
    unfold v. rewrite Hqv at 1.
    assert (inject_Z m * pow2 (e - 52) - t * pow2 (e - 52)
            == (inject_Z m - t) * pow2 (e - 52)) as -> by ring.
    by apply Qmult_le_r. }
  assert (Hv2 : q - v <= pow2 (E - 53)).
  { apply Qle_trans with (pow2 (e - 53)); [|done]. rewrite <- Hhalf.
    unfold v. rewrite Hqv at 1.
    assert (t * pow2 (e - 52) - inject_Z m * pow2 (e - 52)
            == (t - inject_Z m) * pow2 (e - 52)) as -> by ring.
    by apply Qmult_le_r. }
  assert (Hov : Qle_bool (pow2 1024) (Qabs v) = false).
  { destruct (Qle_bool (pow2 1024) (Qabs v)) eqn:Eo; [|done].
    apply Qle_bool_iff in Eo.
    assert (Hp1 : pow2 (E + 1) <= pow2 53) by (apply pow2_le; lia).
    assert (Hp2 : pow2 (E - 53) <= pow2 0) by (apply pow2_le; lia).
    assert (Hp3 : pow2 53 + pow2 0 < pow2 1024) by reflexivity.
    clearbody v t m e.
    assert (Hav : Qabs v <= Qabs q + pow2 (E - 53)).
    { do 2 (apply Qabs_case; intros ?); lra. }
    lra. }
  rewrite Hov. exists (Qred v). split; [done|]. rewrite Qred_correct. done.
Qed.

(** Rounding does not go below a non-negative integer that the real is at
    least, however large the real. *)
Lemma fl_ge (lo : Z) q :
  (0 ≤ lo < 2 ^ 53)%Z → inject_Z lo <= q →
  leD (DFin (inject_Z lo)) (fl q) = true.
Proof.
  intros Hlo Hl. unfold fl.
  assert (H0 : 0 <= q).
  { apply Qle_trans with (inject_Z lo); [|done].
    change 0 with (inject_Z 0). rewrite <- Zle_Qle. lia. }
  destruct (Qeq_bool q 0) eqn:E0.
  { apply Qeq_bool_iff in E0. rewrite E0 in Hl. simpl.
    by apply Qle_bool_iff. }
  assert (Hq : ¬ q == 0).
  { intros H. apply Qeq_bool_iff in H. congruence. }
  assert (Hsign : (Qnum q <? 0)%Z = false).
  { apply Z.ltb_ge. destruct q as [n d]. unfold Qle in H0. simpl in *. lia. }
  rewrite Hsign.
  pose proof (ilog2_le q Hq) as Hi. rewrite (Qabs_pos q H0) in Hi.
  set (e := Z.max (ilog2 q) (-1022)).
  set (m := roundHalfEven (q * pow2 (52 - e))).
  set (v := inject_Z m * pow2 (e - 52)).
  assert (Hpp : 0 < pow2 (52 - e)) by apply pow2_pos.
  assert (Hpe : 0 < pow2 (e - 52)) by apply pow2_pos.
  assert (Hinv : pow2 (52 - e) * pow2 (e - 52) == 1).
  { rewrite pow2_add. replace (52 - e + (e - 52))%Z with 0%Z by lia.
    reflexivity. }
  assert (Hv : inject_Z lo <= v).
  { destruct (Z.le_gt_cases e 52) as [He|He].
    - assert (Hm : (lo * 2 ^ (52 - e) ≤ m)%Z).
      { apply roundHalfEven_ge. rewrite inject_Z_mult, <- pow2_nonneg by lia.
        apply Qmult_le_r; done. }
      unfold v. rewrite Zle_Qle in Hm.
      rewrite inject_Z_mult, <- pow2_nonneg in Hm by lia.
      apply (Qmult_le_r _ _ _ Hpe) in Hm.
      rewrite <- Qmult_assoc, Hinv, Qmult_1_r in Hm. done.
    - assert (Hie : e = ilog2 q) by (unfold e in *; lia).
      assert (Hm : (2 ^ 52 ≤ m)%Z).
      { apply roundHalfEven_ge. rewrite <- (pow2_nonneg 52) by lia.
        replace 52%Z with (e + (52 - e))%Z at 1 by lia.
        rewrite <- pow2_add. apply Qmult_le_r; [done|]. by rewrite Hie. }
      unfold v. apply Qle_trans with (pow2 e).
      + apply Qle_trans with (pow2 53); [|apply pow2_le; lia].
        rewrite pow2_nonneg by lia. rewrite <- Zle_Qle. lia.
      + replace e with (52 + (e - 52))%Z at 1 by lia.
        rewrite <- pow2_add. rewrite (pow2_nonneg 52) by lia.
        apply Qmult_le_r; [done|]. by rewrite <- Zle_Qle. }
  destruct (Qle_bool (pow2 1024) (Qabs v)); [done|]. simpl.
  apply Qle_bool_iff. by rewrite Qred_correct.
Qed.

(** A real that is an integer below [2^53] in magnitude is a number. *)
Lemma fl_integer (n : Z) q :
  (Z.abs n < 2 ^ 53)%Z → q == inject_Z n →
  ∃ q', fl q = DFin q' ∧ q' == inject_Z n.
Proof.
  intros Hn Hq.
  destruct (fl_bounds n n q) as (q' & Hfl & H1 & H2);
    [lia|lia|rewrite Hq; apply Qle_refl|rewrite Hq; apply Qle_refl|].
  exists q'. split; [done|]. by apply Qle_antisym.
Qed.

Lemma roundZ_small (z : Z) : (Z.abs z < 2 ^ 53)%Z → roundZ z = Int z.
Proof.
  intros Hz. unfold roundZ.
  destruct (fl_integer z (inject_Z z) Hz) as (q' & -> & Hq'); [reflexivity|].
  simpl. f_equal. rewrite Hq'. apply Qfloor_Z.
Qed.

Lemma mul_small (z b : Z) :
  (Z.abs (z * b) < 2 ^ 53)%Z → mul (Int z) b = Int (z * b).
Proof.
  intros Hz. unfold mul. simpl.
  destruct (fl_integer (z * b) (inject_Z z * inject_Z b) Hz)
    as (q' & -> & Hq'); [by rewrite inject_Z_mult|].
  simpl. f_equal. rewrite Hq'. apply Qfloor_Z.
Qed.

(** Rounding and multiplying by a positive constant keep a number above
    zero, whether it stays finite or not. *)
Lemma floorD_fl_positive q :
  1 <= q → positiveNum (floorD (fl q)).
Proof.
  intros Hq. pose proof (fl_ge 1 q ltac:(lia) Hq) as Hge.
  destruct (fl q) as [|[|]|y]; simpl in *; try done.
  apply Qle_bool_iff in Hge. apply Qfloor_resp_le in Hge.
  by rewrite Qfloor_Z in Hge.
Qed.

Lemma roundZ_positive z : (1 ≤ z)%Z → positiveNum (roundZ z).
Proof.
  intros Hz. apply floorD_fl_positive. change 1 with (inject_Z 1).
  by rewrite <- Zle_Qle.
Qed.

Lemma mul_positive x b : positiveNum x → (1 ≤ b)%Z → positiveNum (mul x b).
Proof.
  intros Hx Hb. unfold mul. destruct x as [|z|[|]]; simpl in Hx; try done.
  - simpl. apply floorD_fl_positive. rewrite <- inject_Z_mult.
    change 1 with (inject_Z 1). rewrite <- Zle_Qle.
    assert (1 * 1 ≤ z * b)%Z by (apply Z.mul_le_mono_nonneg; lia). lia.
  - simpl.
    assert (Qeq_bool (inject_Z b) 0 = false) as ->.
    { destruct (Qeq_bool (inject_Z b) 0) eqn:E; [|done].
      apply Qeq_bool_iff in E. unfold Qeq in E. simpl in E. lia. }
    unfold negativeQ. cbn [Qnum inject_Z].
    assert ((b <? 0)%Z = false) as -> by (apply Z.ltb_ge; lia). done.
Qed.

Lemma positive_truthy x : positiveNum x → truthyNum x = true.
Proof.
  destruct x as [|z|[|]]; simpl; try done. intros H.
  destruct (z =? 0)%Z eqn:E; [lia|done].
Qed.

(** The minutes of a wait that is a whole number of them. *)
Lemma ceil_minutes (m : Z) :
  (Z.abs (m * 60000) < 2 ^ 53)%Z →
  ceilD (divD (toDouble (Int (m * 60000))) 60000) = Int m.
Proof.
  intros Hm. simpl.
  destruct (fl_integer m (inject_Z (m * 60000) / 60000)) as (q' & -> & Hq').
  - lia.
  - rewrite inject_Z_mult. change (inject_Z 60000) with 60000. field.
  - simpl. f_equal. rewrite (Qceiling_comp _ _ Hq'). apply Qceiling_Z.
Qed.

End Doubles.

(** ** Texts with a symbolic part: keyword search and decimal numbers *)

Section Text.

Import Decimal.

Implicit Types (p k x s : string) (d : uint).

Lemma prefix_empty s : String.prefix EmptyString s = true.
Proof. by destruct s. Qed.

Lemma append_cons a s x : String a s +:+ x = String a (s +:+ x).
Proof. reflexivity. Qed.

Lemma includes_cons a s k :
  Js.includes (String a s) k = String.prefix k (String a s) || Js.includes s k.
Proof. reflexivity. Qed.

Lemma prefix_app_inv k p x :
  String.prefix k (p +:+ x) = true →
  String.prefix k p = true ∨ String.prefix p k = true.
Proof.
  revert k. induction p as [|b p IH]; intros k.
  - intros _. right. apply prefix_empty.
  - destruct k as [|a k]; [intros _; by left|]. simpl.
    destruct (ascii_dec a b) as [->|Hne].
    + destruct (ascii_dec b b); [|done]. apply IH.
    + discriminate.
Qed.

Lemma prefix_app_l k p x :
  String.prefix k p = true → String.prefix k (p +:+ x) = true.
Proof.
  revert k. induction p as [|b p IH]; intros k.
  - destruct k; [intros _; apply prefix_empty|discriminate].
  - destruct k as [|a k]; [done|]. simpl.
    destruct (ascii_dec a b); [apply IH|done].
Qed.

(** A keyword that neither occurs in the leading part of a text nor runs
    over its end is found in the text exactly when it is found in the
    rest. *)
Lemma includes_skip p x k :
  Js.overlaps p k = false → Js.includes (p +:+ x) k = Js.includes x k.
Proof.
  induction p as [|c p IH]; [done|]. cbn [Js.overlaps].
  intros H. apply orb_false_elim in H as [H Hp].
  apply orb_false_elim in H as [H1 H2].
  change (Js.includes (String c p +:+ x) k)
    with (String.prefix k (String c p +:+ x) || Js.includes (p +:+ x) k).
  rewrite (IH Hp).
  destruct (String.prefix k (String c p +:+ x)) eqn:E; [|done].
  apply prefix_app_inv in E as [E|E]; [by rewrite E in H2|by rewrite E in H1].
Qed.

(** A keyword found in the leading part of a text is found in the text. *)
Lemma includes_app_l p x k :
  Js.includes p k = true → Js.includes (p +:+ x) k = true.
Proof.
  induction p as [|c p IH].
  - simpl. unfold Js.startsWith. destruct k; [|discriminate]. intros _.
    destruct x; reflexivity.
  - change (Js.includes (String c p) k)
      with (String.prefix k (String c p) || Js.includes p k).
    change (Js.includes (String c p +:+ x) k)
      with (String.prefix k (String c p +:+ x) || Js.includes (p +:+ x) k).
    intros H. apply orb_true_iff in H as [H|H].
    + by rewrite (prefix_app_l _ _ x H).
    + rewrite (IH H). apply orb_true_r.
Qed.

(** A keyword that starts with a letter does not start inside a number. *)
Lemma includes_digits d x c k :
  Js.isDigit c = false →
  Js.includes (NilEmpty.string_of_uint d +:+ x) (String c k)
    = Js.includes x (String c k).
Proof.
  intros Hc. induction d; [done|..];
    cbn [NilEmpty.string_of_uint]; rewrite append_cons, includes_cons;
    cbn [String.prefix];
    (destruct (ascii_dec c _) as [->|_]; [discriminate Hc|]);
    exact IHd.
Qed.

(** The pattern of [extractRetryAfter] does not match before the first
    digit of a text. *)
Lemma regexMatch_skip p x :
  Js.noDigits p = true →
  ErrorHandlerService.regexMatch (p +:+ x) = ErrorHandlerService.regexMatch x.
Proof.
  induction p as [|c p IH]; [done|]. simpl Js.noDigits.
  intros H. apply andb_true_iff in H as [Hc Hp].
  apply negb_true_iff in Hc.
  change (String c p +:+ x) with (String c (p +:+ x)).
  simpl ErrorHandlerService.regexMatch.
  unfold ErrorHandlerService.matchAt at 1. simpl Js.span. rewrite Hc.
  simpl. apply (IH Hp).
Qed.

Lemma span_digits d rest :
  Js.span Js.isDigit rest = (EmptyString, rest) →
  Js.span Js.isDigit (NilEmpty.string_of_uint d +:+ rest)
    = (NilEmpty.string_of_uint d, rest).
Proof.
  intros Hrest. induction d; simpl; rewrite ?IHd; try reflexivity. exact Hrest.
Qed.

Lemma toLowerCase_app a b :
  Js.toLowerCase (a +:+ b) = Js.toLowerCase a +:+ Js.toLowerCase b.
Proof. induction a as [|c a IH]; simpl; [done|]. by rewrite IH. Qed.

Lemma toLowerCase_digits d :
  Js.toLowerCase (NilEmpty.string_of_uint d) = NilEmpty.string_of_uint d.
Proof. induction d; simpl; rewrite ?IHd; reflexivity. Qed.

Lemma readDigits_acc d acc :
  0 < acc →
  Js.readDigits 10 (NilEmpty.string_of_uint d) acc true
    = Some (Z.pos (Pos.of_uint_acc d (Z.to_pos acc))).
Proof.
  revert acc. induction d; intros acc Hacc; simpl.
  { f_equal. lia. }
  all: unfold Js.digitValue; simpl; rewrite IHd by lia;
    do 3 f_equal; lia.
Qed.

Lemma readDigits_uint d seen :
  seen = true ∨ d ≠ Nil →
  Js.readDigits 10 (NilEmpty.string_of_uint d) 0 seen
    = Some (Z.of_N (Pos.of_uint d)).
Proof.
  revert seen. induction d; intros seen Hs; simpl.
  { destruct Hs as [->|?]; done. }
  { unfold Js.digitValue. simpl. apply IHd. by left. }
  all: unfold Js.digitValue; simpl; rewrite readDigits_acc by lia; reflexivity.
Qed.

Lemma parseInt_uint d :
  d ≠ Nil →
  Js.parseInt (NilEmpty.string_of_uint d)
    = Js.roundZ (Z.of_N (Pos.of_uint d)).
Proof.
  intros Hd.
  pose proof (readDigits_uint d false (or_intror Hd)) as Hr.
  assert (Js.parseInt (NilEmpty.string_of_uint d)
          = match Js.readDigits 10 (NilEmpty.string_of_uint d) 0 false with
            | Some v => Js.roundZ (1 * v)
            | None => Js.NaN
            end) as ->.
  { destruct d as [|d|d|d|d|d|d|d|d|d|d]; [done|..]; try reflexivity.
    destruct d; reflexivity. }
  rewrite Hr. f_equal. lia.
Qed.

(** The decimal text of a natural number is a numeral. *)
Lemma showZ_uint z :
  0 ≤ z →
  ∃ d, d ≠ Nil ∧ Js.showZ z = NilEmpty.string_of_uint d ∧
       Z.of_N (Pos.of_uint d) = z.
Proof.
  intros Hz. destruct z as [|p|p]; [| |lia].
  - exists (D0 Nil). done.
  - exists (Pos.to_uint p). split; [apply DecimalPos.Unsigned.to_uint_nonnil|].
    split.
    + unfold Js.showZ. simpl.
      pose proof (DecimalPos.Unsigned.to_uint_nonnil p).
      destruct (Pos.to_uint p); done.
    + by rewrite DecimalPos.Unsigned.of_to.
Qed.





End Text.

(** ** Dedup storage *)

Section Dedup.

Import Mongo ProcessedComment.

Implicit Types (db : Db) (d : ProcessedCommentDoc).

Lemma countDocuments_absent db u c :
  (u, c) ∉ indexKey <$> processedComments db →
  countDocuments None db u c = Return 0%nat.
Proof.
  unfold countDocuments. intros H. f_equal.
  induction (processedComments db) as [|d l IH]; [done|].
  rewrite fmap_cons, not_elem_of_cons in H. destruct H as [Hne Hl].
  rewrite filter_cons_False by congruence. auto.
Qed.

Lemma countDocuments_present db u c :
  uniqueIndex db → (u, c) ∈ indexKey <$> processedComments db →
  countDocuments None db u c = Return 1%nat.
Proof.
  unfold uniqueIndex, countDocuments. intros Hu Hin. f_equal.
  induction (processedComments db) as [|d l IH]; [by rewrite elem_of_nil in Hin|].
  rewrite fmap_cons, NoDup_cons in Hu. destruct Hu as [Hd Hl].
  rewrite fmap_cons, elem_of_cons in Hin. destruct Hin as [Heq|Hin].
  - rewrite filter_cons_True by done. simpl. f_equal.
    rewrite <- Heq in Hd. clear -Hd.
    induction l as [|d' l IH]; [done|].
    rewrite fmap_cons, not_elem_of_cons in Hd. destruct Hd as [Hne Hd].
    rewrite filter_cons_False by congruence. auto.
  - rewrite filter_cons_False; [auto|].
    intros Heq. apply Hd. by rewrite Heq.
Qed.

Lemma create_unique fault db d r db' :
  uniqueIndex db → create fault db d = (r, db') → uniqueIndex db'.
Proof.
  unfold create, uniqueIndex. intros Hu.
  destruct (negb (accepts d)); [by intros [= _ <-]|].
  destruct fault as [e|]; [by intros [= _ <-]|].
  case_bool_decide as Hin.
  - by intros [= _ <-].
  - intros [= _ <-]. simpl. rewrite fmap_app. apply NoDup_app.
    split; [done|]. split.
    + intros k Hk. rewrite list_fmap_singleton, list_elem_of_singleton.
      by intros ->.
    + rewrite list_fmap_singleton. apply NoDup_singleton.
Qed.

Lemma create_stores db d r db' :
  accepts d = true →
  create None db d = (r, db') → indexKey d ∈ indexKey <$> processedComments db'.
Proof.
  unfold create. intros ->. cbn [negb]. case_bool_decide as Hin.
  - by intros [= _ <-].
  - intros [= _ <-]. simpl. rewrite fmap_app, elem_of_app. right.
    rewrite list_fmap_singleton. apply list_elem_of_singleton. done.
Qed.

(** A document the schema rejects is never stored: [create] throws the
    ValidationError whatever the state of the server. *)
Lemma create_rejected fault db d :
  accepts d = false →
  create fault db d
    = (Throw (validationError "ProcessedComment" (rejectedPaths d)), db).
Proof. unfold create. by intros ->. Qed.

(** What one call of [markProcessed] does when the schema accepts the
    data and the database is up: it answers whether the key was new, the
    key is stored afterwards, and the index stays unique. *)
Lemma markProcessed_once db u data r db' :
  uniqueIndex db →
  schemaAccepts data = true →
  markProcessed None db u data = (r, db') →
  r = Return (bool_decide ((u, id data) ∉ indexKey <$> processedComments db)) ∧
  uniqueIndex db' ∧
  (u, id data) ∈ indexKey <$> processedComments db' ∧
  ((u, id data) ∈ indexKey <$> processedComments db → db' = db).
Proof.
  intros Hu Hok. unfold markProcessed.
  set (doc := mkDoc _ _ _ _ _ _ _ _).
  assert (Hacc : accepts doc = true) by exact Hok.
  destruct (create None db doc) as [r0 db0] eqn:Hc.
  pose proof (create_unique _ _ _ _ _ Hu Hc) as Hu'.
  pose proof (create_stores _ _ _ _ Hacc Hc) as Hin'.
  unfold create in Hc. rewrite Hacc in Hc. cbn [negb] in Hc.
  change (indexKey doc) with (u, id data) in *.
  case_bool_decide as Hin; injection Hc as <- <-.
  - simpl. intros [= <- <-]. rewrite bool_decide_eq_false_2 by auto. done.
  - intros [= <- <-]. rewrite bool_decide_eq_true_2 by done.
    repeat split; try done.
Qed.

(** Data the schema rejects: [markProcessed] throws and stores nothing,
    whatever the state of the server. *)
Lemma markProcessed_rejected fault db u data :
  schemaAccepts data = false →
  ∃ e, markProcessed fault db u data = (Throw e, db) ∧
       Error.name e = "ValidationError".
Proof.
  intros Hbad. unfold markProcessed.
  set (doc := mkDoc _ _ _ _ _ _ _ _).
  assert (Hacc : accepts doc = false) by exact Hbad.
  rewrite (create_rejected _ _ _ Hacc). cbn [Error.code validationError].
  rewrite bool_decide_eq_false_2 by discriminate. eauto.
Qed.

(** C1, as the code has it.  Dedup insertion is idempotent for data that
    the schema accepts.  With the unique index in place, the database up
    and such data, two calls of [markProcessed] for the same user and
    comment id leave exactly one record under that key; the first call
    answers whether the key was new, the second is swallowed: it returns
    [false], throws nothing and changes nothing; and [isProcessed] answers
    [true] after the first call and after the second. *)
Theorem markProcessed_idempotent db u data1 data2 r1 db1 r2 db2 :
  uniqueIndex db →
  schemaAccepts data1 = true →
  schemaAccepts data2 = true →
  id data2 = id data1 →
  markProcessed None db u data1 = (r1, db1) →
  markProcessed None db1 u data2 = (r2, db2) →
  r1 = Return (bool_decide
                 ((u, id data1) ∉ indexKey <$> processedComments db)) ∧
  r2 = Return false ∧
  db2 = db1 ∧
  countDocuments None db2 u (id data1) = Return 1%nat ∧
  isProcessed None db1 u (id data1) = Return true ∧
  isProcessed None db2 u (id data1) = Return true.
Proof.
  intros Hu Hok1 Hok2 Hid H1 H2.
  destruct (markProcessed_once _ _ _ _ _ Hu Hok1 H1) as (-> & Hu1 & Hin1 & _).
  destruct (markProcessed_once _ _ _ _ _ Hu1 Hok2 H2)
    as (-> & Hu2 & Hin2 & Hsame).
  rewrite Hid in *. specialize (Hsame Hin1). subst db2.
  pose proof (countDocuments_present _ _ _ Hu1 Hin1) as Hc.
  split; [done|]. split; [by rewrite bool_decide_eq_false_2 by auto|].
  split; [done|]. split; [done|].
  unfold isProcessed. rewrite Hc. done.
Qed.

(** A run of the theorem: an empty collection, the same comment marked
    twice with different payloads. *)
Lemma markProcessed_idempotent_witness :
  let db := {| processedComments := []; users := ∅ |} in
  let c1 := {| id := "c1"; postId := "p1"; username := "ann"; text := "hi";
               reply := None; replyId := None; status := None |} in
  let c2 := {| id := "c1"; postId := "p1"; username := "ann"; text := "hi";
               reply := Some "hello"; replyId := None;
               status := Some "reply_posted" |} in
  let '(r1, db1) := markProcessed None db "u1" c1 in
  let '(r2, db2) := markProcessed None db1 "u1" c2 in
  r1 = Return true ∧ r2 = Return false ∧
  countDocuments None db2 "u1" "c1" = Return 1%nat ∧
  isProcessed None db2 "u1" "c1" = Return true.
Proof.
  set (db := {| processedComments := []; users := ∅ |}).
  set (c1 := mkCommentData "c1" "p1" "ann" "hi" None None None).
  set (c2 := mkCommentData "c1" "p1" "ann" "hi" (Some "hello") None
               (Some "reply_posted")).
  simpl.
  destruct (markProcessed None db "u1" c1) as [r1 db1] eqn:H1.
  destruct (markProcessed None db1 "u1" c2) as [r2 db2] eqn:H2.
  assert (Hu : uniqueIndex db) by apply NoDup_nil_2.
  destruct (markProcessed_idempotent db "u1" c1 c2 r1 db1 r2 db2 Hu
              eq_refl eq_refl eq_refl H1 H2)
    as (Hr1 & Hr2 & _ & Hc & _ & Hp).
  split; [|done]. subst r1. reflexivity.
Defined.

(** C1, as stated, fails for data that the schema rejects: with an empty
    comment text both calls throw the ValidationError, no record is left
    and [isProcessed] answers [false]. *)
Lemma markProcessed_twice_rejected :
  ¬ (∀ db u data r1 db1 r2 db2,
       uniqueIndex db →
       markProcessed None db u data = (r1, db1) →
       markProcessed None db1 u data = (r2, db2) →
       r2 = Return false ∧
       countDocuments None db2 u (id data) = Return 1%nat ∧
       isProcessed None db2 u (id data) = Return true).
Proof.
  intros H.
  set (db := {| processedComments := []; users := ∅ |}).
  set (c := mkCommentData "c1" "p1" "ann" "" None None None).
  assert (Hu : uniqueIndex db) by apply NoDup_nil_2.
  destruct (H db "u1" c _ db _ db Hu eq_refl eq_refl) as (Hr & _).
  discriminate Hr.
Qed.

(** The empty comment text that [StorageService.markCommentProcessed]
    passes when it is given no comment data is rejected by the schema. *)
Example markProcessed_empty_text :
  let db := {| processedComments := []; users := ∅ |} in
  let c := {| id := "c1"; postId := "unknown"; username := "unknown";
              text := ""; reply := None; replyId := None;
              status := Some "reply_posted" |} in
  markProcessed None db "u1" c
    = (Throw (validationError "ProcessedComment"
                ["commentText: Path `commentText` is required."]), db) ∧
  isProcessed None db "u1" "c1" = Return false.
Proof. split; reflexivity. Qed.

End Dedup.

(** ** StorageService *)

Section Storage.

Import Mongo StorageService.

(** [isCommentProcessed] never throws. *)
Lemma isCommentProcessed_total fault db this commentId :
  ∃ b, isCommentProcessed fault db this commentId = Return b.
Proof.
  unfold isCommentProcessed.
  destruct (negb _); [eauto|].
  destruct (userId this) as [uid|]; [|eauto].
  destruct (ProcessedComment.isProcessed fault db uid commentId); eauto.
Qed.

(** The lookup throws exactly when the database operation fails. *)
Lemma isProcessed_throws e db uid commentId :
  ProcessedComment.isProcessed (Some e) db uid commentId = Throw e.
Proof. reflexivity. Qed.

(** C9. When the durable lookup throws, [isCommentProcessed] catches the
    error and answers [false]: nothing propagates to the caller, and
    during an outage every comment id, recorded or not, is reported as
    unprocessed. *)
Theorem isCommentProcessed_swallows_lookup_failure
    (e : Error.t) (db : Db) (this : StorageService.t) (commentId : string) :
  (∀ uid, ProcessedComment.isProcessed (Some e) db uid commentId = Throw e) ∧
  isCommentProcessed (Some e) db this commentId = Return false.
Proof.
  split; [intros; apply isProcessed_throws|].
  unfold isCommentProcessed.
  destruct (negb _); [done|].
  destruct (userId this) as [uid|]; [|done].
  by rewrite isProcessed_throws.
Qed.

(** The same comment, recorded in the collection, with the database up
    and then down. *)
Example isCommentProcessed_outage :
  let doc := {| Mongo.userId := "u1"; commentId := "c1"; Mongo.postId := "p1";
                Mongo.username := "ann"; commentText := "hi";
                replyText := None; Mongo.replyId := None;
                Mongo.status := "reply_posted" |} in
  let db := {| Mongo.processedComments := [doc]; users := ∅ |} in
  let this := {| userId := Some "u1" |} in
  isCommentProcessed None db this "c1" = Return true ∧
  isCommentProcessed (Some (Error.new "connection lost")) db this "c1"
    = Return false.
Proof. split; reflexivity. Qed.

(** What [saveAutomationState] followed by [loadAutomationState] yields
    for an existing user with the database up: [isActive] comes back,
    [lastCheckTime] and [stats] do not. *)
Lemma save_then_load db this uid user state :
  userId this = Some uid → Js.truthyStr uid = true →
  users db !! uid = Some user →
  ∃ db',
    saveAutomationState None None db this state = (Return tt, db') ∧
    loadAutomationState None db' this
      = Some {| isActive := isActive state; lastCheckTime := None;
                stats := None; processedComments := Some [] |}.
Proof.
  intros Hid Ht Hu. unfold saveAutomationState, loadAutomationState.
  rewrite Hid. simpl. rewrite Ht. simpl. rewrite Hu. simpl.
  eexists; split; [reflexivity|]. simpl.
  rewrite lookup_insert_eq. simpl. by rewrite !orb_false_r.
Qed.

(** C8. The state saved by the persistence test of the repository
    (active, with the counters 5, 4, 3, 1) is saved for an existing user
    and loaded again: the save succeeds, [isActive] is restored, and the
    loaded state has no [stats] and no [lastCheckTime]; the counters of
    the snapshot are not carried over. *)
Theorem saved_stats_not_restored :
  let user := {| email := "a@b.c";
                 automationSettings :=
                   {| replyTone := "friendly"; pollIntervalSeconds := 30;
                      maxCommentsPerCheck := 10; selectedPosts := [];
                      Mongo.isActive := false |} |} in
  let db := {| Mongo.processedComments := []; users := {[ "u1" := user ]} |} in
  let this := {| userId := Some "u1" |} in
  let testState :=
    {| isActive := true; lastCheckTime := Some 1762857000000;
       stats := Some {| commentsDetected := 5; repliesGenerated := 4;
                        repliesPosted := 3; errorCount := 1 |};
       processedComments := None |} in
  ∃ db',
    saveAutomationState None None db this testState = (Return tt, db') ∧
    (isActive <$> loadAutomationState None db' this) = Some true ∧
    (stats <$> loadAutomationState None db' this) = Some None ∧
    (lastCheckTime <$> loadAutomationState None db' this) = Some None.
Proof.
  intros user db this testState.
  destruct (save_then_load db this "u1" user testState) as (db' & Hs & Hl);
    [done|done|apply lookup_singleton_eq|].
  exists db'. rewrite Hl. done.
Qed.

End Storage.

(** ** The request budget *)

Section RateLimit.

Import InstagramService.

Lemma checkRateLimit_limits now s :
  maxRequestsPerHour (_checkRateLimit now s).2 = maxRequestsPerHour s ∧
  requestWindow (_checkRateLimit now s).2 = requestWindow s.
Proof.
  unfold _checkRateLimit.
  destruct (now - requestWindowStart s >? requestWindow s); simpl;
    destruct (_ >=? _); simpl; done.
Qed.

Lemma checkRateLimit_withinBudget now s :
  0 ≤ maxRequestsPerHour s → withinBudget s →
  withinBudget (_checkRateLimit now s).2.
Proof.
  unfold withinBudget, _checkRateLimit. intros Hmax Hs.
  destruct (now - requestWindowStart s >? requestWindow s); simpl;
    destruct (_ >=? _) eqn:Hle; simpl; lia.
Qed.

Lemma calls_withinBudget times s :
  0 ≤ maxRequestsPerHour s → withinBudget s →
  withinBudget (calls times s).2 ∧
  maxRequestsPerHour (calls times s).2 = maxRequestsPerHour s.
Proof.
  revert s. induction times as [|now rest IH]; intros s Hmax Hs; [done|].
  simpl. destruct (_checkRateLimit now s) as [r s1] eqn:H1.
  pose proof (checkRateLimit_withinBudget now s Hmax Hs) as Hb.
  pose proof (checkRateLimit_limits now s) as [Hm _].
  rewrite H1 in Hb, Hm. simpl in Hb, Hm.
  destruct (calls rest s1) as [rs s2] eqn:H2. simpl.
  specialize (IH s1). rewrite H2 in IH. simpl in IH.
  rewrite <- Hm. apply IH; [lia|done].
Qed.

(** C6, as the code has it.  For a limiter with a positive limit:
    (1) the budget invariant [requestCount ≤ maxRequestsPerHour] holds
        after every sequence of calls, at whatever clock readings;
    (2) inside the window, a call made with the budget used up is
        rejected: it throws and leaves the whole state, the counter
        included, as it was;
    (3) inside the window, a call made with budget left is let through
        and counted once;
    (4) a call throws in no other case, and never changes the state when
        it does;
    (5) the window starts afresh, with this call as its first request,
        when more than [requestWindow] has elapsed, and
    (6) it is kept, at exactly [requestWindow] elapsed too, otherwise. *)
Theorem checkRateLimit_window_invariant (s : InstagramService.t) :
  0 < maxRequestsPerHour s → withinBudget s →
  (∀ times, withinBudget (calls times s).2) ∧
  (∀ now, now - requestWindowStart s ≤ requestWindow s →
          requestCount s = maxRequestsPerHour s →
          ∃ e, _checkRateLimit now s = (Throw e, s)) ∧
  (∀ now, now - requestWindowStart s ≤ requestWindow s →
          requestCount s < maxRequestsPerHour s →
          (_checkRateLimit now s).1 = Return true ∧
          requestCount (_checkRateLimit now s).2 = requestCount s + 1) ∧
  (∀ now e, (_checkRateLimit now s).1 = Throw e →
            (_checkRateLimit now s).2 = s ∧
            now - requestWindowStart s ≤ requestWindow s ∧
            requestCount s = maxRequestsPerHour s) ∧
  (∀ now, requestWindow s < now - requestWindowStart s →
          (_checkRateLimit now s).1 = Return true ∧
          requestWindowStart (_checkRateLimit now s).2 = now ∧
          requestCount (_checkRateLimit now s).2 = 1) ∧
  (∀ now, now - requestWindowStart s ≤ requestWindow s →
          requestWindowStart (_checkRateLimit now s).2 = requestWindowStart s ∧
          requestCount s ≤ requestCount (_checkRateLimit now s).2).
Proof.
  intros Hmax Hs. unfold withinBudget in Hs.
  split; [|split; [|split; [|split; [|split]]]].
  - intros times. apply calls_withinBudget; [lia|done].
  - intros now Hin Hfull. unfold _checkRateLimit.
    destruct (now - requestWindowStart s >? requestWindow s) eqn:Hw; [lia|].
    destruct (requestCount s >=? maxRequestsPerHour s) eqn:Hge; [|lia].
    eauto.
  - intros now Hin Hroom. unfold _checkRateLimit.
    destruct (now - requestWindowStart s >? requestWindow s) eqn:Hw; [lia|].
    destruct (requestCount s >=? maxRequestsPerHour s) eqn:Hge; [lia|].
    done.
  - intros now e. unfold _checkRateLimit.
    destruct (now - requestWindowStart s >? requestWindow s) eqn:Hw; simpl.
    + destruct (0 >=? maxRequestsPerHour s) eqn:Hle; [lia|]. done.
    + destruct (requestCount s >=? maxRequestsPerHour s) eqn:Hge; [|done].
      intros _. repeat split; lia.
  - intros now Hout. unfold _checkRateLimit.
    destruct (now - requestWindowStart s >? requestWindow s) eqn:Hw; [|lia].
    simpl. destruct (0 >=? maxRequestsPerHour s) eqn:Hle; [lia|]. done.
  - intros now Hin. unfold _checkRateLimit.
    destruct (now - requestWindowStart s >? requestWindow s) eqn:Hw; [lia|].
    destruct (_ >=? _); simpl; split; (done || lia).
Qed.

(** A run of the theorem: a service that has used its 200 requests is
    rejected half a second into the window and is left as it was; 201
    calls on a fresh service stay within the budget; and a call after the
    window has passed starts a new one. *)
Lemma checkRateLimit_window_invariant_witness :
  let full := {| isAuthenticated := true; requestCount := 200;
                 requestWindowStart := 0; maxRequestsPerHour := 200;
                 requestWindow := 3600000 |} in
  (∃ e, _checkRateLimit 500 full = (Throw e, full)) ∧
  withinBudget (calls (replicate 201 500) (InstagramService.new 0)).2 ∧
  requestWindowStart (_checkRateLimit 3600001 (InstagramService.new 0)).2
    = 3600001.
Proof.
  intros full.
  assert (H0 : 0 < maxRequestsPerHour (InstagramService.new 0)) by (simpl; lia).
  assert (H1 : withinBudget (InstagramService.new 0))
    by (unfold withinBudget; simpl; lia).
  assert (F0 : 0 < maxRequestsPerHour full) by (simpl; lia).
  assert (F1 : withinBudget full) by (unfold withinBudget; simpl; lia).
  destruct (checkRateLimit_window_invariant full F0 F1) as (_ & Hrej & _).
  destruct (checkRateLimit_window_invariant (InstagramService.new 0) H0 H1)
    as (Hinv & _ & _ & _ & Hreset & _).
  split; [apply (Hrej 500); simpl; lia|].
  split; [apply Hinv|].
  apply (Hreset 3600001). simpl. lia.
Defined.

(** C6, as stated, fails at the boundary: with the budget used up and
    exactly [requestWindow] elapsed, the window is not reset; the call is
    rejected and the state stays as it was. *)
Lemma window_not_reset_at_boundary :
  ¬ (∀ now s,
       now - requestWindowStart s >= requestWindow s →
       requestWindowStart (_checkRateLimit now s).2 = now).
Proof.
  intros H.
  specialize (H 3600000
    {| isAuthenticated := true; requestCount := 200; requestWindowStart := 0;
       maxRequestsPerHour := 200; requestWindow := 3600000 |}).
  simpl in H. discriminate H. lia.
Qed.

(** The limiter of the specification's example: limit 3, window 1 s, four
    calls inside the window. *)
Example four_calls_limit_three :
  let s := {| isAuthenticated := true; requestCount := 0;
              requestWindowStart := 0; maxRequestsPerHour := 3;
              requestWindow := 1000 |} in
  (calls [10; 20; 30; 40] s).1
    = [Return true; Return true; Return true;
       Throw (Error.new "Instagram rate limit reached. Please wait 1 minutes.")].
Proof. reflexivity. Qed.

End RateLimit.

(** ** Error classification and the decided action *)

Section Classification.

Import ErrorHandlerService.

Implicit Types (r : Error.t) (e : AutomationError) (this : ErrorHandler).

(** Splits a goal about [classifyError now (Generic r)] along the cascade
    of keyword tests, in source order. *)
Ltac cascade :=
  unfold classifyError;
  destruct (isAuthMessage _) eqn:Hauth;
    [|destruct (isRateLimitMessage _) eqn:Hrate;
      [|destruct (isNetworkMessage _) eqn:Hnet;
        [|destruct (isApiMessage _ || truthyStatus _) eqn:Hapi;
          [|destruct (isValidationMessage _) eqn:Hval]]]];
  simpl.

(** The class chosen for a generic error does not depend on the clock. *)
Lemma ctor_classifyError_clock now1 now2 err :
  ctor (classifyError now1 err) = ctor (classifyError now2 err).
Proof. destruct err as [r|e]; [cascade; reflexivity|reflexivity]. Qed.

(** C2. Classification of a raw failure is total and lands in exactly the
    five kinds; the kind depends on the message and the status code only,
    the classified error on the raw failure only apart from its time
    stamp; and a failure that matches no keyword and carries no status
    is an API error. *)
Theorem classifyError_total_deterministic :
  (∀ now r,
     ctor (classifyError now (Generic r)) ∈
       [AuthenticationError; RateLimitError; NetworkError; APIError;
        ValidationError]) ∧
  (∀ now1 now2 r1 r2,
     Error.message r1 = Error.message r2 →
     Error.statusCode r1 = Error.statusCode r2 →
     ctor (classifyError now1 (Generic r1))
       = ctor (classifyError now2 (Generic r2))) ∧
  (∀ now1 now2 r,
     let e1 := classifyError now1 (Generic r) in
     let e2 := classifyError now2 (Generic r) in
     ctor e1 = ctor e2 ∧ message e1 = message e2 ∧ code e1 = code e2 ∧
     recoverable e1 = recoverable e2 ∧ retryAfter e1 = retryAfter e2 ∧
     statusCode e1 = statusCode e2 ∧ field e1 = field e2 ∧
     details e1 = details e2) ∧
  (∀ now r,
     let m := Js.toLowerCase (Error.message r) in
     isAuthMessage m = false → isRateLimitMessage m = false →
     isNetworkMessage m = false → isApiMessage m = false →
     truthyStatus (Error.statusCode r) = false →
     isValidationMessage m = false →
     ctor (classifyError now (Generic r)) = APIError).
Proof.
  split; [|split; [|split]].
  - intros now r. cascade; set_solver.
  - intros now1 now2 r1 r2 Hm Hs. unfold classifyError. rewrite Hm, Hs.
    destruct (isAuthMessage _); [done|].
    destruct (isRateLimitMessage _); [done|].
    destruct (isNetworkMessage _); [done|].
    destruct (isApiMessage _ || truthyStatus _); [done|].
    destruct (isValidationMessage _); done.
  - intros now1 now2 r e1 e2. subst e1 e2. cascade; done.
  - intros now r m Ha Hr Hn Hp Hs Hv. unfold classifyError.
    fold m. rewrite Ha, Hr, Hn, Hp, Hs, Hv. reflexivity.
Qed.

(** Two raw failures with the same message and status, different names
    and clocks, and a failure that matches nothing. *)
Lemma classifyError_total_deterministic_witness :
  ctor (classifyError 5 (Generic (Error.mk "TypeError" "socket hang up" None (Some 502) None)))
    = ctor (classifyError 9 (Generic (Error.mk "Error" "socket hang up" None (Some 502) None))) ∧
  ctor (classifyError 0 (Generic (Error.new "something broke"))) = APIError.
Proof.
  destruct classifyError_total_deterministic as (_ & Hdet & _ & Hdef).
  split.
  - apply Hdet; reflexivity.
  - apply Hdef; reflexivity.
Defined.

Lemma determineAction_cases this e ctx :
  determineAction this e ctx =
    match ctor e with
    | AuthenticationError => STOP_AUTOMATION
    | RateLimitError => WAIT_AND_RETRY
    | NetworkError | APIError =>
        if attemptOf ctx >=? maxRetries this then SKIP_AND_CONTINUE
        else RETRY_WITH_BACKOFF
    | ValidationError => SKIP_AND_CONTINUE
    | AutomationErrorBase => LOG_AND_CONTINUE
    end.
Proof. unfold determineAction, instanceOf. destruct (ctor e); reflexivity. Qed.

(** C10, as the code has it.  Every raw failure is classified into one of
    the five subclasses; on every result of [classifyError] that is an
    instance of one of the five subclasses [determineAction] answers one of
    the four actions; and the default LOG_AND_CONTINUE is the answer
    exactly when the result is an [AutomationError] outside the five
    subclasses. *)
Theorem determineAction_never_defaults :
  (∀ now r, ctor (classifyError now (Generic r)) ≠ AutomationErrorBase) ∧
  (∀ this now err ctx,
     ctor (classifyError now err) ≠ AutomationErrorBase →
     determineAction this (classifyError now err) ctx ∈
       [STOP_AUTOMATION; WAIT_AND_RETRY; RETRY_WITH_BACKOFF;
        SKIP_AND_CONTINUE]) ∧
  (∀ this now err ctx,
     determineAction this (classifyError now err) ctx = LOG_AND_CONTINUE ↔
     ctor (classifyError now err) = AutomationErrorBase).
Proof.
  split; [|split].
  - intros now r. cascade; discriminate.
  - intros this now err ctx H. rewrite determineAction_cases.
    destruct (ctor (classifyError now err)); try done;
      try destruct (_ >=? _); set_solver.
  - intros this now err ctx. rewrite determineAction_cases.
    destruct (ctor (classifyError now err)); try destruct (_ >=? _);
      split; (reflexivity || discriminate).
Qed.

(** A timeout on the third attempt of three is skipped. *)
Lemma determineAction_never_defaults_witness :
  determineAction (new None)
    (classifyError 0 (Generic (Error.new "request timeout")))
    {| attemptNumber := Some 3; operation := None |}
  ∈ [STOP_AUTOMATION; WAIT_AND_RETRY; RETRY_WITH_BACKOFF; SKIP_AND_CONTINUE].
Proof.
  destruct determineAction_never_defaults as (Hraw & Hact & _).
  apply (Hact (new None) 0 (Generic (Error.new "request timeout"))
              {| attemptNumber := Some 3; operation := None |}).
  apply Hraw.
Defined.

(** C10, as stated, fails: a direct instance of the base class
    [AutomationError] is returned by [classifyError] as it is, and
    [determineAction] answers LOG_AND_CONTINUE for it. *)
Lemma default_branch_reachable :
  ¬ (∀ this now err ctx,
       determineAction this (classifyError now err) ctx ∈
         [STOP_AUTOMATION; WAIT_AND_RETRY; RETRY_WITH_BACKOFF;
          SKIP_AND_CONTINUE]).
Proof.
  intros H.
  specialize (H (new None) 0
    (Automation {| ctor := AutomationErrorBase; message := "upstream failed";
                   code := "E_UPSTREAM"; recoverable := true; timestamp := 0;
                   retryAfter := None; statusCode := None; field := None;
                   details := None |})
    {| attemptNumber := None; operation := None |}).
  rewrite determineAction_cases in H. simpl in H.
  repeat (apply elem_of_cons in H as [H|H]; [discriminate H|]).
  by apply elem_of_nil in H.
Qed.

End Classification.

(** ** Retry-after extraction *)

Section RetryAfter.

Import ErrorHandlerService.



Lemma regexMatch_unfold s :
  regexMatch s =
    match matchAt s with
    | Some m => Some m
    | None => match s with
              | EmptyString => None
              | String _ s' => regexMatch s'
              end
    end.
Proof. destruct s; reflexivity. Qed.








(** Values the extraction falls back from, a zero and an HTTP date; a
    phrase in capitals; and a phrase behind digits that are not part of
    one. *)
Example retry_after_fallbacks :
  retryAfter (classifyError 0 (Generic (Error.new "Rate limit: retry in 0 seconds")))
    = Some (Js.Int 60000) ∧
  retryAfter (classifyError 0
    (Generic {| Error.name := "Error"; Error.message := "HTTP 429";
                Error.code := None; Error.statusCode := None;
                Error.response :=
                  Some (Error.mkResponse
                          (Some {[ "retry-after" := "Wed, 21 Oct 2015 07:28:00 GMT" ]})) |}))
    = Some (Js.Int 60000) ∧
  retryAfter (classifyError 0 (Generic (Error.new "Rate limit hit, wait 2 Hours")))
    = Some (Js.Int 7200000) ∧
  retryAfter (classifyError 0 (Generic (Error.new "HTTP 429: retry in 30 seconds")))
    = Some (Js.Int 30000).
Proof. repeat split; vm_compute; reflexivity. Qed.

End RetryAfter.

(** ** executeWithRetry *)

Section Retry.

Import ErrorHandlerService.

Implicit Types (this : ErrorHandler) (w : World) (ctx : Context).

Lemma sleeps_emit_log w entry :
  sleeps (trace (emit (AppendLog entry) w)) = sleeps (trace w).
Proof. unfold sleeps. simpl. rewrite omap_app. simpl. apply app_nil_r. Qed.

Lemma invokeCount_emit_log w entry :
  invokeCount (trace (emit (AppendLog entry) w)) = invokeCount (trace w).
Proof.
  unfold invokeCount. simpl. rewrite omap_app, length_app. simpl. lia.
Qed.

(** [handleError] decides the action of the classified error, stops
    exactly on STOP_AUTOMATION, and neither calls the operation nor
    sleeps. *)
Lemma handleError_spec this now rnd err ctx w :
  let res := (handleError this now rnd err ctx w).1 in
  let w' := (handleError this now rnd err ctx w).2 in
  action res = determineAction this (classifyError now err) ctx ∧
  shouldStop res = bool_decide (action res = STOP_AUTOMATION) ∧
  invocations w' = invocations w ∧
  sleeps (trace w') = sleeps (trace w) ∧
  invokeCount (trace w') = invokeCount (trace w).
Proof.
  unfold handleError, logError, notifyFrontend.
  destruct (storageService this) as [st|];
    destruct (retryAfter (classifyError now err)) as [n|];
    try destruct (Js.truthyNum n); simpl;
    rewrite ?sleeps_emit_log, ?invokeCount_emit_log;
    repeat split;
    try (unfold sleeps, invokeCount; simpl;
         rewrite !omap_app, ?length_app; simpl;
         rewrite ?app_nil_r; simpl; lia || reflexivity).
Qed.

(** One iteration of the loop on an authentication failure: whatever
    the attempt number and whatever happened before, the loop ends there
    with that error, after one more call and no further sleep. *)
Lemma retryLoop_authentication {Value : Type} this (env : Env Value) ctx
    maxAttempts iters attempt lastError w err :
  fn env (invocations w) = Throw err →
  ctor (classifyError (clock env (invocations w)) err) = AuthenticationError →
  let out := retryLoop this env ctx maxAttempts (S iters) attempt lastError w in
  out.1 = Throw (Some err) ∧
  invocations out.2 = S (invocations w) ∧
  invokeCount (trace out.2) = S (invokeCount (trace w)) ∧
  sleeps (trace out.2) = sleeps (trace w).
Proof.
  intros Hfn Hauth out. subst out. simpl retryLoop. rewrite Hfn.
  set (ectx := {| attemptNumber := Some attempt; operation := operation ctx |}).
  set (w0 := emit Invoked _).
  pose proof (handleError_spec this (clock env (invocations w)) (random env)
                err ectx w0) as (Hact & Hstop & Hinv & Hsl & Hic).
  destruct (handleError this (clock env (invocations w)) (random env) err ectx w0)
    as [res w1] eqn:Hh.
  simpl in Hact, Hstop, Hinv, Hsl, Hic.
  rewrite determineAction_cases, Hauth in Hact.
  rewrite Hact in Hstop. rewrite Hstop. simpl.
  rewrite Hinv, Hsl, Hic. unfold w0, sleeps, invokeCount. simpl.
  rewrite !omap_app, length_app. simpl. rewrite app_nil_r.
  repeat split; lia.
Qed.

(** C3. A failure classified as an authentication error is answered with
    STOP_AUTOMATION whatever the attempt number; the retry loop ends at
    the attempt where it occurs, throwing that very error without another
    call and without a sleep; so [executeWithRetry] whose first call
    fails that way makes one call and never sleeps. *)
Theorem authentication_stops_immediately :
  (∀ this now err ctx,
     ctor (classifyError now err) = AuthenticationError →
     determineAction this (classifyError now err) ctx = STOP_AUTOMATION) ∧
  (∀ (Value : Type) this (env : Env Value) ctx maxAttempts
     iters attempt lastError w err,
     fn env (invocations w) = Throw err →
     ctor (classifyError (clock env (invocations w)) err) = AuthenticationError →
     let out := retryLoop this env ctx maxAttempts (S iters) attempt lastError w in
     out.1 = Throw (Some err) ∧
     invocations out.2 = S (invocations w) ∧
     sleeps (trace out.2) = sleeps (trace w)) ∧
  (∀ (Value : Type) this (env : Env Value) ctx maxAttempts err,
     1 ≤ default (maxRetries this) maxAttempts →
     fn env 0%nat = Throw err →
     ctor (classifyError (clock env 0%nat) err) = AuthenticationError →
     let out := executeWithRetry this env ctx maxAttempts in
     out.1 = Throw (Some err) ∧
     invocations out.2 = 1%nat ∧
     invokeCount (trace out.2) = 1%nat ∧
     sleeps (trace out.2) = []).
Proof.
  split; [|split].
  - intros this now err ctx H. rewrite determineAction_cases, H. reflexivity.
  - intros Value this env ctx maxAttempts iters attempt lastError w err Hfn Hauth.
    pose proof (retryLoop_authentication this env ctx maxAttempts iters attempt
                  lastError w err Hfn Hauth) as (H1 & H2 & _ & H4).
    done.
  - intros Value this env ctx maxAttempts err Hmax Hfn Hauth out. subst out.
    unfold executeWithRetry.
    destruct (Z.to_nat (default (maxRetries this) maxAttempts)) as [|k] eqn:Hk;
      [lia|].
    apply (retryLoop_authentication this env ctx _ k 1 None initialWorld err
             Hfn Hauth).
Qed.

(** An operation whose session has expired, wrapped with three attempts
    and a storage service for the log. *)
Lemma authentication_stops_immediately_witness :
  let env := mkEnv (Value := unit)
               (λ _, Throw (Generic (Error.new "Not authenticated with Instagram")))
               (λ _, 1 # 2)%Q (λ _, 0) in
  let out := executeWithRetry
               (new (Some {| StorageService.userId := Some "u1" |}))
               env {| attemptNumber := None; operation := Some "getAccountPosts" |}
               (Some 3) in
  invokeCount (trace out.2) = 1%nat ∧ sleeps (trace out.2) = [].
Proof.
  intros env out.
  destruct authentication_stops_immediately as (_ & _ & H).
  destruct (H unit (new (Some {| StorageService.userId := Some "u1" |})) env
              {| attemptNumber := None; operation := Some "getAccountPosts" |}
              (Some 3) (Generic (Error.new "Not authenticated with Instagram")))
    as (_ & _ & Hc & Hs).
  - simpl. lia.
  - reflexivity.
  - vm_compute. reflexivity.
  - split; [exact Hc|exact Hs].
Defined.

(** The loop never takes back a call of the operation. *)
Lemma retryLoop_invocations_mono {Value : Type} this (env : Env Value) ctx
    maxAttempts iters attempt lastError w :
  (invocations w ≤
   invocations (retryLoop this env ctx maxAttempts iters attempt lastError w).2)%nat.
Proof.
  revert attempt lastError w.
  induction iters as [|iters IH]; intros attempt lastError w; [done|].
  simpl retryLoop. destruct (fn env (invocations w)) as [v|err]; [simpl; lia|].
  set (ectx := {| attemptNumber := Some attempt; operation := operation ctx |}).
  set (w0 := emit Invoked _).
  pose proof (handleError_spec this (clock env (invocations w)) (random env)
                err ectx w0) as (_ & _ & Hinv & _).
  destruct (handleError this (clock env (invocations w)) (random env) err ectx w0)
    as [res w1] eqn:Hh.
  simpl in Hinv. unfold w0 in Hinv. simpl in Hinv.
  destruct (shouldStop res); [simpl; lia|].
  destruct (attempt >=? maxAttempts); [simpl; lia|].
  match goal with |- (_ ≤ invocations (retryLoop _ _ _ _ _ _ _ ?w2).2)%nat =>
    pose proof (IH (attempt + 1) (Some err) w2) as Hrec;
    assert (invocations w2 = invocations w1) as Hw2
      by (destruct (_ || _); reflexivity)
  end.
  lia.
Qed.

(** Whenever the first call fails with a validation error and more than
    one attempt is allowed, the operation is called again. *)
Lemma validation_failure_is_called_again {Value : Type} this (env : Env Value)
    ctx maxAttempts err :
  2 ≤ default (maxRetries this) maxAttempts →
  fn env 0%nat = Throw err →
  ctor (classifyError (clock env 0%nat) err) = ValidationError →
  (2 ≤ invocations (executeWithRetry this env ctx maxAttempts).2)%nat.
Proof.
  intros Hmax Hfn Hval. unfold executeWithRetry.
  destruct (Z.to_nat (default (maxRetries this) maxAttempts)) as [|[|k]] eqn:Hk;
    [lia|lia|].
  remember (S k) as iters eqn:Hiters.
  simpl retryLoop. rewrite Hfn.
  set (ectx := {| attemptNumber := Some 1; operation := operation ctx |}).
  set (w0 := emit Invoked _).
  pose proof (handleError_spec this (clock env 0%nat) (random env) err ectx w0)
    as (Hact & Hstop & Hinv & _).
  destruct (handleError this (clock env 0%nat) (random env) err ectx w0)
    as [res w1] eqn:Hh.
  simpl in Hact, Hstop, Hinv.
  rewrite determineAction_cases, Hval in Hact.
  rewrite Hact in Hstop |- *. rewrite Hstop. simpl.
  destruct (1 >=? default (maxRetries this) maxAttempts) eqn:Hge; [lia|].
  subst iters. simpl retryLoop.
  destruct (fn env (invocations w1)) as [v|err2]; [simpl; lia|].
  match goal with |- context [handleError ?a ?b ?c ?d ?e ?f] =>
    pose proof (handleError_spec a b c d e f) as (_ & _ & Hinv2 & _);
    destruct (handleError a b c d e f) as [res2 w3] eqn:Hh2
  end.
  simpl in Hinv2.
  destruct (shouldStop res2); [simpl; lia|].
  destruct (1 + 1 >=? default (maxRetries this) maxAttempts); [simpl; lia|].
  match goal with |- (_ ≤ invocations (retryLoop _ _ _ _ _ _ _ ?w4).2)%nat =>
    pose proof (retryLoop_invocations_mono this env ctx
                  (default (maxRetries this) maxAttempts) k (1 + 1 + 1)
                  (Some err2) w4) as Hrec;
    assert (invocations w4 = invocations w3) as Hw4
      by (destruct (_ || _); reflexivity)
  end.
  lia.
Qed.

(** C4. A validation error is answered with SKIP_AND_CONTINUE whatever
    the attempt number.  [executeWithRetry] does not act on that answer:
    an operation that fails with "Comment text is required" is called
    three times out of three, without a sleep in between, before the
    error is thrown. *)
Theorem validation_error_is_retried :
  (∀ this now msg fld det ctx,
     determineAction this (newValidationError now msg fld det) ctx
       = SKIP_AND_CONTINUE) ∧
  let failure := Generic (Error.new "Comment text is required") in
  let env := mkEnv (Value := unit) (λ _, Throw failure) (λ _, 1 # 2)%Q (λ _, 0) in
  let out := executeWithRetry (new None) env
               {| attemptNumber := None; operation := None |} None in
  ctor (classifyError 0 failure) = ValidationError ∧
  out.1 = Throw (Some failure) ∧
  invokeCount (trace out.2) = 3%nat ∧
  sleeps (trace out.2) = [].
Proof.
  split; [reflexivity|]. vm_compute. done.
Qed.

End Retry.

(** ** Backoff delays *)

Section Backoff.

Import ErrorHandlerService.

Local Open Scope Q_scope.

(** A finite number is kept in lowest terms. *)
Lemma fl_canonical q y : Js.fl q = Js.DFin y → Qred y = y.
Proof.
  unfold Js.fl. destruct (Qeq_bool q 0); [by intros [= <-]|].
  destruct (Qle_bool _ _); [discriminate|]. intros [= <-].
  apply Qred_complete, Qred_correct.
Qed.

(** The delay before jitter of the default handler is the number
    [min(1000 * 2^(n-1), 60000)]: the product is exact as long as it is
    finite, and an infinite one is capped as well. *)
Lemma default_backoff (n : Z) :
  (1 ≤ n)%Z →
  Js.minD (Js.mulD (Js.toDouble (Js.Int 1000)) (Js.powOfTwo (n - 1)))
          (Js.toDouble (Js.Int 60000))
    = Js.DFin (inject_Z (Z.min (1000 * 2 ^ (n - 1)) 60000)).
Proof.
  intros Hn. destruct (Z.le_gt_cases n 6) as [H6|H7].
  - assert (n = 1 ∨ n = 2 ∨ n = 3 ∨ n = 4 ∨ n = 5 ∨ n = 6)%Z
      as [->|[->|[->|[->|[->| ->]]]]] by lia; reflexivity.
  - assert (Hp : (2 ^ 6 ≤ 2 ^ (n - 1))%Z) by (apply Z.pow_le_mono_r; lia).
    rewrite Z.min_r by lia.
    assert (H64 : inject_Z 64 <= Js.pow2 (n - 1)).
    { rewrite pow2_nonneg by lia. rewrite <- Zle_Qle. lia. }
    pose proof (fl_ge 64 _ ltac:(lia) H64) as Hge.
    unfold Js.powOfTwo. cbn [Js.toDouble].
    destruct (Js.fl (Js.pow2 (n - 1))) as [|[|]|x] eqn:Ex;
      [discriminate Hge|discriminate Hge|reflexivity|].
    simpl in Hge. apply Qle_bool_iff in Hge.
    cbn [Js.mulD].
    assert (H60 : inject_Z 60000 <= inject_Z 1000 * x).
    { apply Qle_trans with (inject_Z 1000 * inject_Z 64).
      - rewrite <- inject_Z_mult, <- Zle_Qle. lia.
      - apply Qmult_le_l; [reflexivity|done]. }
    pose proof (fl_ge 60000 _ ltac:(lia) H60) as Hge'.
    destruct (Js.fl (inject_Z 1000 * x)) as [|[|]|y] eqn:Ey;
      [discriminate Hge'|discriminate Hge'|reflexivity|].
    simpl in Hge'. apply Qle_bool_iff in Hge'.
    unfold Js.minD, Js.leD.
    destruct (Qle_bool y (inject_Z 60000)) eqn:Ele; [|reflexivity].
    apply Qle_bool_iff in Ele.
    assert (Hy : y == inject_Z 60000) by (by apply Qle_antisym).
    f_equal. rewrite <- (fl_canonical _ _ Ey).
    apply (Qred_complete _ _ Hy).
Qed.

(** Jitter around an integer [b] with an integer amplitude [a] stays
    within [b - a] and [b + a], both ends included: every rounding on the
    way keeps its result on the same side of an integer bound.  The
    roundings move the result by less than one, so that its floor is at
    most one away from the floor of the exact value. *)
Lemma jitter_range (b a : Z) (rnd : Q) :
  (0 ≤ a ≤ 12000)%Z → (a ≤ b ≤ 60000)%Z → 0 <= rnd → rnd < 1 →
  ∃ d, Js.floorD
         (Js.addD (Js.DFin (inject_Z b))
            (Js.mulD (Js.DFin (inject_Z a))
               (Js.subD (Js.mulD (Js.DFin rnd) (Js.DFin 2)) (Js.DFin 1))))
       = Js.Int d ∧ (b - a ≤ d ≤ b + a)%Z ∧
       let x := inject_Z b + inject_Z a * (rnd * 2 - 1) in
       (Qfloor x - 1 ≤ d ≤ Qfloor x + 1)%Z.
Proof.
  intros Ha Hb H0 H1.
  assert (Hpow : (2 ^ 53 = 9007199254740992)%Z) by reflexivity.
  assert (Ha0 : 0 <= inject_Z a).
  { change 0 with (inject_Z 0). rewrite <- Zle_Qle. lia. }
  assert (Ha1 : inject_Z a <= 12000).
  { change 12000 with (inject_Z 12000). rewrite <- Zle_Qle. lia. }
  assert (Hb1 : inject_Z b <= 60000).
  { change 60000 with (inject_Z 60000). rewrite <- Zle_Qle. lia. }
  assert (Hab : inject_Z a <= inject_Z b) by (rewrite <- Zle_Qle; lia).
  assert (P53 : Js.pow2 (0 - 53) == 1 # 9007199254740992) by reflexivity.
  assert (P40 : Js.pow2 (13 - 53) == 1 # 1099511627776) by reflexivity.
  assert (P37 : Js.pow2 (16 - 53) == 1 # 137438953472) by reflexivity.
  cbn [Js.mulD].
  destruct (fl_bounds 0 2 (rnd * 2)) as (q1 & E1 & L1 & U1);
    [lia|lia|change (inject_Z 0) with 0; lra
    |change (inject_Z 2) with 2; lra|].
  destruct (fl_error 0 (rnd * 2)) as (q1' & E1' & A1 & B1);
    [lia|change (Js.pow2 (0 + 1)) with 2; apply Qabs_case; intros _; lra|].
  rewrite E1 in E1' |- *. injection E1' as <-.
  change (inject_Z 0) with 0 in L1. change (inject_Z 2) with 2 in U1.
  unfold Js.subD. cbn [Js.oppD Js.addD].
  destruct (fl_bounds (-1) 1 (q1 + - (1))) as (q2 & E2 & L2 & U2);
    [lia|lia|change (inject_Z (-1)) with (-1 # 1); lra
    |change (inject_Z 1) with 1; lra|].
  destruct (fl_error 0 (q1 + - (1))) as (q2' & E2' & A2 & B2);
    [lia|change (Js.pow2 (0 + 1)) with 2; apply Qabs_case; intros _; lra|].
  rewrite E2 in E2' |- *. injection E2' as <-.
  change (inject_Z (-1)) with (-1 # 1) in L2.
  change (inject_Z 1) with 1 in U2.
  cbn [Js.mulD].
  destruct (fl_bounds (- a) a (inject_Z a * q2)) as (q3 & E3 & L3 & U3);
    [lia|lia| | |].
  { rewrite inject_Z_opp. nra. }
  { nra. }
  destruct (fl_error 13 (inject_Z a * q2)) as (q3' & E3' & A3 & B3); [lia| |].
  { change (Js.pow2 (13 + 1)) with 16384. apply Qabs_case; intros _; nra. }
  rewrite E3 in E3' |- *. injection E3' as <-.
  rewrite inject_Z_opp in L3.
  cbn [Js.addD].
  destruct (fl_bounds (b - a) (b + a) (inject_Z b + q3))
    as (q4 & E4 & L4 & U4); [lia|lia| | |].
  { unfold Z.sub. rewrite inject_Z_plus, inject_Z_opp. lra. }
  { rewrite inject_Z_plus. lra. }
  destruct (fl_error 16 (inject_Z b + q3)) as (q4' & E4' & A4 & B4); [lia| |].
  { change (Js.pow2 (16 + 1)) with 131072. apply Qabs_case; intros _; lra. }
  rewrite E4 in E4' |- *. injection E4' as <-.
  exists (Qfloor q4). split; [reflexivity|]. split.
  { split.
    - rewrite <- (Qfloor_Z (b - a)). by apply Qfloor_resp_le.
    - rewrite <- (Qfloor_Z (b + a)). by apply Qfloor_resp_le. }
  cbv zeta. set (x := inject_Z b + inject_Z a * (rnd * 2 - 1)).
  assert (Hx1 : q4 - x < 1) by (unfold x; nra).
  assert (Hx2 : x - q4 < 1) by (unfold x; nra).
  pose proof (Qfloor_le q4) as F1. pose proof (Qlt_floor q4) as F2.
  pose proof (Qfloor_le x) as F3. pose proof (Qlt_floor x) as F4.
  rewrite inject_Z_plus in F2, F4. change (inject_Z 1) with 1 in F2, F4.
  split.
  - assert (H : inject_Z (Qfloor x - 2) < inject_Z (Qfloor q4)).
    { unfold Z.sub. rewrite inject_Z_plus.
      change (inject_Z (- (2))) with (-2 # 1). lra. }
    rewrite <- Zlt_Qlt in H. lia.
  - assert (H : inject_Z (Qfloor q4) < inject_Z (Qfloor x + 2)).
    { rewrite inject_Z_plus. change (inject_Z 2) with 2. lra. }
    rewrite <- Zlt_Qlt in H. lia.
Qed.

(** C5, as the code has it.  For every attempt n ≥ 1 and every jitter
    outcome in [0, 1), the delay of the default handler is an integer
    within 20 % of b = min(1000 * 2^(n-1), 60000), both ends included: it
    lies in [0.8 * b, 1.2 * b] and is at most 72000.  It is the floor of
    b + 0.2 * b * (2 * rnd - 1) as binary64 arithmetic computes it, which
    is at most one away from the floor of the exact value.  Up to the
    sixth attempt the interval is [0.8 * 1000 * 2^(n-1), 1.2 * 1000 * 2^(n-1)]
    and the delay stays below 60000; from the seventh attempt on the
    delay lies in [48000, 72000]. *)
Theorem calculateBackoff_bounds (n : Z) (rnd : Q) :
  (1 ≤ n)%Z → 0 <= rnd → rnd < 1 →
  let b := Z.min (1000 * 2 ^ (n - 1)) 60000 in
  let x := inject_Z b + inject_Z b * (2 # 10) * (rnd * 2 - 1) in
  ∃ d, calculateBackoff (new None) n rnd = Js.Int d ∧
       (4 * b ≤ 5 * d)%Z ∧ (5 * d ≤ 6 * b)%Z ∧ (d ≤ 72000)%Z ∧
       (Qfloor x - 1 ≤ d ≤ Qfloor x + 1)%Z ∧
       (n ≤ 6 → 800 * 2 ^ (n - 1) ≤ d ∧ d ≤ 1200 * 2 ^ (n - 1) ∧ d < 60000)%Z ∧
       (7 ≤ n → 48000 ≤ d)%Z.
Proof.
  intros Hn H0 H1 b x. unfold calculateBackoff.
  change (baseBackoffMs (new None)) with 1000%Z.
  change (maxBackoffMs (new None)) with 60000%Z.
  rewrite (default_backoff n Hn). fold b.
  assert (Hamp : ∃ a, (b = 5 * a)%Z ∧ (0 < a ≤ 12000)%Z ∧
            Js.mulD (Js.DFin (inject_Z b)) (Js.fl (2 # 10))
              = Js.DFin (inject_Z a)).
  { destruct (Z.le_gt_cases n 6) as [H6|H7].
    - assert (n = 1 ∨ n = 2 ∨ n = 3 ∨ n = 4 ∨ n = 5 ∨ n = 6)%Z
        as [->|[->|[->|[->|[->| ->]]]]] by lia;
        [exists 200%Z|exists 400%Z|exists 800%Z|exists 1600%Z|exists 3200%Z
        |exists 6400%Z];
        (split; [reflexivity|]; split; [lia|]; reflexivity).
    - assert (Hp : (2 ^ 6 ≤ 2 ^ (n - 1))%Z) by (apply Z.pow_le_mono_r; lia).
      assert (b = 60000%Z) as -> by (unfold b; lia).
      exists 12000%Z. split; [reflexivity|]. split; [lia|]. reflexivity. }
  destruct Hamp as (a & Hb & Ha & ->).
  destruct (jitter_range b a rnd) as (d & -> & Hd & Hx);
    [lia|lia|done|done|].
  exists d. split; [reflexivity|].
  split; [lia|]. split; [lia|]. split; [lia|]. split; [|split].
  - cbv zeta in Hx.
    assert (Heq : x == inject_Z b + inject_Z a * (rnd * 2 - 1)).
    { unfold x. rewrite Hb, inject_Z_mult. change (inject_Z 5) with 5.
      field. }
    by rewrite (Qfloor_comp _ _ Heq).
  - intros H6.
    assert (2 ^ (n - 1) ≤ 2 ^ 5)%Z by (apply Z.pow_le_mono_r; lia).
    assert (0 < 2 ^ (n - 1))%Z by (apply Z.pow_pos_nonneg; lia).
    unfold b in *. lia.
  - intros H7.
    assert (2 ^ 6 ≤ 2 ^ (n - 1))%Z by (apply Z.pow_le_mono_r; lia).
    unfold b in *. lia.
Qed.

(** The third attempt with the jitter at its lowest. *)
Lemma calculateBackoff_bounds_witness :
  ∃ d, calculateBackoff (new None) 3 0 = Js.Int d ∧ (3200 ≤ d ≤ 4800)%Z.
Proof.
  assert (H0 : 0 <= 0) by apply Qle_refl.
  assert (H1 : 0 < 1) by reflexivity.
  destruct (calculateBackoff_bounds 3 0 ltac:(lia) H0 H1)
    as (d & Hd & _ & _ & _ & _ & H6 & _).
  destruct (H6 ltac:(lia)) as (Hlo & Hhi & _).
  exists d. split; [exact Hd|]. split; [exact Hlo|exact Hhi].
Defined.

(** C5, as stated, fails from the seventh attempt on: the cap is applied
    before the jitter, so the delay can exceed 60000 (69000 at n = 7 with
    the jitter outcome 0.875). *)
Lemma backoff_exceeds_cap :
  ¬ (∀ (n : Z) (rnd : Q),
       (1 ≤ n)%Z → 0 <= rnd → rnd < 1 →
       ∃ d, calculateBackoff (new None) n rnd = Js.Int d ∧
            (800 * 2 ^ (n - 1) ≤ d ∧ d ≤ 1200 * 2 ^ (n - 1) ∧ d ≤ 60000)%Z).
Proof.
  intros H.
  assert (H0 : 0 <= 7 # 8) by discriminate.
  assert (H1 : 7 # 8 < 1) by reflexivity.
  destruct (H 7%Z (7 # 8) ltac:(lia) H0 H1) as (d & Hd & _ & _ & Hcap).
  vm_compute in Hd. injection Hd as <-. lia.
Qed.

(** The delays at both ends of the jitter: the lower end at the outcome
    0, the upper end, which rounding reaches, at the outcome 1 - 2^-52. *)
Example jitter_extremes :
  calculateBackoff (new None) 1 0 = Js.Int 800 ∧
  calculateBackoff (new None) 1 (1 - (1 # 2 ^ 52)) = Js.Int 1200 ∧
  calculateBackoff (new None) 7 0 = Js.Int 48000 ∧
  calculateBackoff (new None) 7 (7 # 8) = Js.Int 69000 ∧
  calculateBackoff (new None) 7 (1 - (1 # 2 ^ 52)) = Js.Int 72000.
Proof. repeat split; vm_compute; reflexivity. Qed.

End Backoff.

(** * Further properties *)

(** ** The request budget: which calls are let through *)

Section Budget.

Import InstagramService.

Implicit Types (s : InstagramService.t) (times : list Z).

(** A call is let through exactly when, after the possible reset, the
    counter is below the limit. *)
Lemma checkRateLimit_accepts now s :
  0 ≤ requestCount s → requestCount s < maxRequestsPerHour s →
  (_checkRateLimit now s).1 = Return true ∧
  0 ≤ requestCount (_checkRateLimit now s).2 ≤ requestCount s + 1 ∧
  maxRequestsPerHour (_checkRateLimit now s).2 = maxRequestsPerHour s.
Proof.
  intros H0 Hlt. unfold _checkRateLimit.
  destruct (now - requestWindowStart s >? requestWindow s) eqn:Hw; simpl.
  - destruct (0 >=? maxRequestsPerHour s) eqn:Hge; [lia|].
    simpl. repeat split; (done || lia).
  - destruct (requestCount s >=? maxRequestsPerHour s) eqn:Hge; [lia|].
    simpl. repeat split; (done || lia).
Qed.

Lemma calls_accepted_while_room times s :
  0 ≤ requestCount s →
  requestCount s + Z.of_nat (length times) ≤ maxRequestsPerHour s →
  (calls times s).1 = replicate (length times) (Return true).
Proof.
  revert s. induction times as [|now rest IH]; intros s H0 Hle; [done|].
  simpl in Hle. simpl calls.
  destruct (checkRateLimit_accepts now s H0 ltac:(lia)) as (Hr & Hc & Hm).
  destruct (_checkRateLimit now s) as [r s1]. simpl in Hr, Hc, Hm. subst r.
  specialize (IH s1 ltac:(lia) ltac:(lia)).
  destruct (calls rest s1) as [rs s2]. simpl in IH |- *. by rewrite IH.
Qed.

(** While requests are left in the budget no call is rejected, whatever
    the clock does: from a counter [c ≥ 0], the next [limit - c] calls all
    return [true], and the counter stays within the limit. *)
Theorem calls_under_budget_accepted times s :
  0 ≤ requestCount s →
  requestCount s + Z.of_nat (length times) ≤ maxRequestsPerHour s →
  (calls times s).1 = replicate (length times) (Return true) ∧
  withinBudget (calls times s).2.
Proof.
  intros H0 Hle. split; [by apply calls_accepted_while_room|].
  apply calls_withinBudget; unfold withinBudget; lia.
Qed.

(** Three calls on a fresh service, two of them after the first window. *)
Lemma calls_under_budget_accepted_witness :
  (calls [5; 4000000; 4000001] (InstagramService.new 0)).1
    = [Return true; Return true; Return true].
Proof.
  apply (calls_under_budget_accepted [5; 4000000; 4000001]
           (InstagramService.new 0)); simpl; lia.
Defined.

Lemma calls_inside_window_exhausted times s :
  insideWindow s times →
  maxRequestsPerHour s ≤ requestCount s →
  (calls times s).2 = s ∧ Forall (λ r, accepted r = false) (calls times s).1.
Proof.
  unfold insideWindow. induction 1 as [|now rest Hnow Hrest IH]; intros Hfull;
    [by split|].
  simpl calls. unfold _checkRateLimit.
  destruct (now - requestWindowStart s >? requestWindow s) eqn:Hw; [lia|].
  destruct (requestCount s >=? maxRequestsPerHour s) eqn:Hge; [|lia].
  destruct (IH Hfull) as [Hs Hall].
  destruct (calls rest s) as [rs s2]. simpl in *. subst s2.
  split; [done|]. by constructor.
Qed.

(** Inside one window exactly the requests left in the budget are let
    through: of [n] calls made before the window has passed, the first
    [min(n, limit - count)] return [true], every later one is rejected,
    the counter ends at [count] plus the number let through, and the
    window start does not move. *)
Theorem calls_inside_window times s :
  0 ≤ requestCount s ≤ maxRequestsPerHour s →
  insideWindow s times →
  let k := Nat.min (length times)
                   (Z.to_nat (maxRequestsPerHour s - requestCount s)) in
  take k (calls times s).1 = replicate k (Return true) ∧
  Forall (λ r, accepted r = false) (drop k (calls times s).1) ∧
  requestCount (calls times s).2 = requestCount s + Z.of_nat k ∧
  requestWindowStart (calls times s).2 = requestWindowStart s.
Proof.
  revert s. induction times as [|now rest IH]; intros s Hc Hin k.
  { subst k. simpl. repeat split; [constructor|lia]. }
  destruct (decide (requestCount s = maxRequestsPerHour s)) as [Hfull|Hroom].
  - assert (k = 0%nat) as -> by (subst k; lia).
    destruct (calls_inside_window_exhausted (now :: rest) s Hin ltac:(lia))
      as [Hs Hall].
    rewrite Hs. simpl take. simpl drop. repeat split; [done|lia].
  - subst k. inversion Hin as [|? ? Hnow Hrest]; subst.
    simpl calls. unfold _checkRateLimit.
    destruct (now - requestWindowStart s >? requestWindow s) eqn:Hw; [lia|].
    destruct (requestCount s >=? maxRequestsPerHour s) eqn:Hge; [lia|].
    set (s1 := InstagramService.mk _ _ _ _ _).
    specialize (IH s1). simpl in IH.
    destruct (IH ltac:(lia) Hrest) as (Ht & Hd & Hcnt & Hst).
    destruct (calls rest s1) as [rs s2]. simpl in Ht, Hd, Hcnt, Hst |- *.
    replace (Z.to_nat (maxRequestsPerHour s - requestCount s))
      with (S (Z.to_nat (maxRequestsPerHour s - (requestCount s + 1)))) by lia.
    simpl. rewrite Ht. repeat split; [done|lia|done].
Qed.

(** Two requests are left; the third call, at the very end of the window,
    is rejected. *)
Lemma calls_inside_window_witness :
  let s := {| isAuthenticated := true; requestCount := 198;
              requestWindowStart := 0; maxRequestsPerHour := 200;
              requestWindow := 3600000 |} in
  take 2 (calls [10; 20; 3600000] s).1 = [Return true; Return true] ∧
  requestCount (calls [10; 20; 3600000] s).2 = 200.
Proof.
  intros s.
  assert (Hc : 0 ≤ requestCount s ≤ maxRequestsPerHour s) by (simpl; lia).
  assert (Hin : insideWindow s [10; 20; 3600000]).
  { repeat constructor; simpl; lia. }
  destruct (calls_inside_window [10; 20; 3600000] s Hc Hin) as (Ht & _ & Hn & _).
  split; [exact Ht|exact Hn].
Defined.

End Budget.

(** ** A rejected request, classified *)

Section Rejection.

Import Decimal InstagramService ErrorHandlerService.

(** The text of a rejection, with the minutes as a decimal numeral. *)
Lemma rejection_text_classified now d :
  d ≠ Nil →
  let e := Error.new ("Instagram rate limit reached. Please wait " +:+
                      NilEmpty.string_of_uint d +:+ " minutes.") in
  ctor (classifyError now (Generic e)) = RateLimitError ∧
  retryAfter (classifyError now (Generic e))
    = Some (Js.orNum
              (Some (Js.mul (Js.mul (Js.roundZ (Z.of_N (Pos.of_uint d))) 60)
                            1000))
              (Js.Int 60000)).
Proof.
  intros Hd e.
  assert (Hauth : isAuthMessage (Js.toLowerCase (Error.message e)) = false).
  { unfold e. cbn [Error.message Error.new].
    rewrite !toLowerCase_app, toLowerCase_digits.
    change (Js.toLowerCase "Instagram rate limit reached. Please wait ")
      with "instagram rate limit reached. please wait ".
    change (Js.toLowerCase " minutes.") with " minutes.".
    unfold isAuthMessage.
    set (p := "instagram rate limit reached. please wait ").
    rewrite (includes_skip p _ "authentication"), (includes_skip p _ "login"),
      (includes_skip p _ "invalid credentials"),
      (includes_skip p _ "challenge_required"),
      (includes_skip p _ "checkpoint_required"),
      (includes_skip p _ "not authenticated") by reflexivity.
    rewrite !includes_digits by reflexivity. reflexivity. }
  assert (Hrate : isRateLimitMessage (Js.toLowerCase (Error.message e)) = true).
  { unfold e. cbn [Error.message Error.new].
    rewrite toLowerCase_app. unfold isRateLimitMessage.
    rewrite (includes_app_l _ _ "rate limit") by reflexivity. reflexivity. }
  assert (Hextract : extractRetryAfter e
            = Some (Js.mul (Js.mul (Js.roundZ (Z.of_N (Pos.of_uint d))) 60)
                           1000)).
  { unfold extractRetryAfter, e. cbn [Error.response Error.message Error.new].
    rewrite regexMatch_skip by reflexivity.
    rewrite regexMatch_unfold. unfold matchAt.
    rewrite span_digits by reflexivity.
    assert (Js.truthyStr (NilEmpty.string_of_uint d) = true) as ->
      by (destruct d; done).
    cbn [negb]. change (Js.span Js.isSpace " minutes.") with (" ", "minutes.").
    cbv iota beta.
    change (Js.toLowerCase "minutes.") with "minutes.".
    change (Js.startsWith "minutes." "minute") with true. cbv iota.
    change (String.substring 0 6 "minutes.") with "minute".
    rewrite (parseInt_uint d Hd).
    reflexivity. }
  unfold classifyError. rewrite Hauth, Hrate, Hextract. split; reflexivity.
Qed.

(** The wait a rejection of the budget check carries once classified:
    the printed minutes, read back and multiplied as numbers. *)
Lemma rejection_wait (now : Z) (s : InstagramService.t) (e : Error.t)
    (clock : Z) :
  0 < maxRequestsPerHour s →
  (_checkRateLimit now s).1 = Throw e →
  let t := requestWindow s - (now - requestWindowStart s) in
  let minutes := Z.max 1 (Js.ceilDiv t 60000) in
  let c := classifyError clock (Generic e) in
  ctor c = RateLimitError ∧
  retryAfter c = Some (Js.mul (Js.mul (Js.roundZ minutes) 60) 1000) ∧
  Js.positiveNum (Js.mul (Js.mul (Js.roundZ minutes) 60) 1000) ∧
  0 ≤ t ≤ minutes * 60000 ∧
  message c = Error.message e ∧ recoverable c = true.
Proof.
  intros Hmax Hthrow t minutes c.
  unfold _checkRateLimit in Hthrow.
  destruct (now - requestWindowStart s >? requestWindow s) eqn:Hw.
  { simpl in Hthrow. destruct (0 >=? maxRequestsPerHour s) eqn:Hge; [lia|].
    discriminate Hthrow. }
  destruct (requestCount s >=? maxRequestsPerHour s) eqn:Hge;
    [|discriminate Hthrow].
  simpl in Hthrow. injection Hthrow as <-. fold t in c.
  assert (Ht : 0 ≤ t) by (unfold t; lia).
  assert (Hm : 0 ≤ Js.ceilDiv t 60000).
  { unfold Js.ceilDiv. pose proof (Z.div_le_upper_bound (- t) 60000 0). lia. }
  assert (Hceil : t ≤ Js.ceilDiv t 60000 * 60000).
  { unfold Js.ceilDiv. pose proof (Z.mul_div_le (- t) 60000). lia. }
  assert (Hpos : Js.positiveNum (Js.mul (Js.mul (Js.roundZ minutes) 60) 1000)).
  { apply mul_positive; [|lia]. apply mul_positive; [|lia].
    apply roundZ_positive. unfold minutes. lia. }
  destruct (showZ_uint _ Hm) as (d & Hd & Hshow & Hval).
  destruct (rejection_text_classified clock d Hd) as [Hc Hr].
  assert (Hmr : message c = Error.message
                  (Error.new ("Instagram rate limit reached. Please wait " +:+
                              Js.showZ (Js.ceilDiv t 60000) +:+ " minutes.")) ∧
                recoverable c = true).
  { revert Hc. subst c. rewrite Hshow. cbv zeta. unfold classifyError.
    destruct (isAuthMessage _); [discriminate|].
    destruct (isRateLimitMessage _); [done|].
    destruct (isNetworkMessage _); [discriminate|].
    destruct (isApiMessage _ || truthyStatus _); [discriminate|].
    destruct (isValidationMessage _); discriminate. }
  split; [|split; [|split; [done|split; [|exact Hmr]]]].
  - subst c. rewrite Hshow. exact Hc.
  - subst c. rewrite Hshow. cbv zeta in Hr. rewrite Hr, Hval.
    destruct (decide (Js.ceilDiv t 60000 = 0)) as [H0|H0].
    + unfold minutes. rewrite H0. reflexivity.
    + assert (minutes = Js.ceilDiv t 60000) as Hmin by (unfold minutes; lia).
      rewrite Hmin in Hpos |- *. unfold Js.orNum.
      by rewrite (positive_truthy _ Hpos).
  - unfold minutes; lia.
Qed.

(** A request rejected by the budget check throws an error that
    [classifyError] recognises as a rate limit.  The minutes printed in its
    message are read back by [extractRetryAfter]: the error carries a wait
    of [max(1, ceil(t / 60000))] minutes, where [t] is the time left in the
    window, converted to milliseconds as numbers are; below [2^53] that
    is the product itself, which is never shorter than [t].  The decided
    action is WAIT_AND_RETRY. *)
Theorem rejection_classified_as_rate_limit
    (now : Z) (s : InstagramService.t) (e : Error.t)
    (this : ErrorHandler) (clock : Z) (ctx : Context) :
  0 < maxRequestsPerHour s →
  (_checkRateLimit now s).1 = Throw e →
  let t := requestWindow s - (now - requestWindowStart s) in
  let minutes := Z.max 1 (Js.ceilDiv t 60000) in
  let wait := minutes * 60000 in
  let c := classifyError clock (Generic e) in
  ctor c = RateLimitError ∧
  retryAfter c = Some (Js.mul (Js.mul (Js.roundZ minutes) 60) 1000) ∧
  (wait < 2 ^ 53 → retryAfter c = Some (Js.Int wait)) ∧
  0 ≤ t ≤ wait ∧
  determineAction this c ctx = WAIT_AND_RETRY.
Proof.
  intros Hmax Hthrow t minutes wait c. subst t minutes wait c.
  destruct (rejection_wait now s e clock Hmax Hthrow)
    as (Hc & Hr & _ & Hb & _).
  split; [done|]. split; [done|]. split; [|split; [done|]].
  - intros Hw. rewrite Hr.
    rewrite roundZ_small by lia. rewrite !mul_small by lia.
    do 2 f_equal. lia.
  - by rewrite determineAction_cases, Hc.
Qed.

(** The budget used up five minutes and a bit before the window ends. *)
Lemma rejection_classified_as_rate_limit_witness :
  let s := {| isAuthenticated := true; requestCount := 200;
              requestWindowStart := 0; maxRequestsPerHour := 200;
              requestWindow := 3600000 |} in
  retryAfter (classifyError 7
    (Generic (Error.new "Instagram rate limit reached. Please wait 6 minutes.")))
  = Some (Js.Int 360000).
Proof.
  intros s.
  assert (Hmax : 0 < maxRequestsPerHour s) by (simpl; lia).
  destruct (rejection_classified_as_rate_limit 3299000 s
              (Error.new "Instagram rate limit reached. Please wait 6 minutes.")
              (new None) 7 {| attemptNumber := None; operation := None |}
              Hmax eq_refl) as (_ & _ & Hr & _).
  apply Hr. reflexivity.
Defined.

(** When a handler with a storage service handles a rejection of the
    budget check, the log receives two entries, the error itself and a
    notification with the action WAIT_AND_RETRY; automation is not stopped
    and no random value is drawn.  The notification announces the wait
    carried by the error in minutes, and that wait is handed back.  For a
    wait below [2^53] milliseconds these are the minutes as the limiter
    printed them (at least one) and that number of minutes in
    milliseconds. *)
Theorem rejection_notification
    (now : Z) (s : InstagramService.t) (e : Error.t)
    (this : ErrorHandler) (st : StorageService.t) (clock : Z)
    (random : nat → Q) (ctx : Context) (w : World) :
  0 < maxRequestsPerHour s →
  (_checkRateLimit now s).1 = Throw e →
  storageService this = Some st →
  let t := requestWindow s - (now - requestWindowStart s) in
  let minutes := Z.max 1 (Js.ceilDiv t 60000) in
  let ms := Js.mul (Js.mul (Js.roundZ minutes) 60) 1000 in
  let shown := Js.numberToString (Js.ceilD (Js.divD (Js.toDouble ms) 60000)) in
  let out := handleError this clock random (Generic e) ctx w in
  trace out.2 = trace w ++
    [ AppendLog {| logType := "error"; logMessage := Error.message e;
                   errorType := "RateLimitError"; logRecoverable := true;
                   logAction := None |};
      AppendLog {| logType := "error";
                   logMessage :=
                     "Rate limit reached. Automation will resume in approximately "
                     +:+ shown +:+ " minute(s).";
                   errorType := "RateLimitError"; logRecoverable := true;
                   logAction := Some WAIT_AND_RETRY |} ] ∧
  resultRetryAfter out.1 = ms ∧
  (minutes * 60000 < 2 ^ 53 →
   shown = Js.showZ minutes ∧ ms = Js.Int (minutes * 60000)) ∧
  shouldStop out.1 = false ∧
  draws out.2 = draws w.
Proof.
  intros Hmax Hthrow Hst t minutes ms shown out.
  destruct (rejection_wait now s e clock Hmax Hthrow)
    as (Hc & Hr & Hpos & Hb & Hm & Hrec).
  fold t in Hr, Hpos, Hb. fold minutes in Hr, Hpos, Hb.
  fold ms in Hr, Hpos.
  assert (Hmin : 1 ≤ minutes) by (unfold minutes; lia).
  assert (Hact : determineAction this (classifyError clock (Generic e)) ctx
                 = WAIT_AND_RETRY).
  { rewrite determineAction_cases. by rewrite Hc. }
  assert (Hsmall : minutes * 60000 < 2 ^ 53 → ms = Js.Int (minutes * 60000)).
  { intros Hw. unfold ms. rewrite roundZ_small by lia.
    rewrite !mul_small by lia. f_equal. lia. }
  subst out. unfold handleError, logError, notifyFrontend.
  rewrite Hst, Hr, Hact, Hm, Hrec, (positive_truthy _ Hpos).
  unfold name. rewrite Hc.
  cbn [emit trace fst snd resultRetryAfter shouldStop draws].
  rewrite <- app_assoc. split; [|split; [|split; [|split]]].
  - unfold getUserFriendlyMessage, instanceOf. rewrite Hc, Hr.
    rewrite bool_decide_eq_false_2 by discriminate.
    rewrite bool_decide_eq_true_2 by reflexivity.
    unfold Js.orNum. by rewrite (positive_truthy _ Hpos).
  - done.
  - intros Hw. split; [|by apply Hsmall].
    unfold shown. rewrite (Hsmall Hw). rewrite ceil_minutes by lia.
    unfold Js.numberToString.
    destruct (Z.abs minutes <? 2 ^ 53) eqn:E; [done|lia].
  - done.
  - done.
Qed.

(** The handler of a user's storage service meets a rejection issued five
    and a half minutes before the window ends. *)
Lemma rejection_notification_witness :
  let s := {| isAuthenticated := true; requestCount := 200;
              requestWindowStart := 0; maxRequestsPerHour := 200;
              requestWindow := 3600000 |} in
  let e := Error.new "Instagram rate limit reached. Please wait 6 minutes." in
  let this := new (Some {| StorageService.userId := Some "u1" |}) in
  let ctx := {| attemptNumber := None; operation := None |} in
  let w := {| invocations := 0; draws := 0; trace := [] |} in
  resultRetryAfter (handleError this 7 (λ _, 0%Q) (Generic e) ctx w).1
    = Js.Int 360000.
Proof.
  intros s e this ctx w.
  assert (Hmax : 0 < maxRequestsPerHour s) by (simpl; lia).
  destruct (rejection_notification 3299000 s e this
              {| StorageService.userId := Some "u1" |} 7 (λ _, 0%Q) ctx w
              Hmax eq_refl eq_refl) as (_ & Hr & Hs & _).
  rewrite Hr. apply Hs. reflexivity.
Defined.

End Rejection.

(** ** executeWithRetry: how many calls, which result, which delays *)

Section RetryRuns.

Import ErrorHandlerService.

Context {Value : Type}.

Implicit Types (this : ErrorHandler) (env : Env Value) (w : World)
  (ctx : Context).

Lemma sleeps_app t1 t2 : sleeps (t1 ++ t2) = sleeps t1 ++ sleeps t2.
Proof. apply omap_app. Qed.

Lemma invokeCount_app t1 t2 :
  invokeCount (t1 ++ t2) = (invokeCount t1 + invokeCount t2)%nat.
Proof. unfold invokeCount. by rewrite omap_app, length_app. Qed.

(** An iteration of the loop calls the operation. *)
Lemma retryLoop_calls_once this env ctx maxAttempts iters attempt lastError w :
  (S (invocations w) ≤
   invocations (retryLoop this env ctx maxAttempts (S iters) attempt lastError w).2)%nat.
Proof.
  simpl retryLoop.
  destruct (fn env (invocations w)) as [v|err]; [simpl; lia|].
  match goal with |- context [handleError ?a ?b ?c ?d ?e ?f] =>
    pose proof (handleError_spec a b c d e f) as (_ & _ & Hinv & _);
    destruct (handleError a b c d e f) as [res w1]
  end.
  simpl in Hinv.
  destruct (shouldStop res); [simpl; lia|].
  destruct (attempt >=? maxAttempts); [simpl; lia|].
  match goal with |- (_ ≤ invocations (retryLoop _ _ _ _ _ _ _ ?x).2)%nat =>
    pose proof (retryLoop_invocations_mono this env ctx maxAttempts iters
                  (attempt + 1) (Some err) x) as Hmono;
    assert (invocations x = invocations w1) as Hx
      by (destruct (_ || _); reflexivity)
  end.
  lia.
Qed.

(** The loop keeps its counts in step: the calls of the operation are
    bounded by the iterations left, every call is in the trace, and every
    sleep is followed by another call. *)
Lemma retryLoop_counts this env ctx maxAttempts iters attempt lastError w :
  maxAttempts + 1 ≤ attempt + Z.of_nat iters →
  let out := retryLoop this env ctx maxAttempts iters attempt lastError w in
  (invocations w ≤ invocations out.2 ≤ invocations w + iters)%nat ∧
  (invokeCount (trace out.2) + invocations w
     = invokeCount (trace w) + invocations out.2)%nat ∧
  (length (sleeps (trace w)) ≤ length (sleeps (trace out.2)))%nat ∧
  (length (sleeps (trace out.2)) + invocations w
     ≤ length (sleeps (trace w)) + pred (invocations out.2))%nat ∨
  out.2 = w.
Proof.
  revert attempt lastError w.
  induction iters as [|iters IH]; intros attempt lastError w Hrel out.
  { right. reflexivity. }
  left. subst out. simpl retryLoop.
  set (w0 := emit Invoked _).
  assert (Hw0 : invocations w0 = S (invocations w) ∧
                invokeCount (trace w0) = S (invokeCount (trace w)) ∧
                sleeps (trace w0) = sleeps (trace w)).
  { unfold w0. simpl. rewrite invokeCount_app, sleeps_app. simpl.
    rewrite app_nil_r. split; [done|]. split; [|done].
    unfold invokeCount at 2. simpl. lia. }
  destruct Hw0 as (Hi0 & Hc0 & Hs0). clearbody w0.
  destruct (fn env (invocations w)) as [v|err].
  { simpl. rewrite Hi0, Hc0, Hs0. lia. }
  set (ectx := {| attemptNumber := Some attempt; operation := operation ctx |}).
  pose proof (handleError_spec this (clock env (invocations w)) (random env)
                err ectx w0) as (_ & _ & Hinv & Hsl & Hic).
  destruct (handleError this (clock env (invocations w)) (random env) err ectx w0)
    as [res w1] eqn:Hh.
  simpl in Hinv, Hsl, Hic.
  destruct (shouldStop res); [simpl; rewrite Hinv, Hsl, Hic, Hi0, Hc0, Hs0; lia|].
  destruct (attempt >=? maxAttempts) eqn:Hlast;
    [simpl; rewrite Hinv, Hsl, Hic, Hi0, Hc0, Hs0; lia|].
  destruct iters as [|iters']; [lia|].
  match goal with |- context [retryLoop _ _ _ _ _ _ _ ?x] => set (w2 := x) end.
  assert (Hw2 : invocations w2 = invocations w1 ∧
                invokeCount (trace w2) = invokeCount (trace w1) ∧
                (length (sleeps (trace w1)) ≤ length (sleeps (trace w2))
                   ≤ S (length (sleeps (trace w1))))%nat).
  { unfold w2. destruct (_ || _); simpl; [|lia].
    rewrite invokeCount_app, sleeps_app, length_app. simpl.
    unfold invokeCount at 2. simpl. lia. }
  destruct Hw2 as (Hi2 & Hc2 & Hs2). clearbody w2.
  pose proof (retryLoop_calls_once this env ctx maxAttempts iters'
                (attempt + 1) (Some err) w2) as Honce.
  destruct (IH (attempt + 1) (Some err) w2 ltac:(lia)) as [IHw|IHw];
    cbv zeta in IHw; [|rewrite IHw in Honce; lia].
  rewrite Hsl, Hs0 in Hs2. lia.
Qed.

(** An iteration whose call fails without a stop, before the last
    attempt, goes on to the next attempt; the call is counted and at most
    one sleep is added. *)
Lemma retryLoop_continue this env ctx maxAttempts iters attempt lastError w err :
  fn env (invocations w) = Throw err →
  ctor (classifyError (clock env (invocations w)) err) ≠ AuthenticationError →
  attempt < maxAttempts →
  ∃ w2,
    retryLoop this env ctx maxAttempts (S iters) attempt lastError w
      = retryLoop this env ctx maxAttempts iters (attempt + 1) (Some err) w2 ∧
    invocations w2 = S (invocations w).
Proof.
  intros Hfn Hns Hlt. simpl retryLoop. rewrite Hfn.
  set (ectx := {| attemptNumber := Some attempt; operation := operation ctx |}).
  set (w0 := emit Invoked _).
  pose proof (handleError_spec this (clock env (invocations w)) (random env)
                err ectx w0) as (Hact & Hstop & Hinv & _).
  destruct (handleError this (clock env (invocations w)) (random env) err ectx w0)
    as [res w1] eqn:Hh.
  simpl in Hact, Hstop, Hinv.
  assert (shouldStop res = false) as ->.
  { rewrite Hstop, Hact, determineAction_cases. apply bool_decide_eq_false.
    destruct (ctor (classifyError (clock env (invocations w)) err));
      try destruct (_ >=? _); congruence. }
  destruct (attempt >=? maxAttempts) eqn:Hge; [lia|].
  eexists. split; [reflexivity|].
  destruct (_ || _); simpl; rewrite Hinv; reflexivity.
Qed.

Lemma retryLoop_success this env ctx maxAttempts n v :
  ∀ iters attempt lastError w,
    (n < iters)%nat →
    attempt + Z.of_nat n ≤ maxAttempts →
    fn env (invocations w + n)%nat = Return v →
    (∀ i, (i < n)%nat → failsWithoutStop env (invocations w + i)) →
    let out := retryLoop this env ctx maxAttempts iters attempt lastError w in
    out.1 = Return v ∧ invocations out.2 = S (invocations w + n).
Proof.
  induction n as [|n IH]; intros iters attempt lastError w Hit Hatt Hv Hfail out;
    subst out; (destruct iters as [|iters]; [lia|]).
  - simpl retryLoop. rewrite Nat.add_0_r in Hv. rewrite Hv. simpl.
    split; [done|lia].
  - destruct (Hfail 0%nat ltac:(lia)) as (err & Hfn & Hns).
    rewrite Nat.add_0_r in Hfn, Hns.
    destruct (retryLoop_continue this env ctx maxAttempts iters attempt lastError
                w err Hfn Hns ltac:(lia)) as (w2 & -> & Hw2).
    destruct (IH iters (attempt + 1) (Some err) w2) as [Hr Hi].
    + lia.
    + lia.
    + rewrite Hw2. by replace (S (invocations w) + n)%nat
        with (invocations w + S n)%nat by lia.
    + intros i Hi. rewrite Hw2.
      replace (S (invocations w) + i)%nat with (invocations w + S i)%nat by lia.
      apply Hfail. lia.
    + split; [exact Hr|]. rewrite Hi, Hw2. lia.
Qed.

Lemma retryLoop_exhausted this env ctx maxAttempts iters :
  ∀ attempt lastError w,
    attempt + Z.of_nat iters = maxAttempts →
    (∀ i, (i ≤ iters)%nat → failsWithoutStop env (invocations w + i)) →
    let out := retryLoop this env ctx maxAttempts (S iters) attempt lastError w in
    ∃ err, fn env (invocations w + iters)%nat = Throw err ∧
           out.1 = Throw (Some err) ∧
           invocations out.2 = S (invocations w + iters).
Proof.
  induction iters as [|iters IH]; intros attempt lastError w Hatt Hfail out;
    subst out.
  - destruct (Hfail 0%nat ltac:(lia)) as (err & Hfn & Hns).
    rewrite Nat.add_0_r in Hfn, Hns |- *.
    exists err. split; [done|]. simpl retryLoop. rewrite Hfn.
    set (ectx := {| attemptNumber := Some attempt; operation := operation ctx |}).
    set (w0 := emit Invoked _).
    pose proof (handleError_spec this (clock env (invocations w)) (random env)
                  err ectx w0) as (_ & _ & Hinv & _).
    destruct (handleError this (clock env (invocations w)) (random env) err ectx w0)
      as [res w1] eqn:Hh.
    simpl in Hinv.
    destruct (shouldStop res); [simpl; split; [done|lia]|].
    destruct (attempt >=? maxAttempts) eqn:Hge; [|lia].
    simpl. split; [done|lia].
  - destruct (Hfail 0%nat ltac:(lia)) as (err & Hfn & Hns).
    rewrite Nat.add_0_r in Hfn, Hns.
    destruct (retryLoop_continue this env ctx maxAttempts (S iters) attempt
                lastError w err Hfn Hns ltac:(lia)) as (w2 & -> & Hw2).
    destruct (IH (attempt + 1) (Some err) w2) as (err' & Hfn' & Hr & Hi).
    + lia.
    + intros i Hi. rewrite Hw2.
      replace (S (invocations w) + i)%nat with (invocations w + S i)%nat by lia.
      apply Hfail. lia.
    + exists err'. rewrite Hw2 in Hfn', Hi.
      replace (invocations w + S iters)%nat with (S (invocations w) + iters)%nat
        by lia.
      split; [done|]. split; [done|]. rewrite Hi. lia.
Qed.

Lemma retryLoop_throws_something this env ctx maxAttempts iters :
  ∀ attempt lastError w,
    (retryLoop this env ctx maxAttempts iters attempt lastError w).1 = Throw None →
    iters = 0%nat ∧ lastError = None.
Proof.
  induction iters as [|iters IH]; intros attempt lastError w.
  { simpl. intros [= ->]. done. }
  simpl retryLoop.
  destruct (fn env (invocations w)) as [v|err]; [discriminate|].
  destruct (handleError _ _ _ _ _ _) as [res w1].
  destruct (shouldStop res); [discriminate|].
  destruct (attempt >=? maxAttempts); [discriminate|].
  intros H. apply IH in H as [_ H]. discriminate H.
Qed.

(** What the loop throws after a call is the error of the last call it
    made. *)
Lemma retryLoop_throws_last this env ctx maxAttempts iters err :
  ∀ attempt lastError w,
    let out := retryLoop this env ctx maxAttempts iters attempt lastError w in
    out.1 = Throw (Some err) →
    (iters = 0%nat ∧ lastError = Some err) ∨
    ((invocations w < invocations out.2)%nat ∧
     fn env (pred (invocations out.2)) = Throw err).
Proof.
  induction iters as [|iters IH]; intros attempt lastError w out.
  { subst out. simpl. intros [= ->]. by left. }
  subst out. right. revert H. simpl retryLoop.
  destruct (fn env (invocations w)) as [v|e0] eqn:Hfn; [discriminate|].
  set (w0 := emit Invoked _).
  set (ectx := {| attemptNumber := Some attempt; operation := operation ctx |}).
  pose proof (handleError_spec this (clock env (invocations w)) (random env)
                e0 ectx w0) as (_ & _ & Hinv & _).
  destruct (handleError this (clock env (invocations w)) (random env) e0 ectx w0)
    as [res w1].
  simpl in Hinv.
  destruct (shouldStop res).
  { simpl. intros [= <-]. rewrite Hinv. simpl. split; [lia|done]. }
  destruct (attempt >=? maxAttempts).
  { simpl. intros [= <-]. rewrite Hinv. simpl. split; [lia|done]. }
  set (w2 := if _ || _ then _ else _).
  assert (Hw2 : invocations w2 = S (invocations w)).
  { unfold w2. destruct (_ || _); simpl; exact Hinv. }
  intros H. destruct (IH (attempt + 1) (Some e0) w2 H) as [[-> [= <-]]|[Hlt Hlast]].
  - simpl. rewrite Hw2. simpl. split; [lia|done].
  - split; [lia|done].
Qed.

(** [executeWithRetry] calls the operation at most max(0, maxAttempts)
    times, every call is in its trace, and it sleeps only between two
    calls: fewer sleeps than calls.  With maxAttempts below 1 the operation
    is never called and [undefined] is thrown, and [undefined] is thrown
    in that case only; every other value it throws is the error with
    which the last call of the operation failed.  (The operation fails
    with error objects, as [Thrown] has it.) *)
Theorem executeWithRetry_bounded this env ctx maxAttempts :
  let m := default (maxRetries this) maxAttempts in
  let out := executeWithRetry this env ctx maxAttempts in
  (invocations out.2 ≤ Z.to_nat m)%nat ∧
  invokeCount (trace out.2) = invocations out.2 ∧
  (length (sleeps (trace out.2)) ≤ pred (invocations out.2))%nat ∧
  (m ≤ 0 → out = (Throw None, initialWorld)) ∧
  (out.1 = Throw None → m ≤ 0) ∧
  (∀ err, out.1 = Throw (Some err) →
          (1 ≤ invocations out.2)%nat ∧
          fn env (pred (invocations out.2)) = Throw err).
Proof.
  intros m out. subst out. unfold executeWithRetry. fold m.
  pose proof (retryLoop_counts this env ctx m (Z.to_nat m) 1 None initialWorld
                ltac:(lia)) as Hc.
  cbv zeta in Hc. split; [|split; [|split; [|split; [|split]]]].
  - destruct Hc as [Hc|Hc]; [|rewrite Hc]; simpl in *; lia.
  - destruct Hc as [Hc|Hc]; [|rewrite Hc]; simpl in *; [lia|reflexivity].
  - destruct Hc as [Hc|Hc]; [|rewrite Hc]; simpl in *; lia.
  - intros Hm. replace (Z.to_nat m) with 0%nat by lia. reflexivity.
  - intros H. apply retryLoop_throws_something in H as [H _]. lia.
  - intros err H.
    destruct (retryLoop_throws_last this env ctx m (Z.to_nat m) err 1 None
                initialWorld H) as [[_ [=]]|[Hlt Hlast]].
    split; [simpl in Hlt; lia|done].
Qed.

(** The first success within the allowed attempts is the result: when the
    calls before the [n]-th (counted from 0) fail without an authentication
    error, the [n]-th returns [v] and [n < maxAttempts], then
    [executeWithRetry] returns [v] after exactly [n + 1] calls. *)
Theorem executeWithRetry_first_success this env ctx maxAttempts n v :
  Z.of_nat n < default (maxRetries this) maxAttempts →
  fn env n = Return v →
  (∀ i, (i < n)%nat → failsWithoutStop env i) →
  let out := executeWithRetry this env ctx maxAttempts in
  out.1 = Return v ∧ invocations out.2 = S n.
Proof.
  intros Hn Hv Hfail out. subst out. unfold executeWithRetry.
  apply (retryLoop_success this env ctx _ n v _ 1 None initialWorld);
    simpl; [lia|lia|done|done].
Qed.

(** When every allowed attempt fails without an authentication error,
    [executeWithRetry] throws the error of the last attempt, after exactly
    maxAttempts calls. *)
Theorem executeWithRetry_exhausted this env ctx maxAttempts :
  let m := default (maxRetries this) maxAttempts in
  1 ≤ m →
  (∀ i, (i < Z.to_nat m)%nat → failsWithoutStop env i) →
  let out := executeWithRetry this env ctx maxAttempts in
  ∃ err, fn env (pred (Z.to_nat m)) = Throw err ∧
         out.1 = Throw (Some err) ∧
         invocations out.2 = Z.to_nat m.
Proof.
  intros m Hm Hfail out. subst out. unfold executeWithRetry. fold m.
  destruct (Z.to_nat m) as [|k] eqn:Hk; [lia|].
  destruct (retryLoop_exhausted this env ctx m k 1 None initialWorld)
    as (err & Hfn & Hr & Hi).
  - lia.
  - intros i Hi. apply Hfail. simpl. lia.
  - exists err. simpl in Hfn, Hi |- *. done.
Qed.

End RetryRuns.

Section RetryRunsWitnesses.

Import ErrorHandlerService.

(** No attempt allowed: the operation is not called. *)
Lemma executeWithRetry_bounded_witness :
  executeWithRetry (Value := unit) (new None)
    (mkEnv (λ _, Return tt) (λ _, 0%Q) (λ _, 0))
    {| attemptNumber := None; operation := None |} (Some 0)
  = (Throw None, initialWorld).
Proof.
  destruct (executeWithRetry_bounded (Value := unit) (new None)
              (mkEnv (λ _, Return tt) (λ _, 0%Q) (λ _, 0))
              {| attemptNumber := None; operation := None |} (Some 0))
    as (_ & _ & _ & H & _).
  apply H. simpl. lia.
Defined.

(** A timeout, then a result. *)
Lemma executeWithRetry_first_success_witness :
  let env := mkEnv (Value := Z)
               (λ i, match i with
                     | O => Throw (Generic (Error.new "request timeout"))
                     | _ => Return 42
                     end)
               (λ _, 1 # 2)%Q (λ _, 0) in
  let out := executeWithRetry (new None) env
               {| attemptNumber := None; operation := None |} None in
  out.1 = Return 42 ∧ invocations out.2 = 2%nat.
Proof.
  intros env out.
  apply (executeWithRetry_first_success (new None) env
           {| attemptNumber := None; operation := None |} None 1 42).
  - simpl. lia.
  - reflexivity.
  - intros i Hi. assert (i = 0%nat) as -> by lia.
    exists (Generic (Error.new "request timeout")). split; [reflexivity|].
    vm_compute. discriminate.
Defined.

(** Three timeouts in a row. *)
Lemma executeWithRetry_exhausted_witness :
  let failure := Generic (Error.new "request timeout") in
  let env := mkEnv (Value := unit) (λ _, Throw failure) (λ _, 1 # 2)%Q (λ _, 0) in
  let out := executeWithRetry (new None) env
               {| attemptNumber := None; operation := None |} None in
  ∃ err, out.1 = Throw (Some err) ∧ invocations out.2 = 3%nat.
Proof.
  intros failure env out.
  destruct (executeWithRetry_exhausted (new None) env
              {| attemptNumber := None; operation := None |} None)
    as (err & _ & Hr & Hi).
  - simpl. lia.
  - intros i _. exists failure. split; [reflexivity|].
    vm_compute. discriminate.
  - exists err. split; [exact Hr|exact Hi].
Defined.

End RetryRunsWitnesses.

(** ** executeWithRetry: the delays between attempts *)

Section RetryDelays.

Import ErrorHandlerService.

Context {Value : Type}.

Implicit Types (this : ErrorHandler) (env : Env Value) (w : World)
  (ctx : Context).

Lemma handleError_trace this now rnd err ctx w :
  ∃ logs, trace (handleError this now rnd err ctx w).2 = trace w ++ logs.
Proof.
  unfold handleError, logError, notifyFrontend.
  destruct (storageService this) as [st|];
    destruct (retryAfter (classifyError now err)) as [n|];
    try destruct (Js.truthyNum n); simpl;
    rewrite <- ?app_assoc; eexists; (reflexivity || by rewrite app_nil_r).
Qed.

Lemma retryLoop_trace this env ctx maxAttempts iters :
  ∀ attempt lastError w,
    ∃ t, trace (retryLoop this env ctx maxAttempts iters attempt lastError w).2
         = trace w ++ t.
Proof.
  induction iters as [|iters IH]; intros attempt lastError w.
  { exists []. simpl. by rewrite app_nil_r. }
  simpl retryLoop.
  destruct (fn env (invocations w)) as [v|err]; [simpl; eauto|].
  match goal with |- context [handleError ?a ?b ?c ?d ?e ?f] =>
    destruct (handleError_trace a b c d e f) as [logs Hlogs];
    destruct (handleError a b c d e f) as [res w1]
  end.
  simpl in Hlogs.
  destruct (shouldStop res);
    [simpl; rewrite Hlogs, <- app_assoc; eauto|].
  destruct (attempt >=? maxAttempts);
    [simpl; rewrite Hlogs, <- app_assoc; eauto|].
  match goal with |- context [retryLoop _ _ _ _ _ _ _ ?x] =>
    destruct (IH (attempt + 1) (Some err) x) as [t Ht]; rewrite Ht
  end.
  destruct (_ || _); simpl; rewrite Hlogs, <- ?app_assoc; eauto.
Qed.

(** What [handleError] answers on a rate limit that carries a wait. *)
Lemma handleError_wait this now rnd err ctx w z :
  ctor (classifyError now err) = RateLimitError →
  retryAfter (classifyError now err) = Some (Js.Int z) → z ≠ 0 →
  let res := (handleError this now rnd err ctx w).1 in
  let w' := (handleError this now rnd err ctx w).2 in
  action res = WAIT_AND_RETRY ∧ shouldStop res = false ∧
  resultRetryAfter res = Js.Int z ∧ draws w' = draws w.
Proof.
  intros Hc Hr Hz.
  pose proof (handleError_spec this now rnd err ctx w) as (Hact & Hstop & _).
  cbv zeta in *. rewrite determineAction_cases, Hc in Hact.
  rewrite Hstop, Hact. split; [done|]. split; [done|].
  unfold handleError. rewrite Hr. cbn [Js.truthyNum].
  destruct (negb (z =? 0)) eqn:E; [|apply negb_false_iff in E; lia].
  unfold logError, notifyFrontend.
  destruct (storageService this); done.
Qed.

(** What [handleError] answers on a network or API error without a wait of
    its own: the backoff of the attempt, with the next random number. *)
Lemma handleError_backoff this now rnd err ctx w :
  ctor (classifyError now err) = NetworkError ∨
  ctor (classifyError now err) = APIError →
  retryAfter (classifyError now err) = None →
  let res := (handleError this now rnd err ctx w).1 in
  let w' := (handleError this now rnd err ctx w).2 in
  action res = (if attemptOf ctx >=? maxRetries this
                then SKIP_AND_CONTINUE else RETRY_WITH_BACKOFF) ∧
  shouldStop res = false ∧
  resultRetryAfter res = calculateBackoff this (attemptOf ctx) (rnd (draws w)) ∧
  draws w' = S (draws w).
Proof.
  intros Hc Hr.
  pose proof (handleError_spec this now rnd err ctx w) as (Hact & Hstop & _).
  cbv zeta in *. rewrite determineAction_cases in Hact.
  assert (action (handleError this now rnd err ctx w).1
          = if attemptOf ctx >=? maxRetries this
            then SKIP_AND_CONTINUE else RETRY_WITH_BACKOFF) as Ha.
  { rewrite Hact. by destruct Hc as [-> | ->]. }
  rewrite Hstop, Ha. split; [done|].
  split; [by destruct (_ >=? _)|].
  unfold handleError. rewrite Hr.
  unfold logError, notifyFrontend. destruct (storageService this); done.
Qed.

(** A raw failure classified as a rate limit always carries a usable
    wait. *)
Lemma generic_rate_limit_wait now (r : Error.t) :
  ctor (classifyError now (Generic r)) = RateLimitError →
  ∃ n, Js.truthyNum n = true ∧
       retryAfter (classifyError now (Generic r)) = Some n.
Proof.
  unfold classifyError.
  destruct (isAuthMessage _); [discriminate|].
  destruct (isRateLimitMessage _).
  - intros _. simpl. unfold Js.orNum.
    destruct (extractRetryAfter r) as [n|]; [|by exists (Js.Int 60000)].
    destruct (Js.truthyNum n) eqn:E; [by exists n|by exists (Js.Int 60000)].
  - destruct (isNetworkMessage _); [discriminate|].
    destruct (_ || _); [discriminate|].
    destruct (isValidationMessage _); discriminate.
Qed.

(** After a failure classified as a rate limit, [executeWithRetry] waits
    for the time the error carries (and not for a backoff) before the
    second call, provided a second attempt is allowed. *)
Theorem executeWithRetry_waits_retryAfter this env ctx maxAttempts err z :
  2 ≤ default (maxRetries this) maxAttempts →
  fn env 0%nat = Throw err →
  ctor (classifyError (clock env 0%nat) err) = RateLimitError →
  retryAfter (classifyError (clock env 0%nat) err) = Some (Js.Int z) → z ≠ 0 →
  let out := executeWithRetry this env ctx maxAttempts in
  (∃ rest, sleeps (trace out.2) = Js.Int z :: rest) ∧
  (2 ≤ invocations out.2)%nat.
Proof.
  intros Hm Hfn Hc Hr Hz out. subst out. unfold executeWithRetry.
  set (m := default (maxRetries this) maxAttempts) in *.
  destruct (Z.to_nat m) as [|[|k]] eqn:Hk; [lia|lia|].
  remember (S k) as iters eqn:Hiters.
  simpl retryLoop. rewrite Hfn.
  set (ectx := {| attemptNumber := Some 1; operation := operation ctx |}).
  set (w0 := emit Invoked _).
  pose proof (handleError_wait this (clock env 0%nat) (random env) err ectx w0 z
                Hc Hr Hz) as (Hact & Hstop & Hres & _).
  pose proof (handleError_spec this (clock env 0%nat) (random env) err ectx w0)
    as (_ & _ & Hinv & Hsl & _).
  destruct (handleError this (clock env 0%nat) (random env) err ectx w0)
    as [res w1] eqn:Hh.
  simpl in Hact, Hstop, Hres, Hinv, Hsl.
  rewrite Hstop, Hact, Hres.
  destruct (1 >=? m) eqn:Hge; [lia|].
  simpl orb. cbv iota.
  subst iters.
  pose proof (retryLoop_calls_once this env ctx m k (1 + 1) (Some err)
                (emit (Slept (Js.Int z)) w1)) as Honce.
  destruct (retryLoop_trace this env ctx m (S k) (1 + 1) (Some err)
              (emit (Slept (Js.Int z)) w1)) as [t Ht].
  split.
  - exists (sleeps t). rewrite Ht, sleeps_app. simpl trace.
    rewrite sleeps_app, Hsl. reflexivity.
  - assert (invocations (emit (Slept (Js.Int z)) w1) = 1%nat) as Hone
      by (cbn [emit invocations]; rewrite Hinv; reflexivity).
    rewrite Hone in Honce. exact Honce.
Qed.

(** The delays of the loop when every remaining attempt fails with a
    network or API error. *)
Lemma retryLoop_backoffs this env ctx m iters :
  ∀ attempt lastError w,
    m ≤ maxRetries this →
    attempt = Z.of_nat (invocations w) + 1 →
    draws w = invocations w →
    attempt + Z.of_nat iters = m →
    (∀ i, (i ≤ iters)%nat → failsTransiently env (invocations w + i)) →
    sleeps (trace (retryLoop this env ctx m (S iters) attempt lastError w).2)
      = sleeps (trace w) ++
        map (λ i, calculateBackoff this (Z.of_nat (S i)) (random env i))
            (seq (invocations w) iters).
Proof.
  induction iters as [|iters IH];
    intros attempt lastError w Hm Hatt Hdraws Hsum Hfail.
  - destruct (Hfail 0%nat ltac:(lia)) as (err & Hfn & _ & _).
    rewrite Nat.add_0_r in Hfn. simpl retryLoop. rewrite Hfn.
    set (ectx := {| attemptNumber := Some attempt; operation := operation ctx |}).
    set (w0 := emit Invoked _).
    assert (Hs0 : sleeps (trace w0) = sleeps (trace w)).
    { unfold w0. simpl. rewrite sleeps_app. simpl. apply app_nil_r. }
    clearbody w0.
    pose proof (handleError_spec this (clock env (invocations w)) (random env)
                  err ectx w0) as (_ & _ & _ & Hsl & _).
    destruct (handleError this (clock env (invocations w)) (random env) err ectx w0)
      as [res w1].
    simpl in Hsl.
    destruct (shouldStop res);
      [cbn [snd seq map]; rewrite app_nil_r; congruence|].
    destruct (attempt >=? m) eqn:Hge; [|lia].
    cbn [snd seq map]. rewrite app_nil_r. congruence.
  - destruct (Hfail 0%nat ltac:(lia)) as (err & Hfn & Hc & Hr).
    rewrite Nat.add_0_r in Hfn, Hc, Hr.
    remember (S iters) as it eqn:Hit. simpl retryLoop. rewrite Hfn.
    set (ectx := {| attemptNumber := Some attempt; operation := operation ctx |}).
    set (w0 := emit Invoked _).
    assert (Hw0 : sleeps (trace w0) = sleeps (trace w) ∧
                  draws w0 = invocations w ∧
                  invocations w0 = S (invocations w)).
    { unfold w0. simpl. rewrite sleeps_app. simpl. by rewrite app_nil_r. }
    destruct Hw0 as (Hs0 & Hd0 & Hi0). clearbody w0.
    assert (Hao : attemptOf ectx = attempt).
    { unfold attemptOf, ectx. simpl. destruct (attempt =? 0) eqn:E; lia. }
    pose proof (handleError_backoff this (clock env (invocations w)) (random env)
                  err ectx w0 Hc Hr) as (Hact & Hstop & Hres & Hdr).
    pose proof (handleError_spec this (clock env (invocations w)) (random env)
                  err ectx w0) as (_ & _ & Hinv & Hsl & _).
    destruct (handleError this (clock env (invocations w)) (random env) err ectx w0)
      as [res w1].
    simpl in Hact, Hstop, Hres, Hdr, Hinv, Hsl.
    rewrite Hao in Hact, Hres.
    destruct (attempt >=? maxRetries this) eqn:Hlast; [lia|].
    rewrite Hstop, Hact, Hres.
    destruct (attempt >=? m) eqn:Hge; [lia|].
    simpl orb. cbv iota. subst it.
    rewrite (IH (attempt + 1) (Some err)); simpl; rewrite ?Hinv, ?Hi0; try lia.
    + rewrite sleeps_app, Hsl, Hs0, Hd0, Hatt. simpl.
      rewrite <- app_assoc. simpl. do 3 f_equal. lia.
    + intros i Hi.
      replace (S (invocations w) + i)%nat with (invocations w + S i)%nat by lia.
      apply Hfail. lia.
Qed.

(** When every attempt fails with a network or API error and no more
    attempts are allowed than [maxRetries], the delays between the
    attempts are exactly the backoffs of attempts 1, 2, ..., maxAttempts - 1,
    each computed with the next random number. *)
Theorem executeWithRetry_backoff_delays this env ctx maxAttempts :
  let m := default (maxRetries this) maxAttempts in
  1 ≤ m ≤ maxRetries this →
  (∀ i, (i < Z.to_nat m)%nat → failsTransiently env i) →
  sleeps (trace (executeWithRetry this env ctx maxAttempts).2)
    = map (λ i, calculateBackoff this (Z.of_nat (S i)) (random env i))
          (seq 0 (pred (Z.to_nat m))).
Proof.
  intros m Hm Hfail. unfold executeWithRetry. fold m.
  destruct (Z.to_nat m) as [|k] eqn:Hk; [lia|].
  rewrite (retryLoop_backoffs this env ctx m k 1 None initialWorld);
    simpl; try lia; [done|].
  intros i Hi. apply Hfail. lia.
Qed.

End RetryDelays.

Section RetryDelaysWitnesses.

Import ErrorHandlerService.

(** A quota error that names its wait, then a result. *)
Lemma executeWithRetry_waits_retryAfter_witness :
  let failure := Generic (Error.new "Too many requests, retry in 2 minutes") in
  let env := mkEnv (Value := Z)
               (λ i, match i with O => Throw failure | _ => Return 1 end)
               (λ _, 0%Q) (λ _, 0) in
  let out := executeWithRetry (new None) env
               {| attemptNumber := None; operation := None |} None in
  ∃ rest, sleeps (trace out.2) = Js.Int 120000 :: rest.
Proof.
  intros failure env out.
  destruct (executeWithRetry_waits_retryAfter (new None) env
              {| attemptNumber := None; operation := None |} None failure 120000)
    as [H _]; [simpl; lia|reflexivity|reflexivity|reflexivity|lia|exact H].
Defined.

(** Three connection failures with the jitter in the middle: the delays
    are one and two seconds. *)
Lemma executeWithRetry_backoff_delays_witness :
  let failure := Generic (Error.new "connection reset") in
  let env := mkEnv (Value := unit) (λ _, Throw failure) (λ _, 1 # 2)%Q (λ _, 0) in
  sleeps (trace (executeWithRetry (new None) env
                   {| attemptNumber := None; operation := None |} None).2)
    = [Js.Int 1000; Js.Int 2000].
Proof.
  intros failure env.
  rewrite (executeWithRetry_backoff_delays (new None) env
             {| attemptNumber := None; operation := None |} None).
  - reflexivity.
  - simpl. lia.
  - intros i _. exists failure. split; [reflexivity|].
    split; [left; reflexivity|reflexivity].
Defined.

End RetryDelaysWitnesses.

(** ** InstagramService: login failures, replies, logout *)

Section Instagram.

Import InstagramService ErrorHandlerService.

Implicit Types (this : InstagramService.t) (acct : Account).

Lemma includes_toLowerCase_prefix p x k :
  Js.includes (Js.toLowerCase p) k = true →
  Js.includes (Js.toLowerCase (p +:+ x)) k = true.
Proof. intros H. rewrite toLowerCase_app. by apply includes_app_l. Qed.

(** How the error thrown for a failed login is classified.  Only the
    fall-through message, which says "authentication failed", is an
    authentication error; a challenge, a checkpoint and a rejected user
    name or password are classified as API errors, and a login rate limit
    as a rate limit with the default wait. *)
Lemma loginFailure_classified now m :
  ctor (classifyError now (Generic (loginFailure m))) =
    if Js.includes m "challenge_required" then APIError
    else if Js.includes m "invalid_user" || Js.includes m "invalid_password"
    then APIError
    else if Js.includes m "checkpoint_required" then APIError
    else if Js.includes m "rate_limit" then RateLimitError
    else AuthenticationError.
Proof.
  unfold loginFailure.
  destruct (Js.includes m "challenge_required"); [reflexivity|].
  destruct (_ || _); [reflexivity|].
  destruct (Js.includes m "checkpoint_required"); [reflexivity|].
  destruct (Js.includes m "rate_limit"); [reflexivity|].
  unfold classifyError. cbn [Error.message Error.new].
  assert (isAuthMessage
            (Js.toLowerCase ("Instagram authentication failed: " +:+ m)) = true)
    as ->; [|reflexivity].
  unfold isAuthMessage.
  rewrite (includes_toLowerCase_prefix _ m "authentication") by reflexivity.
  reflexivity.
Qed.

(** A failed login leaves the service logged out and throws an error that
    stops the automation only when the client's message names none of
    challenge_required, invalid_user, invalid_password, checkpoint_required
    and rate_limit: for a rejected password, a challenge or a checkpoint
    the decided action is a retry, not STOP_AUTOMATION. *)
Theorem authenticate_failure_action
    this acct (user : string) (error : Error.t)
    (h : ErrorHandler) (now : Z) (ctx : Context) :
  let m := Error.message error in
  let out := authenticate None (Throw error) this acct user in
  ∃ e,
    out.1 = Throw e ∧
    isAuthenticated out.2.1 = false ∧
    out.2.2 = {| username := None; userId := None |} ∧
    (determineAction h (classifyError now (Generic e)) ctx = STOP_AUTOMATION ↔
     Js.includes m "challenge_required" = false ∧
     Js.includes m "invalid_user" = false ∧
     Js.includes m "invalid_password" = false ∧
     Js.includes m "checkpoint_required" = false ∧
     Js.includes m "rate_limit" = false).
Proof.
  intros m out. exists (loginFailure m). subst out. unfold authenticate.
  cbn [fst snd]. split; [done|]. split; [done|]. split; [done|].
  rewrite determineAction_cases, loginFailure_classified. fold m.
  destruct (Js.includes m "challenge_required");
    destruct (Js.includes m "invalid_user");
    destruct (Js.includes m "invalid_password");
    destruct (Js.includes m "checkpoint_required");
    destruct (Js.includes m "rate_limit"); simpl;
    try destruct (_ >=? _); split; (done || intros (?&?&?&?&?); done || idtac).
Qed.

(** A password the server rejects. *)
Lemma authenticate_failure_action_witness :
  let out := authenticate None
               (Throw (Error.new "IgLoginBadPasswordError: invalid_password"))
               (InstagramService.new 0)
               {| username := None; userId := None |} "ann" in
  ∃ e, out.1 = Throw e ∧
       determineAction (new None) (classifyError 0 (Generic e))
         {| attemptNumber := None; operation := None |} ≠ STOP_AUTOMATION.
Proof.
  intros out.
  destruct (authenticate_failure_action (InstagramService.new 0)
              {| username := None; userId := None |} "ann"
              (Error.new "IgLoginBadPasswordError: invalid_password")
              (new None) 0 {| attemptNumber := None; operation := None |})
    as (e & He & _ & _ & Hiff).
  exists e. split; [exact He|].
  intros Hstop. apply Hiff in Hstop as (_ & _ & Hp & _). discriminate Hp.
Defined.

Lemma length_zero (s : string) : (String.length s =? 0)%nat = true ↔ s = EmptyString.
Proof. destruct s; simpl; split; (done || discriminate). Qed.

(** [replyToComment] hands a text to the client only after the login check
    and the budget check have passed, and the text it hands over is the
    trimmed reply, which is not empty, of a reply of at most 2200 code
    units; the result is then [true], or the client's failure in the
    wording of [replyFailure]. *)
Theorem replyToComment_sent now post this (mediaId commentId text : string)
    r this' t :
  replyToComment now post this mediaId commentId text = (r, this', Some t) →
  isAuthenticated this = true ∧
  (_checkRateLimit now this).1 = Return true ∧
  this' = (_checkRateLimit now this).2 ∧
  t = Js.trim text ∧ t ≠ EmptyString ∧
  (String.length text ≤ 2200)%nat ∧
  r = match post t with
      | Return _ => Return true
      | Throw error => Throw (replyFailure (Error.message error))
      end.
Proof.
  unfold replyToComment, _ensureAuthenticated.
  destruct (isAuthenticated this); [|discriminate]. cbn [negb].
  pose proof (checkRateLimit_limits now this) as _.
  destruct (_checkRateLimit now this) as [[b|e] this1] eqn:Hc; [|discriminate].
  assert (b = true) as ->.
  { unfold _checkRateLimit in Hc. destruct (_ >=? _); by inversion Hc. }
  destruct (negb (Js.truthyStr text) || (String.length (Js.trim text) =? 0)%nat)
    eqn:Hempty; [discriminate|].
  destruct (2200 <? String.length text)%nat eqn:Hlong; [discriminate|].
  apply orb_false_elim in Hempty as [_ Hne].
  apply Nat.ltb_ge in Hlong.
  assert (Js.trim text ≠ EmptyString) as Hne'.
  { intros Ht. rewrite Ht in Hne. discriminate Hne. }
  cbn [fst snd].
  destruct (post (Js.trim text)) as [u|error] eqn:Hpost;
    intros [= <- <- <-]; rewrite Hpost; done.
Qed.

(** A reply with blanks around it. *)
Lemma replyToComment_sent_witness :
  let s := withAuthenticated true (InstagramService.new 0) in
  Js.trim "  thanks!  " = "thanks!" ∧
  (replyToComment 5 (λ _, Return tt) s "m1" "c1" "  thanks!  ").2
    = Some "thanks!".
Proof.
  intros s.
  destruct (replyToComment 5 (λ _, Return tt) s "m1" "c1" "  thanks!  ")
    as [[r s'] sent] eqn:H.
  assert (sent = Some "thanks!") as -> by (vm_compute in H; congruence).
  destruct (replyToComment_sent 5 (λ _, Return tt) s "m1" "c1" "  thanks!  "
              r s' "thanks!" H) as (_ & _ & _ & Ht & _).
  split; [by rewrite <- Ht|reflexivity].
Defined.

(** A reply that is empty after trimming, or longer than 2200 code units,
    never reaches the client; the budget check has counted the request all
    the same, and the error thrown is classified as an API error (to be
    retried), not as a validation error. *)
Theorem replyToComment_invalid_text now post this (mediaId commentId text : string)
    (clock : Z) :
  isAuthenticated this = true →
  (_checkRateLimit now this).1 = Return true →
  Js.trim text = EmptyString ∨ (2200 < String.length text)%nat →
  let out := replyToComment now post this mediaId commentId text in
  out.2 = None ∧
  out.1.2 = (_checkRateLimit now this).2 ∧
  requestCount out.1.2
    = (if now - requestWindowStart this >? requestWindow this
       then 0 else requestCount this) + 1 ∧
  ∃ e, out.1.1 = Throw e ∧
       ctor (classifyError clock (Generic e)) = APIError.
Proof.
  intros Hauth Hok Hbad out. subst out.
  unfold replyToComment, _ensureAuthenticated. rewrite Hauth. cbn [negb].
  destruct (_checkRateLimit now this) as [[b|e] this1] eqn:Hc;
    [|discriminate Hok].
  assert (requestCount this1
          = (if now - requestWindowStart this >? requestWindow this
             then 0 else requestCount this) + 1) as Hcount.
  { unfold _checkRateLimit in Hc.
    destruct (now - requestWindowStart this >? requestWindow this);
      destruct (_ >=? _); inversion Hc; reflexivity. }
  cbn [fst snd].
  destruct (negb (Js.truthyStr text) || (String.length (Js.trim text) =? 0)%nat)
    eqn:Hempty.
  { cbn [fst snd]. repeat split; [done..|]. eexists. split; [reflexivity|].
    reflexivity. }
  destruct (2200 <? String.length text)%nat eqn:Hlong.
  { cbn [fst snd]. repeat split; [done..|]. eexists. split; [reflexivity|].
    reflexivity. }
  apply orb_false_elim in Hempty as [_ Hne].
  apply Nat.ltb_ge in Hlong.
  destruct Hbad as [Hbad|Hbad]; [|lia].
  rewrite Hbad in Hne. discriminate Hne.
Qed.

(** A reply of three blanks. *)
Lemma replyToComment_invalid_text_witness :
  let s := withAuthenticated true (InstagramService.new 0) in
  let out := replyToComment 5 (λ _, Return tt) s "m1" "c1" "   " in
  out.2 = None ∧ requestCount out.1.2 = 1.
Proof.
  intros s out.
  destruct (replyToComment_invalid_text 5 (λ _, Return tt) s "m1" "c1" "   " 0)
    as (Hs & _ & Hn & _); [reflexivity|reflexivity|by left|].
  split; [exact Hs|exact Hn].
Defined.

(** Without a login [replyToComment] throws before the budget is touched:
    the state is unchanged, nothing is sent, and the error is classified as
    an authentication error, for which the action is STOP_AUTOMATION. *)
Theorem replyToComment_requires_login now post this
    (mediaId commentId text : string) (h : ErrorHandler) (clock : Z)
    (ctx : Context) :
  isAuthenticated this = false →
  ∃ e,
    replyToComment now post this mediaId commentId text = (Throw e, this, None) ∧
    ctor (classifyError clock (Generic e)) = AuthenticationError ∧
    determineAction h (classifyError clock (Generic e)) ctx = STOP_AUTOMATION.
Proof.
  intros Hauth. unfold replyToComment, _ensureAuthenticated. rewrite Hauth.
  eexists. split; [reflexivity|]. split; reflexivity.
Qed.

(** A service that never logged in. *)
Lemma replyToComment_requires_login_witness :
  (replyToComment 5 (λ _, Return tt) (InstagramService.new 0) "m1" "c1" "hi").1.2
    = InstagramService.new 0.
Proof.
  destruct (replyToComment_requires_login 5 (λ _, Return tt)
              (InstagramService.new 0) "m1" "c1" "hi" (new None) 0
              {| attemptNumber := None; operation := None |} eq_refl)
    as (e & H & _).
  by rewrite H.
Defined.

(** [logout] puts the request counter back to zero and leaves the window
    start where it was: a service that has used up its budget lets a full
    budget of further calls through after a logout, in the same window. *)
Theorem logout_refills_budget this acct (times : list Z) :
  0 ≤ maxRequestsPerHour this →
  Z.of_nat (length times) ≤ maxRequestsPerHour this →
  let s := (logout this acct).1 in
  requestWindowStart s = requestWindowStart this ∧
  (calls times s).1 = replicate (length times) (Return true).
Proof.
  intros Hmax Hlen s. split; [reflexivity|].
  apply calls_accepted_while_room; subst s; simpl; lia.
Qed.

(** A service at its limit is rejected, and accepted again after a
    logout, ten milliseconds into the same window. *)
Lemma logout_refills_budget_witness :
  let full := {| isAuthenticated := true; requestCount := 200;
                 requestWindowStart := 0; maxRequestsPerHour := 200;
                 requestWindow := 3600000 |} in
  accepted (_checkRateLimit 10 full).1 = false ∧
  (calls [10; 11]
     (logout full {| username := Some "ann"; userId := Some 7 |}).1).1
    = [Return true; Return true].
Proof.
  intros full. split; [reflexivity|].
  destruct (logout_refills_budget full {| username := Some "ann"; userId := Some 7 |}
              [10; 11]) as [_ H]; [simpl; lia|simpl; lia|exact H].
Defined.

End Instagram.

(** ** Sequences of marks and the service on top of them *)

Section Marks.

Import Mongo ProcessedComment StorageService.

Implicit Types (db : Db) (d : ProcessedCommentDoc).

Lemma isProcessed_stored db u c :
  isProcessed None db u c = Return true ↔
  (u, c) ∈ indexKey <$> Mongo.processedComments db.
Proof.
  unfold isProcessed, countDocuments.
  induction (Mongo.processedComments db) as [|d l IH].
  - simpl. rewrite elem_of_nil. split; [|done]. intros [= H].
  - rewrite fmap_cons, elem_of_cons.
    destruct (decide (indexKey d = (u, c))) as [E|E].
    + rewrite filter_cons_True by done. simpl. split; [auto|done].
    + rewrite filter_cons_False by done. rewrite IH. split; [auto|].
      intros [H|H]; [congruence|done].
Qed.

Lemma isProcessed_answer db u c :
  isProcessed None db u c =
    Return (bool_decide ((u, c) ∈ indexKey <$> Mongo.processedComments db)).
Proof.
  pose proof (isProcessed_stored db u c) as H.
  destruct (isProcessed None db u c) as [[|]|e] eqn:E.
  - rewrite bool_decide_eq_true_2; [done|]. by apply H.
  - rewrite bool_decide_eq_false_2; [done|]. intros Hin. apply H in Hin.
    discriminate Hin.
  - discriminate E.
Qed.

Lemma markProcessed_stored fault db u data k :
  k ∈ indexKey <$> Mongo.processedComments (markProcessed fault db u data).2 ↔
  k ∈ indexKey <$> Mongo.processedComments db ∨
  (fault = None ∧ ProcessedComment.schemaAccepts data = true ∧ k = (u, id data)).
Proof.
  destruct (ProcessedComment.schemaAccepts data) eqn:Hok.
  - unfold markProcessed, create.
    set (doc := mkDoc _ _ _ _ _ _ _ _).
    assert (accepts doc = true) as -> by exact Hok. cbn [negb].
    destruct fault as [e|].
    + destruct (bool_decide (Error.code e = Some 11000)); simpl;
        split; [auto|intros [H|[H _]]; done| auto |intros [H|[H _]]; done].
    + case_bool_decide as Hin; simpl.
      * split; [auto|]. intros [H|(_ & _ & ->)]; done.
      * rewrite fmap_app, elem_of_app, list_fmap_singleton,
          list_elem_of_singleton. simpl. split.
        -- intros [H| ->]; auto.
        -- intros [H|(_ & _ & ->)]; auto.
  - destruct (markProcessed_rejected fault db u data Hok) as (e & -> & _).
    simpl. split; [auto|]. intros [H|(_ & H & _)]; done.
Qed.

Lemma markProcessed_unique fault db u data :
  uniqueIndex db → uniqueIndex (markProcessed fault db u data).2.
Proof.
  intros Hu. unfold markProcessed.
  set (doc := mkDoc _ _ _ _ _ _ _ _).
  destruct (create fault db doc) as [r db'] eqn:Hc.
  pose proof (create_unique _ _ _ _ _ Hu Hc) as Hu'.
  destruct r as [[]|e]; [done|].
  by destruct (bool_decide (Error.code e = Some 11000)).
Qed.

Lemma markProcessed_users fault db u data :
  users (markProcessed fault db u data).2 = users db.
Proof.
  unfold markProcessed, create. destruct (negb (accepts _)); [done|].
  destruct fault as [e|].
  - by destruct (bool_decide (Error.code e = Some 11000)).
  - by case_bool_decide.
Qed.

Lemma countDocuments_stored db u c :
  uniqueIndex db →
  countDocuments None db u c =
    Return (if bool_decide ((u, c) ∈ indexKey <$> Mongo.processedComments db)
            then 1%nat else 0%nat).
Proof.
  intros Hu. case_bool_decide as Hin.
  - by apply countDocuments_present.
  - by apply countDocuments_absent.
Qed.

(** Whatever calls of [markProcessed] are made on a collection whose index
    is unique, whichever of them fail and whichever carry data that the
    schema rejects, the index stays unique, so no key is ever counted
    twice; and a comment is reported as processed afterwards exactly when
    it was before or one of the calls for it carried data that the schema
    accepts and reached the database. *)
Theorem markAll_records (calls : list MarkCall) db u c :
  uniqueIndex db →
  uniqueIndex (markAll calls db) ∧
  (∃ n, countDocuments None (markAll calls db) u c = Return n ∧ (n ≤ 1)%nat) ∧
  (isProcessed None (markAll calls db) u c = Return true ↔
     isProcessed None db u c = Return true ∨
     ∃ call, call ∈ calls ∧ callFault call = None ∧
             ProcessedComment.schemaAccepts (callData call) = true ∧
             callUser call = u ∧ id (callData call) = c).
Proof.
  intros Hu.
  assert (Hinv : uniqueIndex (markAll calls db)).
  { revert db Hu. induction calls as [|call calls IH]; intros db Hu; [done|].
    simpl. apply IH. by apply markProcessed_unique. }
  split; [done|]. split.
  - rewrite countDocuments_stored by done. eexists. split; [reflexivity|].
    case_bool_decide; lia.
  - clear Hinv Hu. revert db.
    induction calls as [|call calls IH]; intros db; simpl.
    + split; [auto|]. intros [H|(call & H & _)]; [done|].
      by apply elem_of_nil in H.
    + rewrite IH. rewrite !isProcessed_stored, markProcessed_stored. split.
      * intros [[H|(Hf & Hok & [= -> ->])]|(call' & Hin & H)].
        -- by left.
        -- right. exists call. split; [apply elem_of_cons; by left|done].
        -- right. exists call'. split; [apply elem_of_cons; by right|done].
      * intros [H|(call' & Hin & Hf & Hok & Hcu & Hcd)]; [by left; left|].
        apply elem_of_cons in Hin as [->|Hin].
        -- left. right. split; [done|]. split; [done|]. by rewrite Hcu, Hcd.
        -- right. exists call'. done.
Qed.

(** Four calls on the empty collection, the second of them during an
    outage and the third without a comment text: the two for c1 that
    reached the database are recorded, once, and c3 is not recorded. *)
Lemma markAll_records_witness :
  let data c t := {| id := c; ProcessedComment.postId := "p";
                     ProcessedComment.username := "n";
                     ProcessedComment.text := t;
                     ProcessedComment.reply := None;
                     ProcessedComment.replyId := None;
                     ProcessedComment.status := None |} in
  let calls := [ {| callFault := None; callUser := "u1";
                    callData := data "c1" "hi" |};
                 {| callFault := Some (Error.new "down"); callUser := "u1";
                    callData := data "c2" "hi" |};
                 {| callFault := None; callUser := "u1";
                    callData := data "c3" "" |};
                 {| callFault := None; callUser := "u1";
                    callData := data "c1" "hi" |} ] in
  let db := {| Mongo.processedComments := []; users := ∅ |} in
  uniqueIndex (markAll calls db) ∧
  isProcessed None (markAll calls db) "u1" "c1" = Return true ∧
  isProcessed None (markAll calls db) "u1" "c3" ≠ Return true.
Proof.
  intros data calls db.
  assert (Hu : uniqueIndex db) by apply NoDup_nil_2.
  destruct (markAll_records calls db "u1" "c1" Hu) as (Hinv & _ & Hiff).
  destruct (markAll_records calls db "u1" "c3" Hu) as (_ & _ & Hiff3).
  split; [exact Hinv|]. split.
  - apply Hiff. right.
    exists {| callFault := None; callUser := "u1"; callData := data "c1" "hi" |}.
    split; [apply elem_of_cons; by left|done].
  - intros H. apply Hiff3 in H as [H|(call & Hin & Hf & Hok & _ & Hc)].
    + discriminate H.
    + unfold calls in Hin.
      repeat (apply elem_of_cons in Hin as [->|Hin]); try discriminate.
      by apply elem_of_nil in Hin.
Defined.

(** The data that [markCommentProcessed] hands to [markProcessed] pass
    the schema exactly when the comment id is not empty, a text is given
    and the status, when given, is one of the enum: the post id, the user
    name and the status have truthy defaults, the text has not. *)
Lemma markCommentProcessed_accepts c info :
  ProcessedComment.schemaAccepts
    {| id := c;
       ProcessedComment.postId := Js.orStr (postId info) "unknown";
       ProcessedComment.username := Js.orStr (username info) "unknown";
       ProcessedComment.text := Js.orStr (text info) "";
       ProcessedComment.reply := Js.orNull (reply info);
       ProcessedComment.replyId := Js.orNull (replyId info);
       ProcessedComment.status :=
         Some (Js.orStr (status info) "reply_posted") |}
  = Js.truthyStr c && Js.truthyOptStr (text info) &&
    bool_decide (Js.orStr (status info) "reply_posted" ∈ statusValues).
Proof.
  unfold ProcessedComment.schemaAccepts. cbn [id ProcessedComment.postId ProcessedComment.username
    ProcessedComment.text ProcessedComment.status].
  assert (H1 : ∀ x, Js.truthyStr (Js.orStr x "unknown") = true).
  { intros [[|a s]|]; done. }
  assert (H2 : ∀ x, Js.truthyStr (Js.orStr x "") = Js.truthyOptStr x).
  { intros [[|a s]|]; done. }
  assert (H3 : ∀ x, Js.orStr (Some (Js.orStr x "reply_posted")) "detected"
                    = Js.orStr x "reply_posted").
  { intros [[|a s]|]; done. }
  rewrite !H1, H2, H3. by rewrite !andb_true_r.
Qed.

(** Marking a comment through the service of a user, with the database
    up.  When the comment id is not empty, a comment text is given and
    the status, if given, is one of the schema's, the call returns
    normally, also when the comment was marked before, and the service
    reports the comment as processed afterwards.  Otherwise (so when the
    comment data are left out, the text defaulting to the empty string)
    the call throws the ValidationError of the schema and the database is
    as before.  In both cases every other comment id and every other
    user's service are answered as before, and the users collection is
    untouched. *)
Theorem markCommentProcessed_round_trip db this uid c info :
  userId this = Some uid → Js.truthyStr uid = true →
  let out := markCommentProcessed None db this c info in
  let valid :=
    Js.truthyStr c && Js.truthyOptStr (text info) &&
    bool_decide (Js.orStr (status info) "reply_posted" ∈ statusValues) in
  (valid = true →
     out.1 = Return tt ∧
     isCommentProcessed None out.2 this c = Return true) ∧
  (valid = false →
     (∃ e, out.1 = Throw e ∧ Error.name e = "ValidationError") ∧
     out.2 = db) ∧
  (∀ fault that c',
     (userId that, c') ≠ (Some uid, c) →
     isCommentProcessed fault out.2 that c'
       = isCommentProcessed fault db that c') ∧
  users out.2 = users db.
Proof.
  intros Hid Ht out valid. subst out. unfold markCommentProcessed.
  rewrite Hid. simpl. rewrite Ht. simpl.
  pose proof (markCommentProcessed_accepts c info) as Hacc. fold valid in Hacc.
  set (data := mkCommentData _ _ _ _ _ _ _) in *.
  pose proof (markProcessed_stored None db uid data) as Hst.
  pose proof (markProcessed_users None db uid data) as Hus.
  split; [|split; [|split]].
  - intros Hv. rewrite Hv in Hacc.
    assert (Hr : ∃ b, (markProcessed None db uid data).1 = Return b).
    { unfold markProcessed, create.
      set (doc := mkDoc _ _ _ _ _ _ _ _).
      assert (accepts doc = true) as -> by exact Hacc. cbn [negb].
      case_bool_decide; simpl; eauto. }
    destruct Hr as [b Hr].
    destruct (markProcessed None db uid data) as [r db'].
    simpl in Hr, Hst. subst r. simpl. split; [done|].
    unfold isCommentProcessed. rewrite Hid. cbn [Js.truthyOptStr].
    rewrite Ht. cbn [negb].
    assert (isProcessed None db' uid c = Return true) as ->; [|done].
    apply isProcessed_stored, Hst. right. done.
  - intros Hv. rewrite Hv in Hacc.
    destruct (markProcessed_rejected None db uid data Hacc) as (e & -> & He).
    simpl. split; [eauto|done].
  - intros fault that c' Hne.
    destruct (markProcessed None db uid data) as [r db'].
    simpl in Hst.
    assert ((match r with
             | Return _ => (Return tt, db')
             | Throw error => (Throw error, db')
             end).2 = db') as -> by (by destruct r).
    unfold isCommentProcessed.
    destruct (negb _); [done|].
    destruct (userId that) as [uid'|] eqn:Hthat; [|done].
    destruct fault as [e|]; [done|].
    rewrite !isProcessed_answer. f_equal. apply bool_decide_ext.
    rewrite Hst. split; [|auto]. intros [H|(_ & _ & [= -> ->])]; [done|].
    by destruct Hne.
  - destruct (markProcessed None db uid data) as [r db'].
    simpl in Hus. by destruct r.
Qed.

(** A reply recorded for one comment of user u1; and the same call with
    the comment data left out, which throws and records nothing. *)
Lemma markCommentProcessed_round_trip_witness :
  let db := {| Mongo.processedComments := []; users := ∅ |} in
  let this := {| userId := Some "u1" |} in
  let info := {| postId := Some "p1"; username := Some "ann";
                 text := Some "nice"; reply := Some "thanks";
                 replyId := None; status := None |} in
  let none := {| postId := None; username := None; text := None;
                 reply := None; replyId := None; status := None |} in
  isCommentProcessed None (markCommentProcessed None db this "c1" info).2
    this "c1" = Return true ∧
  (markCommentProcessed None db this "c1" none).2 = db.
Proof.
  intros db this info none.
  destruct (markCommentProcessed_round_trip db this "u1" "c1" info
              eq_refl eq_refl) as (H & _).
  destruct (markCommentProcessed_round_trip db this "u1" "c1" none
              eq_refl eq_refl) as (_ & H' & _).
  split; [by apply H|by apply H'].
Defined.

End Marks.

(** ** Settings and the activity log *)

Section Settings.

Import Mongo StorageService.

Implicit Types (db : Db) (this : StorageService.t).

Lemma orStr_truthy s d : Js.truthyStr s = true → Js.orStr (Some s) d = s.
Proof. by destruct s. Qed.

(** After a [saveConfig] of values the schema accepts, for an existing
    user and with the database answering, [getConfig] returns each given
    truthy setting and the former value of every other one; an empty tone
    and a zero number are not written.  The activity flag, the state
    [loadAutomationState] returns, the other users and the processed
    comments are left as they were. *)
Theorem saveConfig_round_trip db this uid user config old :
  userId this = Some uid → Js.truthyStr uid = true →
  users db !! uid = Some user →
  schemaAccepts config = true →
  getConfig None db this = Some old →
  ∃ db',
    saveConfig None None db this config = (Return tt, db') ∧
    getConfig None db' this =
      Some {| configReplyTone :=
                if Js.truthyOptStr (newReplyTone config)
                then default "" (newReplyTone config)
                else configReplyTone old;
              configPollIntervalSeconds :=
                if truthyOptZ (newPollIntervalSeconds config)
                then default 0 (newPollIntervalSeconds config)
                else configPollIntervalSeconds old;
              configMaxCommentsPerCheck :=
                if truthyOptZ (newMaxCommentsPerCheck config)
                then default 0 (newMaxCommentsPerCheck config)
                else configMaxCommentsPerCheck old;
              configIsActive := configIsActive old |} ∧
    loadAutomationState None db' this = loadAutomationState None db this ∧
    (∀ uid', uid' ≠ uid → users db' !! uid' = users db !! uid') ∧
    Mongo.processedComments db' = Mongo.processedComments db.
Proof.
  intros Hid Ht Hu _. unfold getConfig, saveConfig, loadAutomationState.
  rewrite Hid. cbn [Js.truthyOptStr]. rewrite Ht. cbn [negb findById].
  rewrite Hu. intros [= <-]. cbn [save].
  eexists. split; [reflexivity|]. cbn [users Mongo.processedComments].
  rewrite lookup_insert_eq.
  cbn [automationSettings replyTone pollIntervalSeconds maxCommentsPerCheck
       Mongo.isActive configReplyTone configPollIntervalSeconds
       configMaxCommentsPerCheck configIsActive].
  split; [|split; [done|split; [|done]]].
  - f_equal. f_equal.
    + destruct (newReplyTone config) as [s|]; cbn [Js.truthyOptStr from_option id].
      * destruct (Js.truthyStr s) eqn:E; [by apply orStr_truthy|].
        reflexivity.
      * reflexivity.
    + destruct (newPollIntervalSeconds config) as [n|]; cbn [truthyOptZ from_option id].
      * destruct (n =? 0) eqn:E; cbn [negb]; [reflexivity|].
        unfold orZ. by rewrite E.
      * reflexivity.
    + destruct (newMaxCommentsPerCheck config) as [n|]; cbn [truthyOptZ from_option id].
      * destruct (n =? 0) eqn:E; cbn [negb]; [reflexivity|].
        unfold orZ. by rewrite E.
      * reflexivity.
  - intros uid' Hne. by rewrite lookup_insert_ne.
Qed.

(** A user with the default settings switches to the formal tone and a
    poll interval of one minute; a zero comment limit is ignored. *)
Lemma saveConfig_round_trip_witness :
  let user := {| email := "a@b.c";
                 automationSettings :=
                   {| Mongo.replyTone := "friendly";
                      Mongo.pollIntervalSeconds := 30;
                      Mongo.maxCommentsPerCheck := 10; selectedPosts := [];
                      Mongo.isActive := true |} |} in
  let db := {| Mongo.processedComments := []; users := {[ "u1" := user ]} |} in
  let this := {| userId := Some "u1" |} in
  let config := {| newReplyTone := Some "formal";
                   newPollIntervalSeconds := Some 60;
                   newMaxCommentsPerCheck := Some 0 |} in
  ∃ db',
    saveConfig None None db this config = (Return tt, db') ∧
    getConfig None db' this =
      Some {| configReplyTone := "formal"; configPollIntervalSeconds := 60;
              configMaxCommentsPerCheck := 10; configIsActive := true |}.
Proof.
  intros user db this config.
  destruct (saveConfig_round_trip db this "u1" user config
              {| configReplyTone := "friendly"; configPollIntervalSeconds := 30;
                 configMaxCommentsPerCheck := 10; configIsActive := true |}
              eq_refl eq_refl (lookup_singleton_eq _ _) eq_refl)
    as (db' & Hs & Hg & _).
  { unfold getConfig. simpl. unfold db. simpl.
    by rewrite lookup_singleton_eq. }
  exists db'. split; [exact Hs|]. exact Hg.
Defined.

Local Ltac step :=
  cbn [users Mongo.processedComments]; rewrite ?lookup_insert_eq;
  cbn [automationSettings replyTone pollIntervalSeconds maxCommentsPerCheck
       Mongo.isActive selectedPosts email configReplyTone
       configPollIntervalSeconds configMaxCommentsPerCheck configIsActive];
  rewrite ?insert_insert_eq.

(** Saving the run state and saving the settings of an existing user do
    not interfere: in either order both succeed and leave the same
    database, in which the settings are those of [saveConfig] and the
    activity flag is that of the state. *)
Theorem saveConfig_saveAutomationState_commute db this uid user config state :
  userId this = Some uid → Js.truthyStr uid = true →
  users db !! uid = Some user →
  schemaAccepts config = true →
  ∃ db1 db2 db',
    saveConfig None None db this config = (Return tt, db1) ∧
    saveAutomationState None None db1 this state = (Return tt, db') ∧
    saveAutomationState None None db this state = (Return tt, db2) ∧
    saveConfig None None db2 this config = (Return tt, db') ∧
    (∃ cfg, getConfig None db1 this = Some cfg ∧
            getConfig None db' this
              = Some {| configReplyTone := configReplyTone cfg;
                        configPollIntervalSeconds := configPollIntervalSeconds cfg;
                        configMaxCommentsPerCheck := configMaxCommentsPerCheck cfg;
                        configIsActive := isActive state |}).
Proof.
  intros Hid Ht Hu _.
  unfold getConfig, saveConfig, saveAutomationState.
  rewrite Hid. cbn [Js.truthyOptStr]. rewrite Ht. cbn [negb findById].
  rewrite Hu. cbn [save].
  do 3 eexists. split; [reflexivity|].
  split; [step; reflexivity|]. split; [reflexivity|].
  split; [step; reflexivity|].
  eexists. split; [step; reflexivity|]. step.
  by rewrite !orb_false_r.
Qed.

(** The automation is switched on while the tone is changed. *)
Lemma saveConfig_saveAutomationState_commute_witness :
  let user := {| email := "a@b.c";
                 automationSettings :=
                   {| Mongo.replyTone := "friendly";
                      Mongo.pollIntervalSeconds := 30;
                      Mongo.maxCommentsPerCheck := 10; selectedPosts := [];
                      Mongo.isActive := false |} |} in
  let db := {| Mongo.processedComments := []; users := {[ "u1" := user ]} |} in
  let this := {| userId := Some "u1" |} in
  let config := {| newReplyTone := Some "professional";
                   newPollIntervalSeconds := None;
                   newMaxCommentsPerCheck := None |} in
  let state := {| isActive := true; lastCheckTime := None; stats := None;
                  StorageService.processedComments := None |} in
  ∃ db1 db2 db',
    saveConfig None None db this config = (Return tt, db1) ∧
    saveAutomationState None None db1 this state = (Return tt, db') ∧
    saveAutomationState None None db this state = (Return tt, db2) ∧
    saveConfig None None db2 this config = (Return tt, db').
Proof.
  intros user db this config state.
  destruct (saveConfig_saveAutomationState_commute db this "u1" user config
              state eq_refl eq_refl (lookup_singleton_eq _ _) eq_refl)
    as (db1 & db2 & db' & H1 & H2 & H3 & H4 & _).
  exists db1, db2, db'. done.
Defined.

(** A service that was given no user id stores and reports nothing: marks
    and log entries are dropped without an error, every comment is
    reported as unprocessed whatever the database holds, no settings and
    no state are returned, and the two writes of the user document throw
    and leave the database as it was. *)
Theorem service_without_user_is_inert f1 f2 db logs this :
  Js.truthyOptStr (userId this) = false →
  (∀ c info, markCommentProcessed f1 db this c info = (Return tt, db)) ∧
  (∀ c, isCommentProcessed f1 db this c = Return false) ∧
  (∀ logData, appendLog f1 logs this logData = (Return tt, logs)) ∧
  getConfig f1 db this = None ∧
  loadAutomationState f1 db this = None ∧
  (∀ config, saveConfig f1 f2 db this config
               = (Throw (Error.new "No userId set for storage service"), db)) ∧
  (∀ state, saveAutomationState f1 f2 db this state
              = (Throw (Error.new "No userId set for storage service"), db)).
Proof.
  intros H.
  unfold markCommentProcessed, isCommentProcessed, appendLog, getConfig,
    loadAutomationState, saveConfig, saveAutomationState.
  rewrite H. done.
Qed.

(** The service as its constructor leaves it, and one whose user id is the
    empty string, on a database that holds a record of the comment. *)
Lemma service_without_user_is_inert_witness :
  let d := {| Mongo.userId := ""; commentId := "c1"; Mongo.postId := "p";
              Mongo.username := "n"; commentText := "t"; replyText := None;
              Mongo.replyId := None; Mongo.status := "detected" |} in
  let db := {| Mongo.processedComments := [d]; users := ∅ |} in
  isCommentProcessed None db {| userId := None |} "c1" = Return false ∧
  isCommentProcessed None db {| userId := Some "" |} "c1" = Return false.
Proof.
  intros d db. split.
  - by destruct (service_without_user_is_inert None None db [] {| userId := None |}
                   eq_refl) as (_ & H & _).
  - by destruct (service_without_user_is_inert None None db [] {| userId := Some "" |}
                   eq_refl) as (_ & H & _).
Defined.

(** [appendLog] never throws: a failure of the insertion, be it the
    schema rejecting the entry or the database being down, is swallowed by
    [ActivityLog.log] and the entry is lost.  For a service with a user
    id the entry, with the defaults of type and action filled in, is
    appended exactly when the database is up, the type is one of the
    schema's and a non-empty message is given; otherwise the log is as
    before.  The log only grows. *)
Theorem appendLog_never_throws fault logs this logData :
  let out := appendLog fault logs this logData in
  let valid :=
    bool_decide (Js.orStr (logType logData) "info" ∈ ActivityLog.typeValues) &&
    Js.truthyOptStr (logMessage logData) in
  out.1 = Return tt ∧
  (∀ uid, userId this = Some uid → Js.truthyStr uid = true →
     out.2 =
       match fault with
       | None =>
           if valid
           then logs ++ [ {| ActivityLog.userId := uid;
                             ActivityLog.type :=
                               Js.orStr (logType logData) "info";
                             ActivityLog.action :=
                               Js.orStr (logAction logData) "automation";
                             ActivityLog.message := logMessage logData |} ]
           else logs
       | Some _ => logs
       end) ∧
  (Js.truthyOptStr (userId this) = false → out.2 = logs) ∧
  logs `prefix_of` out.2.
Proof.
  intros out valid. subst out.
  assert (Hact : Js.truthyStr (Js.orStr (logAction logData) "automation") = true).
  { by destruct (logAction logData) as [[|a s]|]. }
  unfold appendLog, ActivityLog.log, ActivityLog.create, ActivityLog.accepts.
  cbn [ActivityLog.type ActivityLog.action ActivityLog.message].
  rewrite Hact, andb_true_r. fold valid.
  destruct (userId this) as [uid|]; cbn [Js.truthyOptStr negb].
  - destruct (Js.truthyStr uid) eqn:Ht; cbn [negb].
    + destruct valid; cbn [negb fst snd].
      * destruct fault as [e|]; cbn [fst snd].
        -- split; [done|]. split; [by intros uid' [= <-] _|]. done.
        -- split; [done|]. split; [by intros uid' [= <-] _|].
           split; [done|]. by apply prefix_app_r.
      * split; [done|]. split; [|done]. intros uid' _ _. by destruct fault.
    + split; [done|]. split; [|done]. intros uid' [= <-] Ht'. congruence.
  - done.
Qed.

(** An entry with a message is stored with the defaults filled in; one
    with a type outside the enum and one without a message are lost. *)
Lemma appendLog_never_throws_witness :
  let this := {| userId := Some "u1" |} in
  let entry t m := {| logType := t; logAction := None; logMessage := m |} in
  (appendLog None [] this (entry None (Some "started"))).2 =
    [ {| ActivityLog.userId := "u1"; ActivityLog.type := "info";
         ActivityLog.action := "automation";
         ActivityLog.message := Some "started" |} ] ∧
  (appendLog None [] this (entry (Some "debug") (Some "started"))).2 = [] ∧
  (appendLog None [] this (entry None None)).2 = [].
Proof.
  intros this entry.
  destruct (appendLog_never_throws None [] this (entry None (Some "started")))
    as (_ & H1 & _).
  destruct (appendLog_never_throws None [] this
              (entry (Some "debug") (Some "started"))) as (_ & H2 & _).
  destruct (appendLog_never_throws None [] this (entry None None))
    as (_ & H3 & _).
  split; [exact (H1 "u1" eq_refl eq_refl)|].
  split; [exact (H2 "u1" eq_refl eq_refl)|exact (H3 "u1" eq_refl eq_refl)].
Defined.

End Settings.
